(** * Embedding service: cache gateway and cache adapter

    A shallow embedding of [src/embedding_service.py]: the cache adapter
    ([get_cache_key], [get_cached_embedding], [cache_embedding]), the start-up
    probe, and the two request handlers [embed] and [embed_batch].

    The handlers talk to three collaborators that are not part of the
    repository: the Redis server, the pickle serializer and the BGE-M3 model.
    Pure collaborators (MD5, pickle) are section variables.  Stateful ones
    (Redis, the model) are part of an explicit [world] that every function
    threads through a small state-and-exception monad; the world also keeps a
    trace of every command sent to a collaborator, so that statements such as
    "at most one provider call" can be written down.

    The two scripts of [src/scripts] are embedded in the modules
    [PptExtractor] and [QwenOcr]; what they find on the machine (the file
    system, the slide library, the vision API) is a record of functions. *)

From Stdlib Require Import Strings.Ascii Strings.Byte.
From stdpp Require Import gmap strings list fin_maps pretty.

(** ** Python strings *)

(** A Python [str] is modelled as a [string] whose characters are the code
    points below 256.  [str.strip()] removes the code points for which
    [str.isspace()] holds; below 256 these are 9-13, 28-32, 133 and 160. *)
Definition isspace (c : ascii) : bool :=
  let n := nat_of_ascii c in
  ((9 <=? n) && (n <=? 13)) || ((28 <=? n) && (n <=? 32))
  || (n =? 133) || (n =? 160).

Fixpoint lstrip (s : string) : string :=
  match s with
  | EmptyString => EmptyString
  | String c s' => if isspace c then lstrip s' else s
  end.

Fixpoint rstrip (s : string) : string :=
  match s with
  | EmptyString => EmptyString
  | String c s' =>
      match rstrip s' with
      | EmptyString => if isspace c then EmptyString else String c EmptyString
      | r => String c r
      end
  end.

Definition strip (s : string) : string := rstrip (lstrip s).

(** Truth value of a [str]: non-empty. *)
Definition str_truthy (s : string) : bool :=
  match s with EmptyString => false | String _ _ => true end.

(** Truth value of a [bytes] object or of a list: non-empty. *)
Definition seq_truthy {A} (l : list A) : bool :=
  match l with [] => false | _ :: _ => true end.

(** "Empty or whitespace-only", said without reference to [strip]. *)
Fixpoint blank (s : string) : bool :=
  match s with
  | EmptyString => true
  | String c s' => isspace c && blank s'
  end.

(** ** Exceptions and results *)

Inductive exn : Type :=
| ConnectionError
| UnpicklingError
| IndexError
| ProviderError (msg : string).

Inductive result (A : Type) : Type :=
| Ok (a : A)
| Raise (e : exn).
Arguments Ok {A} a.
Arguments Raise {A} e.

(** ** Module constants *)

Definition EMBEDDING_DIM : nat := 1024.
Definition CACHE_TTL : nat := 3600.

(** The handle built by [redis.Redis(host=..., port=..., db=0)]. *)
Record Redis : Type := { host : string; port : Z; db : Z }.

(** Commands sent to the collaborators, in the order they are issued. *)
Inductive event : Type :=
| EvPing
| EvGet (key : string)
| EvSetex (key : string) (ttl : nat) (payload : list byte)
| EvEncode (texts : list string) (batch_size max_length : Z).

(** ** Python objects that reach the handlers *)

(** What [pickle.loads] can hand back, and what a handler can return as an
    embedding: [None], a list of floats, or some other object.  [F] is the
    element type of a vector (a Python float); no arithmetic is ever performed
    on it. *)
Inductive pyobj (F : Type) : Type :=
| PyNone
| PyList (v : list F)
| PyOther (repr : string).
Arguments PyNone {F}.
Arguments PyList {F} v.
Arguments PyOther {F} repr.

Definition is_not_none {F} (o : pyobj F) : bool :=
  match o with PyNone => false | _ => true end.

(** ** The world *)

(** Module globals set at start-up ([CACHE_ENABLED], [cache]); the Redis
    server ([entries] with their expiry time, its [clock] in seconds, and a
    schedule of [faults]: every command consumes the head of the schedule and
    fails with a connection error when it is [true]); the scripted [answers]
    of [model.encode], one per call; and the [trace] of commands issued. *)
Record world (F : Type) : Type := World {
  CACHE_ENABLED : bool;
  cache : option Redis;
  entries : gmap string (list byte * nat);
  clock : nat;
  faults : list bool;
  answers : list (result (list (option (list F))));
  trace : list event
}.
Arguments World {F} _ _ _ _ _ _ _.
Arguments CACHE_ENABLED {F} w.
Arguments cache {F} w.
Arguments entries {F} w.
Arguments clock {F} w.
Arguments faults {F} w.
Arguments answers {F} w.
Arguments trace {F} w.

Definition set_CACHE_ENABLED {F} (b : bool) (w : world F) : world F :=
  World b (cache w) (entries w) (clock w) (faults w) (answers w) (trace w).
Definition set_cache {F} (c : option Redis) (w : world F) : world F :=
  World (CACHE_ENABLED w) c (entries w) (clock w) (faults w) (answers w) (trace w).
Definition set_entries {F} (m : gmap string (list byte * nat)) (w : world F) : world F :=
  World (CACHE_ENABLED w) (cache w) m (clock w) (faults w) (answers w) (trace w).
Definition set_clock {F} (n : nat) (w : world F) : world F :=
  World (CACHE_ENABLED w) (cache w) (entries w) n (faults w) (answers w) (trace w).
Definition set_faults {F} (fs : list bool) (w : world F) : world F :=
  World (CACHE_ENABLED w) (cache w) (entries w) (clock w) fs (answers w) (trace w).
Definition set_answers {F} (a : list (result (list (option (list F))))) (w : world F)
  : world F :=
  World (CACHE_ENABLED w) (cache w) (entries w) (clock w) (faults w) a (trace w).
Definition set_trace {F} (t : list event) (w : world F) : world F :=
  World (CACHE_ENABLED w) (cache w) (entries w) (clock w) (faults w) (answers w) t.

(** ** Stand-ins for the pure collaborators

    Concrete instances used by the examples at the end of the file: vector
    elements are bytes, the digest is the identity, and a payload is the
    vector behind the pickle protocol marker. *)
Module Demo.
Definition digest (s : string) : string := s.
Definition dumps (v : list byte) : list byte := x80 :: v.
Definition loads (b : list byte) : result (pyobj byte) :=
  match b with
  | x80 :: v => Ok (PyList v)
  | [x4e] => Ok PyNone
  | _ => Raise UnpicklingError
  end.
Definition client : Redis := {| host := "redis"; port := 6379; db := 0 |}.
Definition vec (b : byte) : list byte := repeat b 1024.
Definition short_vec (b : byte) : list byte := repeat b 1023.
(** A process whose probe succeeded, with an empty store. *)
Definition fresh (a : list (result (list (option (list byte))))) : world byte :=
  World true (Some client) ∅ 0 [] a [].
(** The same with an entry for ["hello"]. *)
Definition warm (a : list (result (list (option (list byte))))) : world byte :=
  World true (Some client) {[ "emb:hello" := (dumps (vec x01), 3600) ]} 0 [] a [].
(** A store holding, under the key of ["hello"], a list of one float: an
    entry that some other writer, or a model of another dimension, left
    there. *)
Definition stale (a : list (result (list (option (list byte))))) : world byte :=
  World true (Some client) {[ "emb:hello" := (dumps [x01], 3600) ]} 0 [] a [].
(** A store holding a payload that does not deserialize. *)
Definition corrupt : world byte :=
  World true (Some client) {[ "emb:x" := ([x00], 3600) ]} 0 [] [] [].
(** A server that drops the next command. *)
Definition flaky : world byte :=
  World true (Some client) ∅ 0 [true] [] [].
(** A process before start-up, with a server that cannot be reached. *)
Definition cold : world byte :=
  World false None ∅ 0 [true] [] [].
(** The batch of the spec's scenario, and one with three distinct texts. *)
Definition batch : list string := ["hello"; ""; "hello"].
Definition abc : list string := ["a"; "b"; "c"].
(** A stand-in for [int] on a string: plain decimal digits only. *)
Fixpoint digits (s : string) (acc : Z) : option Z :=
  match s with
  | EmptyString => Some acc
  | String c s' =>
      let n := nat_of_ascii c in
      if (48 <=? n) && (n <=? 57)
      then digits s' (10 * acc + Z.of_nat (n - 48))%Z
      else None
  end.
Definition int_of (s : string) : option Z :=
  match s with
  | EmptyString => None
  | String _ _ => digits s 0
  end.
End Demo.

(** * Slide-text extraction ([src/scripts/pptextractor.py]) *)

Module PptExtractor.

(** The newline character. *)
Definition nl : string := String "010"%char "".

(** [sep.join(l)]. *)
Fixpoint join (sep : string) (l : list string) : string :=
  match l with
  | [] => ""
  | x :: rest =>
      match rest with
      | [] => x
      | _ :: _ => x +:+ sep +:+ join sep rest
      end
  end.

(** The exceptions, as the two handlers tell them apart, with [str(e)]. *)
Inductive pyerror : Type :=
| ImportError (msg : string)
| OtherError (msg : string).

(** A shape is its [text] attribute, [None] when it has none; a slide is its
    [shapes]; a presentation is its [slides]. *)
Definition shape : Type := option string.
Definition slide : Type := list shape.

Inductive loaded : Type :=
| Loaded (slides : list slide)
| Failed (e : pyerror).

(** What the script finds on the machine: whether [pptx] can be imported,
    [os.path.exists], and what [Presentation(path)] gives. *)
Record env : Type := Env {
  pptx_importable : bool;
  path_exists : string → bool;
  Presentation : string → loaded
}.

Definition import_error_message : string :=
  "ERROR: python-pptx not installed. Run: pip install python-pptx" +:+ nl.

(** The inner loop of lines 21-23, with [text_runs] as accumulator. *)
Fixpoint collect_runs (shapes : list shape) (text_runs : list string)
  : list string :=
  match shapes with
  | [] => text_runs
  | sh :: rest =>
      match sh with
      | Some text =>
          if str_truthy text then collect_runs rest (text_runs ++ [strip text])
          else collect_runs rest text_runs
      | None => collect_runs rest text_runs
      end
  end.

(** Line 25. *)
Definition slide_content (s : slide) : string :=
  strip (join " " (collect_runs s [])).

(** Line 27. *)
Definition slide_block (i : nat) (content : string) : string :=
  "Slide " +:+ pretty (i + 1) +:+ ": " +:+ content.

(** The outer loop of lines 19-27 over [enumerate(prs.slides)], with
    [slides_text] as accumulator. *)
Fixpoint collect_slides (its : list (nat * slide)) (slides_text : list string)
  : list string :=
  match its with
  | [] => slides_text
  | (i, s) :: rest =>
      if str_truthy (slide_content s)
      then collect_slides rest (slides_text ++ [slide_block i (slide_content s)])
      else collect_slides rest slides_text
  end.

(** What is written to standard output, and the returned flag.  Writing to
    standard output is taken to succeed. *)
Definition extract_pptx_text (e : env) (pptx_path : string) : string * bool :=
  if negb (pptx_importable e) then (import_error_message, false)
  else if negb (path_exists e pptx_path) then ("ERROR: File not found" +:+ nl, false)
  else
    match Presentation e pptx_path with
    | Failed (ImportError _) => (import_error_message, false)
    | Failed (OtherError msg) => ("ERROR: " +:+ msg +:+ nl, false)
    | Loaded slides =>
        let slides_text := collect_slides (zip (seq 0 (length slides)) slides) [] in
        let output :=
          if seq_truthy slides_text then join (nl +:+ nl) slides_text
          else "[No text found in presentation]" in
        (output, true)
    end.

(** The script: standard output and the exit status. *)
Definition main (e : env) (argv : list string) : string * Z :=
  match argv with
  | _ :: pptx_path :: _ =>
      let '(output, success) := extract_pptx_text e pptx_path in
      (output, if success then 0 else 1)%Z
  | _ => ("ERROR: No input file" +:+ nl, 1%Z)
  end.

(** A shape without text, or with blank text. *)
Definition textless (sh : shape) : Prop :=
  match sh with
  | Some text => blank text = true
  | None => True
  end.

(** [s.isascii()]: every character is below 128, so that standard output
    can take the string whatever its encoding. *)
Fixpoint isascii (s : string) : bool :=
  match s with
  | EmptyString => true
  | String c s' => (nat_of_ascii c <? 128) && isascii s'
  end.

(** A shape without text, or whose text is ASCII. *)
Definition ascii_shape (sh : shape) : Prop :=
  match sh with
  | Some text => isascii text = true
  | None => True
  end.

(** Example decks. *)
Definition deck : list slide :=
  [[Some " Title "; None; Some "body"]; [Some "  "; None]; [Some "end"]].
Definition machine (slides : list slide) : env :=
  Env true (λ p, bool_decide (p = "deck.pptx")) (λ _, Loaded slides).

End PptExtractor.

(** * Image-text extraction ([src/scripts/qwen_ocr.py]) *)

Module QwenOcr.

Definition nl : string := String "010"%char "".

(** [str.lower()] on code points below 256: A-Z, and the upper-case letters
    of Latin-1 (192-222 without the multiplication sign 215). *)
Definition lower_char (c : ascii) : ascii :=
  let n := nat_of_ascii c in
  if ((65 <=? n) && (n <=? 90)) || ((192 <=? n) && (n <=? 214))
     || ((216 <=? n) && (n <=? 222))
  then ascii_of_nat (n + 32) else c.

Fixpoint lower (s : string) : string :=
  match s with
  | EmptyString => EmptyString
  | String c s' => String (lower_char c) (lower s')
  end.

(** [s.startswith(p)]. *)
Fixpoint startswith (p s : string) : bool :=
  match p, s with
  | EmptyString, _ => true
  | String a p', String b s' => if Ascii.eqb a b then startswith p' s' else false
  | String _ _, EmptyString => false
  end.

(** [needle in s]. *)
Fixpoint contains (needle s : string) : bool :=
  startswith needle s ||
  match s with
  | EmptyString => false
  | String _ s' => contains needle s'
  end.

(** The exceptions, as the three handlers tell them apart, with [str(e)]
    (and [type(e).__name__] for the others). *)
Inductive pyerror : Type :=
| FileNotFoundError (msg : string)
| ValueError (msg : string)
| OtherError (type_name msg : string).

(** Lines 16-29: the endpoint and the model follow the environment's key. *)
Definition QWEN_BASE_URL (QWEN_API_KEY : string) : string :=
  if startswith "sk-or-" QWEN_API_KEY then "https://openrouter.ai/api/v1"
  else "https://dashscope.aliyuncs.com/compatible-mode/v1".

Definition QWEN_MODEL (QWEN_API_KEY : string) : string :=
  if startswith "sk-or-" QWEN_API_KEY then "qwen/qwen-2-vl-72b-instruct"
  else "qwen-vl-max-latest".

(** Lines 70-76: the dictionary lookup with its default. *)
Definition mime_type_of (ext : string) : string :=
  if String.eqb ext ".jpg" then "image/jpeg"
  else if String.eqb ext ".jpeg" then "image/jpeg"
  else if String.eqb ext ".png" then "image/png"
  else if String.eqb ext ".gif" then "image/gif"
  else if String.eqb ext ".webp" then "image/webp"
  else "image/jpeg".

(** Lines 90-98. *)
Definition prompt : string :=
  "Extract ALL text from this image. Include:" +:+ nl +:+
  "- All visible text, regardless of size or position" +:+ nl +:+
  "- Text in any language (English, Chinese, etc.)" +:+ nl +:+
  "- Numbers, dates, and special characters" +:+ nl +:+
  "- Text in tables, lists, or structured formats" +:+ nl +:+
  "- Watermarks or small text" +:+ nl +:+ nl +:+
  "Format the output as plain text, preserving the reading order (top to bottom, left to right)." +:+ nl +:+
  "If there is no text in the image, respond with: [NO TEXT DETECTED]".

(** What is sent to the API: the client's key and endpoint, the model, the
    image as a data URL, and the prompt. *)
Record request : Type := Request {
  req_api_key : string;
  req_base_url : string;
  req_model : string;
  req_image_url : string;
  req_text : string
}.

(** What [client.chat.completions.create] gives: the [message.content] of
    each choice ([None] when it has none) and [usage.total_tokens], or an
    exception. *)
Inductive completion : Type :=
| Completed (choices : list (option string)) (total_tokens : nat)
| ApiFailed (e : pyerror).

Inductive file_read : Type :=
| Encoded (image_base64 : string)
| ReadFailed (e : pyerror).

(** What the script finds: the environment's key, [os.path.exists],
    [os.path.basename], [os.path.splitext(...)[1]], the image read and
    encoded (a failure of [os.path.getsize], logged just before, counts as a
    failure to read), and the API. *)
Record env : Type := Env {
  QWEN_API_KEY : string;
  path_exists : string → bool;
  basename : string → string;
  splitext_ext : string → string;
  encode_image_to_base64 : string → file_read;
  create : request → completion
}.

(** The returned dictionary; a key that is absent is [None]. *)
Record ocr_result : Type := OcrResult {
  image : string;
  text : string;
  detected : bool;
  tokens_used : option nat;
  model : option string;
  char_count : option nat;
  error : option string
}.

Definition key_missing_message : string :=
  "QWEN_API_KEY not found. Please set it in environment variables or pass it as argument.".

(** [api_key or QWEN_API_KEY]. *)
Definition chosen_key (e : env) (api_key : option string) : string :=
  match api_key with
  | Some k => if str_truthy k then k else QWEN_API_KEY e
  | None => QWEN_API_KEY e
  end.

(** The body of the [try] (lines 53-166): the dictionary it returns or the
    exception it raises, and the requests sent to the API. *)
Definition try_body (e : env) (image_path : string) (api_key : option string)
  : (pyerror + ocr_result) * list request :=
  if negb (path_exists e image_path)
  then (inl (FileNotFoundError ("Image not found: " +:+ image_path)), [])
  else
    let key := chosen_key e api_key in
    if negb (str_truthy key) then (inl (ValueError key_missing_message), [])
    else
      match encode_image_to_base64 e image_path with
      | ReadFailed err => (inl err, [])
      | Encoded image_base64 =>
          let ext := lower (splitext_ext e image_path) in
          let mime_type := mime_type_of ext in
          let req :=
            {| req_api_key := key;
               req_base_url := QWEN_BASE_URL (QWEN_API_KEY e);
               req_model := QWEN_MODEL (QWEN_API_KEY e);
               req_image_url := "data:" +:+ mime_type +:+ ";base64," +:+ image_base64;
               req_text := prompt |} in
          match create e req with
          | ApiFailed err => (inl err, [req])
          | Completed choices total_tokens =>
              match choices with
              | [] =>
                  (inl (OtherError "IndexError" "list index out of range"), [req])
              | None :: _ =>
                  (inl (OtherError "AttributeError"
                          "'NoneType' object has no attribute 'strip'"), [req])
              | Some content :: _ =>
                  let extracted_text := strip content in
                  if String.eqb extracted_text "[NO TEXT DETECTED]"
                     || negb (str_truthy extracted_text)
                  then
                    (inr {| image := basename e image_path;
                            text := "";
                            detected := false;
                            tokens_used := Some total_tokens;
                            model := Some (QWEN_MODEL (QWEN_API_KEY e));
                            char_count := None;
                            error := None |}, [req])
                  else
                    (inr {| image := basename e image_path;
                            text := extracted_text;
                            detected := true;
                            tokens_used := Some total_tokens;
                            model := Some (QWEN_MODEL (QWEN_API_KEY e));
                            char_count := Some (String.length extracted_text);
                            error := None |}, [req])
              end
          end
      end.

(** Lines 194-202: the message reported for an exception of another kind. *)
Definition friendly (error_msg : string) : string :=
  let l := lower error_msg in
  if contains "authentication" l || contains "api key" l
  then "Invalid API key. Please check your QWEN_API_KEY."
  else if contains "rate limit" l
  then "API rate limit exceeded. Please wait and try again."
  else if contains "quota" l
  then "API quota exceeded. Please check your account."
  else if contains "timeout" l
  then "API request timed out. Please try again."
  else error_msg.

Definition failed (e : env) (image_path : string) (error_msg : string)
  : ocr_result :=
  {| image := basename e image_path;
     text := "";
     detected := false;
     tokens_used := None;
     model := None;
     char_count := None;
     error := Some error_msg |}.

(** The function with its three handlers: the dictionary returned and the
    requests sent.  Logging is left out. *)
Definition extract_text_from_image (e : env) (image_path : string)
    (api_key : option string) : ocr_result * list request :=
  let '(r, calls) := try_body e image_path api_key in
  match r with
  | inr res => (res, calls)
  | inl (FileNotFoundError msg) => (failed e image_path msg, calls)
  | inl (ValueError msg) => (failed e image_path msg, calls)
  | inl (OtherError _ msg) => (failed e image_path (friendly msg), calls)
  end.

(** What [main] prints: the one-element error list before [sys.exit(1)], or
    the list of results; or nothing, when the [print] of line 252 raises
    because standard output cannot encode the text of the results, which
    [ensure_ascii=False] passes on as it is. *)
Inductive printed : Type :=
| Aborted (error : string) (hint_key hint : string)
| Results (results : list ocr_result)
| Unprinted.

(** The loop of lines 236-244, with [results] as accumulator. *)
Fixpoint process (e : env) (paths : list string)
    (results : list ocr_result) (calls : list request)
  : list ocr_result * list request :=
  match paths with
  | [] => (results, calls)
  | image_path :: rest =>
      let '(result, sent) := extract_text_from_image e image_path None in
      process e rest (results ++ [result]) (calls ++ sent)
  end.

(** What is printed, the exit status, and the requests sent.
    [stdout_accepts] tells whether standard output can encode the JSON text
    of a list of results.  The two error lists are dumped with the default
    [ensure_ascii=True] and are ASCII; the [print] of the results stands
    outside any [try], so that its exception ends the script with a
    traceback and exit status 1. *)
Definition main (e : env) (stdout_accepts : list ocr_result → bool)
    (argv : list string) : printed * Z * list request :=
  if length argv <? 2 then
    (Aborted
       "No image paths provided. Usage: python qwen_ocr.py <image1> [image2] ..."
       "usage" "Set QWEN_API_KEY environment variable before running", 1%Z, [])
  else if negb (str_truthy (QWEN_API_KEY e)) then
    (Aborted
       "QWEN_API_KEY not set. Please set this environment variable."
       "help"
       "Set via: set QWEN_API_KEY=your_key_here (Windows) or export QWEN_API_KEY=your_key_here (Linux/Mac)",
     1%Z, [])
  else
    let '(results, calls) := process e (tail argv) [] [] in
    if stdout_accepts results then (Results results, 0%Z, calls)
    else (Unprinted, 1%Z, calls).

(** The types an image is ever sent as. *)
Definition known_mime_types : list string :=
  ["image/jpeg"; "image/png"; "image/gif"; "image/webp"].

(** An example machine: two files, one of them unreadable, and an API that
    answers with the given completion. *)
Definition machine (key : string) (answer : completion) : env :=
  Env key
    (λ p, bool_decide (p = "scan.PNG") || bool_decide (p = "locked.jpg"))
    (λ p, p)
    (λ p, if bool_decide (p = "scan.PNG") then ".PNG" else ".jpg")
    (λ p, if bool_decide (p = "scan.PNG") then Encoded "aGk="
          else ReadFailed (OtherError "PermissionError" "[Errno 13] Permission denied"))
    (λ _, answer).

End QwenOcr.

Section Service.

Variable F : Type.

(** [hashlib.md5(text.encode('utf-8')).hexdigest()]. *)
Variable md5_hexdigest : string → string.

(** [pickle.dumps] on a list of floats and [pickle.loads] on a payload. *)
Variable pickle_dumps : list F → list byte.
Variable pickle_loads : list byte → result (pyobj F).

(** [int(s)] on a string: the integer it spells, and [None] where [int]
    raises [ValueError]. *)
Variable python_int : string → option Z.

#[local] Abbreviation world := (world F).
#[local] Abbreviation pyobj := (pyobj F).

(** ** State and exceptions *)

Definition M (A : Type) : Type := world → result A * world.

#[local] Instance M_ret : MRet M := λ A a w, (Ok a, w).
#[local] Instance M_bind : MBind M := λ A B f m w,
  match m w with
  | (Ok a, w') => f a w'
  | (Raise e, w') => (Raise e, w')
  end.

Definition raise {A} (e : exn) : M A := λ w, (Raise e, w).

(** [try: body / except Exception as e: handler e]. *)
Definition try_except {A} (body : M A) (handler : exn → M A) : M A := λ w,
  match body w with
  | (Ok a, w') => (Ok a, w')
  | (Raise e, w') => handler e w'
  end.

Definition gets {A} (f : world → A) : M A := λ w, (Ok (f w), w).
Definition modify (f : world → world) : M unit := λ w, (Ok tt, f w).
Definition emit (e : event) : M unit := modify (λ w, set_trace (trace w ++ [e]) w).

(** [l[i]] and [l[i] = x] on a Python list, for a non-negative index. *)
Definition getitem {A} (l : list A) (i : nat) : M A :=
  match l !! i with
  | Some x => mret x
  | None => raise IndexError
  end.

Definition setitem {A} (l : list A) (i : nat) (x : A) : M (list A) :=
  if decide (i < length l) then mret (<[i:=x]> l) else raise IndexError.

(** ** Collaborators *)

(** Every Redis command first reaches the server or fails to. *)
Definition redis_roundtrip (e : event) : M unit :=
  emit e;;
  fs ← gets faults;
  match fs with
  | [] => mret tt
  | down :: fs' =>
      modify (set_faults fs');;
      if down : bool then raise ConnectionError else mret tt
  end.

Definition redis_ping : M unit := redis_roundtrip EvPing.

(** [cache.get(key)]: the payload, or [None] for an absent or expired key. *)
Definition redis_get (key : string) : M (option (list byte)) :=
  redis_roundtrip (EvGet key);;
  m ← gets entries;
  now ← gets clock;
  match m !! key with
  | Some (payload, expiry) =>
      if decide (now < expiry) then mret (Some payload) else mret None
  | None => mret None
  end.

(** [cache.setex(key, ttl, payload)]. *)
Definition redis_setex (key : string) (ttl : nat) (payload : list byte) : M unit :=
  redis_roundtrip (EvSetex key ttl payload);;
  m ← gets entries;
  now ← gets clock;
  modify (set_entries (<[key := (payload, now + ttl)]> m)).

(** [model.encode(texts, batch_size=..., max_length=...)["dense_vecs"]]: the
    next scripted answer; a provider with nothing left to say has failed. *)
Definition model_encode (texts : list string) (batch_size max_length : Z)
  : M (list (option (list F))) :=
  emit (EvEncode texts batch_size max_length);;
  a ← gets answers;
  match a with
  | [] => raise (ProviderError "unavailable")
  | r :: a' =>
      modify (set_answers a');;
      match r with
      | Ok vectors => mret vectors
      | Raise e => raise e
      end
  end.

(** [vec.tolist()]. *)
Definition tolist (vec : list F) : list F := vec.

(** ** Redis cache setup (lines 34-48) *)

(** The [print] calls of the source write to standard output only and are
    left out throughout; those of lines 41 and 44 come after the banner of
    line 18, which standard output has taken by then. *)
Definition startup (redis_host : string) (redis_port : Z) : M unit :=
  try_except
    (modify (set_cache (Some {| host := redis_host; port := redis_port; db := 0 |}));;
     redis_ping;;
     modify (set_CACHE_ENABLED true))
    (λ e,
     modify (set_cache None);;
     modify (set_CACHE_ENABLED false)).

(** Lines 35-46 as the import of the module runs them, given the values of
    the two environment variables ([None] for one that is not set).
    [os.getenv] hands back the variable's value, a string, or the default it
    was given, and [int] leaves the integer default as it is.  Line 36 stands
    outside the [try]: when [int] raises, nothing catches it, the import
    fails and no probe is made; this is the result [None]. *)
Definition getenv_int (value : option string) (default_value : Z) : option Z :=
  match value with
  | Some s => python_int s
  | None => Some default_value
  end.

Definition module_setup (REDIS_HOST REDIS_PORT : option string) (w : world)
  : option (result unit * world) :=
  let redis_host := default "redis" REDIS_HOST in
  match getenv_int REDIS_PORT 6379 with
  | Some redis_port => Some (startup redis_host redis_port w)
  | None => None
  end.

Definition get_cache_key (text : string) : string :=
  "emb:" +:+ md5_hexdigest text.

(** Truth value of the global [cache]: a [redis.Redis] object defines neither
    [__bool__] nor [__len__], so only [None] is false. *)
Definition cache_truthy (c : option Redis) : bool :=
  match c with Some _ => true | None => false end.

(** The body of the [try] yields [Some o] when it reaches
    [return pickle.loads(cached)] and [None] when it falls through to the
    final [return None]. *)
Definition get_cached_embedding (text : string) : M pyobj :=
  enabled ← gets CACHE_ENABLED;
  c ← gets cache;
  if negb enabled || negb (cache_truthy c) then mret PyNone
  else
    r ← try_except
          (let key := get_cache_key text in
           cached ← redis_get key;
           match cached with
           | Some payload =>
               if seq_truthy payload then
                 match pickle_loads payload with
                 | Ok o => mret (Some o)
                 | Raise e => raise e
                 end
               else mret None
           | None => mret None
           end)
          (λ e, mret None);
    match r with
    | Some o => mret o
    | None => mret PyNone
    end.

Definition cache_embedding (text : string) (embedding : list F) : M unit :=
  enabled ← gets CACHE_ENABLED;
  c ← gets cache;
  if negb enabled || negb (cache_truthy c) then mret tt
  else
    try_except
      (let key := get_cache_key text in
       redis_setex key CACHE_TTL (pickle_dumps embedding))
      (λ e, mret tt).

(** ** Single embed (lines 79-106) *)

(** The returned dictionary: ["embedding"] and, when present, ["cached"]. *)
Record response : Type := Response {
  embedding : pyobj;
  cached : option bool
}.

Definition embed (data_text : string) : M response :=
  let text := if str_truthy data_text then strip data_text else "" in
  if negb (str_truthy text) then mret (Response PyNone None)
  else
    cached ← get_cached_embedding text;
    if is_not_none cached then mret (Response cached (Some true))
    else
      dense_vecs ← model_encode [text] 1 8192;
      vec ← getitem dense_vecs 0;
      match vec with
      | None => mret (Response PyNone None)
      | Some v =>
          if negb (length v =? EMBEDDING_DIM) then mret (Response PyNone None)
          else
            let embedding := tolist v in
            cache_embedding text embedding;;
            mret (Response (PyList embedding) (Some false))
      end.

(** ** Batch embed (lines 110-150) *)

(** [t.strip() if isinstance(t, str) and t.strip() else " "]; the request
    model declares [texts: List[str]], so [isinstance] always holds. *)
Definition clean_text (t : string) : string :=
  if str_truthy (strip t) then strip t else " ".

Definition enumerate {A} (l : list A) : list (nat * A) :=
  zip (seq 0 (length l)) l.

(** The first loop, over [enumerate(cleaned_texts)]: one cache lookup per
    position; [results.append] and the two to-generate lists are threaded as
    accumulators. *)
Fixpoint lookup_loop (its : list (nat * string))
    (results : list pyobj) (texts_to_generate : list string)
    (indices_to_generate : list nat)
  : M (list pyobj * list string * list nat) :=
  match its with
  | [] => mret (results, texts_to_generate, indices_to_generate)
  | (i, text) :: rest =>
      cached ← get_cached_embedding text;
      if is_not_none cached then
        lookup_loop rest (results ++ [cached]) texts_to_generate indices_to_generate
      else
        lookup_loop rest (results ++ [PyNone])
          (texts_to_generate ++ [text]) (indices_to_generate ++ [i])
  end.

(** The second loop, over [zip(indices_to_generate, vectors)]: fill in
    results and cache new embeddings.  [results[idx] = embedding] and
    [cleaned_texts[idx]] raise [IndexError] out of range, as in Python. *)
Fixpoint fill_loop (pairs : list (nat * option (list F)))
    (cleaned_texts : list string) (results : list pyobj) : M (list pyobj) :=
  match pairs with
  | [] => mret results
  | (idx, vec) :: rest =>
      match vec with
      | Some v =>
          if length v =? EMBEDDING_DIM then
            let embedding := tolist v in
            results' ← setitem results idx (PyList embedding);
            text ← getitem cleaned_texts idx;
            cache_embedding text embedding;;
            fill_loop rest cleaned_texts results'
          else fill_loop rest cleaned_texts results
      | None => fill_loop rest cleaned_texts results
      end
  end.

(** The handler returns [{"embeddings": results}]; the model returns
    [results]. *)
Definition embed_batch (data_texts : list string) : M (list pyobj) :=
  if negb (seq_truthy data_texts) then mret []
  else
    let cleaned_texts := clean_text <$> data_texts in
    '(results, texts_to_generate, indices_to_generate) ←
      lookup_loop (enumerate cleaned_texts) [] [] [];
    if seq_truthy texts_to_generate then
      vectors ← model_encode texts_to_generate 12 8192;
      fill_loop (zip indices_to_generate vectors) cleaned_texts results
    else mret results.

(** ** What one run does, as pure functions of the world *)

(** The adapter is switched on. *)
Definition cache_on (w : world) : bool :=
  CACHE_ENABLED w && cache_truthy (cache w).

(** The next Redis command fails to reach the server. *)
Definition next_fault (w : world) : bool := hd false (faults w).

(** The world after a Redis command was sent. *)
Definition after_roundtrip (e : event) (w : world) : world :=
  set_faults (tail (faults w)) (set_trace (trace w ++ [e]) w).

(** The live payload stored under a key. *)
Definition live_payload (w : world) (key : string) : option (list byte) :=
  match entries w !! key with
  | Some (payload, expiry) => if decide (clock w < expiry) then Some payload else None
  | None => None
  end.

(** What the server holds for a text, decoded; [PyNone] for a miss. *)
Definition stored_value (w : world) (text : string) : pyobj :=
  match live_payload w (get_cache_key text) with
  | Some payload =>
      if seq_truthy payload then
        match pickle_loads payload with
        | Ok o => o
        | Raise _ => PyNone
        end
      else PyNone
  | None => PyNone
  end.

(** Outcome of [get_cached_embedding text] in [w] and the world it leaves. *)
Definition read_value (text : string) (w : world) : pyobj :=
  if cache_on w then
    if next_fault w then PyNone else stored_value w text
  else PyNone.

Definition after_read (text : string) (w : world) : world :=
  if cache_on w then after_roundtrip (EvGet (get_cache_key text)) w else w.

(** The world [cache_embedding text emb] leaves. *)
Definition after_write (text : string) (emb : list F) (w : world) : world :=
  if cache_on w then
    let key := get_cache_key text in
    let payload := pickle_dumps emb in
    let w1 := after_roundtrip (EvSetex key CACHE_TTL payload) w in
    if next_fault w then w1
    else set_entries (<[key := (payload, clock w + CACHE_TTL)]> (entries w)) w1
  else w.

(** The lookups of a batch, each made in the world its predecessors left. *)
Fixpoint reads (texts : list string) (w : world) : list pyobj :=
  match texts with
  | [] => []
  | t :: ts => read_value t w :: reads ts (after_read t w)
  end.

Fixpoint after_reads (texts : list string) (w : world) : world :=
  match texts with
  | [] => w
  | t :: ts => after_reads ts (after_read t w)
  end.

(** The texts, and the positions counted from [n], at which a lookup
    missed. *)
Fixpoint miss_texts (texts : list string) (rs : list pyobj) : list string :=
  match texts, rs with
  | t :: ts, r :: rs' =>
      if is_not_none r then miss_texts ts rs' else t :: miss_texts ts rs'
  | _, _ => []
  end.

Fixpoint miss_indices (n : nat) (rs : list pyobj) : list nat :=
  match rs with
  | [] => []
  | r :: rs' =>
      if is_not_none r then miss_indices (S n) rs' else n :: miss_indices (S n) rs'
  end.

(** How many lookups before position [i] missed: the place of position [i]
    in the to-generate list. *)
Definition miss_rank (rs : list pyobj) (i : nat) : nat :=
  length (miss_indices 0 (take i rs)).

(** A provider vector as it enters the result. *)
Definition checked (vec : option (list F)) : option (list F) :=
  match vec with
  | Some v => if length v =? EMBEDDING_DIM then Some (tolist v) else None
  | None => None
  end.

Definition as_result (vec : option (list F)) : pyobj :=
  match checked vec with
  | Some emb => PyList emb
  | None => PyNone
  end.

(** Order-preserving reconciliation: hits stay, each miss takes the next
    provider vector if there is one left and it is valid. *)
Fixpoint merge (rs : list pyobj) (vectors : list (option (list F))) : list pyobj :=
  match rs with
  | [] => []
  | r :: rs' =>
      if is_not_none r then r :: merge rs' vectors
      else
        match vectors with
        | [] => PyNone :: merge rs' []
        | vec :: vectors' => as_result vec :: merge rs' vectors'
        end
  end.

(** The cache writes that go with [merge]. *)
Fixpoint write_back (texts : list string) (rs : list pyobj)
    (vectors : list (option (list F))) (w : world) : world :=
  match texts, rs with
  | t :: ts, r :: rs' =>
      if is_not_none r then write_back ts rs' vectors w
      else
        match vectors with
        | [] => w
        | vec :: vectors' =>
            write_back ts rs' vectors'
              (match checked vec with
               | Some emb => after_write t emb w
               | None => w
               end)
        end
  | _, _ => w
  end.

(** The provider's next answer. *)
Definition next_answer (w : world) : result (list (option (list F))) :=
  match answers w with
  | [] => Raise (ProviderError "unavailable")
  | r :: _ => r
  end.

(** The world after [model.encode] was called on [texts]. *)
Definition after_encode (texts : list string) (batch_size max_length : Z)
    (w : world) : world :=
  set_answers (tail (answers w))
    (set_trace (trace w ++ [EvEncode texts batch_size max_length]) w).

(** The texts of the provider calls in a trace. *)
Definition provider_calls (tr : list event) : list (list string) :=
  tr ≫= λ e, match e with EvEncode texts _ _ => [texts] | _ => [] end.

(** The cache writes in a trace. *)
Definition cache_writes (tr : list event) : list (string * list byte) :=
  tr ≫= λ e, match e with EvSetex key _ payload => [(key, payload)] | _ => [] end.

(** Time passing between two requests. *)
Definition elapse (d : nat) (w : world) : world := set_clock (clock w + d) w.

(** The outcome of [embed_batch], read off the lookups and the provider's
    answer. *)
Definition batch_outcome (data_texts : list string) (w : world)
  : result (list pyobj) * world :=
  match data_texts with
  | [] => (Ok [], w)
  | _ :: _ =>
      let cleaned := clean_text <$> data_texts in
      let rs := reads cleaned w in
      let w1 := after_reads cleaned w in
      match miss_texts cleaned rs with
      | [] => (Ok rs, w1)
      | (_ :: _) as misses =>
          let w2 := after_encode misses 12 8192 w1 in
          match next_answer w with
          | Ok vectors => (Ok (merge rs vectors), write_back cleaned rs vectors w2)
          | Raise e => (Raise e, w2)
          end
      end
  end.

(** Position [i] of a result holds a vector rather than [None]. *)
Definition present_at (res : list pyobj) (i : nat) : Prop :=
  ∃ o, res !! i = Some o ∧ o ≠ PyNone.

(** The lookup made for position [i] of a batch was a cache hit. *)
Definition hit_at (data_texts : list string) (w : world) (i : nat) : Prop :=
  present_at (reads (clean_text <$> data_texts) w) i.

(** The lookup for position [i] missed, and the provider's answer holds a
    vector of the right dimension at the place of that miss. *)
Definition provider_valid_at (data_texts : list string) (w : world)
    (vectors : list (option (list F))) (i : nat) : Prop :=
  let rs := reads (clean_text <$> data_texts) w in
  rs !! i = Some PyNone ∧
  ∃ v, vectors !! miss_rank rs i = Some (Some v) ∧ length v = EMBEDDING_DIM.

(** The texts a batch has to send to the provider. *)
Definition to_generate (data_texts : list string) (w : world) : list string :=
  miss_texts (clean_text <$> data_texts) (reads (clean_text <$> data_texts) w).

(** The (text, embedding) pairs that [write_back] hands to
    [cache_embedding], in order. *)
Fixpoint written (texts : list string) (rs : list pyobj)
    (vectors : list (option (list F))) : list (string * list F) :=
  match texts, rs with
  | t :: ts, r :: rs' =>
      if is_not_none r then written ts rs' vectors
      else
        match vectors with
        | [] => []
        | vec :: vectors' =>
            match checked vec with
            | Some emb => (t, emb) :: written ts rs' vectors'
            | None => written ts rs' vectors'
            end
        end
  | _, _ => []
  end.

(** The command [cache_embedding text emb] sends. *)
Definition setex_event (p : string * list F) : event :=
  EvSetex (get_cache_key p.1) CACHE_TTL (pickle_dumps p.2).

(** One position of a batch may stand for another: the same text, or a
    blank text replaced by a single space. *)
Definition same_or_blank (t t' : string) : Prop :=
  t' = t ∨ (blank t = true ∧ t' = " ").

(** The conditions under which a lookup must come back empty-handed: the
    adapter is disabled, the server cannot be reached, the key is absent, or
    the stored payload does not deserialize. *)
Definition get_blocked (text : string) (w : world) : Prop :=
  CACHE_ENABLED w = false
  ∨ next_fault w = true
  ∨ entries w !! get_cache_key text = None
  ∨ ∃ payload expiry e,
      entries w !! get_cache_key text = Some (payload, expiry) ∧
      pickle_loads payload = Raise e.

(** Spec side of the cache-independence refinement: the provider-only
    computation.  All normalized texts go to the provider in one call, and
    position [i] of the result is the provider's [i]-th vector if it has
    exactly [EMBEDDING_DIM] elements, and absent otherwise. *)
Definition usable (vec : option (option (list F))) : pyobj :=
  match vec with
  | Some (Some v) => if decide (length v = EMBEDDING_DIM) then PyList v else PyNone
  | _ => PyNone
  end.

Definition spec_provider_only (normalized : list string) : M (list pyobj) :=
  match normalized with
  | [] => mret []
  | _ :: _ =>
      vectors ← model_encode normalized 12 8192;
      mret ((λ i, usable (vectors !! i)) <$> seq 0 (length normalized))
  end.

(** A healthy cache: the adapter is on and no command is going to fail. *)
Definition healthy (w : world) : Prop :=
  cache_on w = true ∧ faults w = [].

(** The serializer never produces an empty payload and reads back what it
    wrote. *)
Definition pickle_sound : Prop :=
  ∀ v, pickle_dumps v ≠ [] ∧ pickle_loads (pickle_dumps v) = Ok (PyList v).

(** On a healthy cache, the text has nothing usable in the store. *)
Definition missing (w : world) (text : string) : bool :=
  negb (is_not_none (stored_value w text)).

(** The outcome of [embed], read off the lookup and the provider's answer. *)
Definition single_outcome (data_text : string) (w : world)
  : result response * world :=
  match (if str_truthy data_text then strip data_text else "") with
  | EmptyString => (Ok (Response PyNone None), w)
  | String _ _ as text =>
      let hit := read_value text w in
      let w1 := after_read text w in
      if is_not_none hit then (Ok (Response hit (Some true)), w1)
      else
        let w2 := after_encode [text] 1 8192 w1 in
        match next_answer w with
        | Raise e => (Raise e, w2)
        | Ok [] => (Raise IndexError, w2)
        | Ok (vec :: _) =>
            match checked vec with
            | Some emb =>
                (Ok (Response (PyList emb) (Some false)), after_write text emb w2)
            | None => (Ok (Response PyNone None), w2)
            end
        end
  end.

(** The second of two requests for [t], [d] seconds apart, comes while an
    entry written by the first, or one that served it, is still alive. *)
Definition within_ttl (t : string) (w : world) (d : nat) : Prop :=
  d < CACHE_TTL ∧
  ∀ payload expiry,
    entries w !! get_cache_key (strip t) = Some (payload, expiry) →
    clock w < expiry → clock w + d < expiry.

(** Two successive requests for [t]: the second is a cache hit with the
    vector of the first, and the provider was called at most once in all. *)
Definition resolved_once (t : string) (w : world) (d : nat) : Prop :=
  ∃ r1 w1 r2 w2,
    embed t w = (Ok r1, w1) ∧
    embed t (elapse d w1) = (Ok r2, w2) ∧
    cached r2 = Some true ∧
    embedding r2 = embedding r1 ∧
    length (provider_calls (trace w2)) ≤ S (length (provider_calls (trace w))).

(** A list of floats of the declared dimension. *)
Definition is_embedding (o : pyobj) : Prop :=
  ∃ v, o = PyList v ∧ length v = EMBEDDING_DIM.

(** Every payload in the store that deserializes gives [None] or an
    embedding: the state of a store that only this service writes to. *)
Definition store_sound (w : world) : Prop :=
  ∀ key payload expiry o,
    entries w !! key = Some (payload, expiry) →
    pickle_loads payload = Ok o →
    o = PyNone ∨ is_embedding o.

(** ** Health check (lines 154-161) *)

(** The returned dictionary. *)
Record health_report : Type := HealthReport {
  status : string;
  model : string;
  dim : nat
}.

Definition health : M health_report :=
  mret {| status := "healthy"; model := "BAAI/bge-m3"; dim := EMBEDDING_DIM |}.

(** An entry as [cache_embedding] writes it at time [now]. *)
Definition fresh_entry (now : nat) (x : list byte * nat) : Prop :=
  ∃ v, length v = EMBEDDING_DIM ∧ x = (pickle_dumps v, now + CACHE_TTL).

(** No entry that is alive in [w] expires within the next [d] seconds. *)
Definition stays_alive (w : world) (d : nat) : Prop :=
  ∀ key payload expiry,
    entries w !! key = Some (payload, expiry) →
    clock w < expiry → clock w + d < expiry.

(** Position [i] of a result holds a vector: a list of [EMBEDDING_DIM]
    floats. *)
Definition vector_at (res : list pyobj) (i : nat) : Prop :=
  ∃ o, res !! i = Some o ∧ is_embedding o.

(** ** Run lemmas *)

Lemma bind_run {A B} (m : M A) (f : A → M B) (w : world) :
  (m ≫= f) w =
  match m w with
  | (Ok a, w') => f a w'
  | (Raise e, w') => (Raise e, w')
  end.
Proof. reflexivity. Qed.

Lemma redis_roundtrip_run (e : event) (w : world) :
  redis_roundtrip e w =
  ((if next_fault w then Raise ConnectionError else Ok tt), after_roundtrip e w).
Proof. destruct w as [en c m now [|[] fs] a tr]; reflexivity. Qed.

Lemma redis_get_run (key : string) (w : world) :
  redis_get key w =
  ((if next_fault w then Raise ConnectionError else Ok (live_payload w key)),
   after_roundtrip (EvGet key) w).
Proof.
  unfold redis_get. rewrite bind_run, redis_roundtrip_run.
  destruct (next_fault w); [reflexivity|].
  unfold live_payload, mbind, M_bind, gets, mret, M_ret.
  change (entries (after_roundtrip (EvGet key) w)) with (entries w).
  change (clock (after_roundtrip (EvGet key) w)) with (clock w).
  destruct (entries w !! key) as [[payload expiry]|]; [|reflexivity].
  destruct (decide (clock w < expiry)); reflexivity.
Qed.

Lemma redis_setex_run (key : string) (ttl : nat) (payload : list byte) (w : world) :
  redis_setex key ttl payload w =
  if next_fault w then (Raise ConnectionError, after_roundtrip (EvSetex key ttl payload) w)
  else (Ok tt, set_entries (<[key := (payload, clock w + ttl)]> (entries w))
                 (after_roundtrip (EvSetex key ttl payload) w)).
Proof.
  unfold redis_setex. rewrite bind_run, redis_roundtrip_run.
  destruct (next_fault w); reflexivity.
Qed.

Lemma get_cached_embedding_run (text : string) (w : world) :
  get_cached_embedding text w = (Ok (read_value text w), after_read text w).
Proof.
  unfold get_cached_embedding, read_value, after_read, cache_on.
  rewrite bind_run. cbn [gets]. rewrite bind_run. cbn [gets].
  destruct (CACHE_ENABLED w); [|reflexivity].
  destruct (cache w); [|reflexivity]. cbn [negb orb andb cache_truthy].
  rewrite bind_run. unfold try_except. rewrite bind_run, redis_get_run.
  destruct (next_fault w); [reflexivity|].
  unfold stored_value.
  destruct (live_payload w (get_cache_key text)) as [payload|]; [|reflexivity].
  destruct (seq_truthy payload); [|reflexivity].
  destruct (pickle_loads payload); reflexivity.
Qed.

Lemma cache_embedding_run (text : string) (emb : list F) (w : world) :
  cache_embedding text emb w = (Ok tt, after_write text emb w).
Proof.
  unfold cache_embedding, after_write, cache_on.
  rewrite bind_run. cbn [gets]. rewrite bind_run. cbn [gets].
  destruct (CACHE_ENABLED w); [|reflexivity].
  destruct (cache w); [|reflexivity]. cbn [negb orb andb cache_truthy].
  unfold try_except. cbv zeta. rewrite redis_setex_run.
  destruct (next_fault w); reflexivity.
Qed.

Lemma model_encode_run (texts : list string) (bs ml : Z) (w : world) :
  model_encode texts bs ml w = (next_answer w, after_encode texts bs ml w).
Proof.
  destruct w as [en c m now fs [|[vectors|e] a] tr]; reflexivity.
Qed.


Lemma is_not_none_false (o : pyobj) : is_not_none o = false → o = PyNone.
Proof. destruct o; [reflexivity|discriminate..]. Qed.

Lemma is_not_none_true (o : pyobj) : is_not_none o = true ↔ o ≠ PyNone.
Proof. destruct o; cbn; split; congruence. Qed.

Lemma lookup_loop_run (ts : list string) :
  ∀ (n : nat) (res : list pyobj) (ttg : list string) (itg : list nat) (w : world),
    lookup_loop (zip (seq n (length ts)) ts) res ttg itg w =
    (Ok (res ++ reads ts w,
         ttg ++ miss_texts ts (reads ts w),
         itg ++ miss_indices n (reads ts w)),
     after_reads ts w).
Proof.
  induction ts as [|t ts IH]; intros n res ttg itg w.
  - cbn. by rewrite !app_nil_r.
  - cbn [length seq zip zip_with lookup_loop reads after_reads miss_texts miss_indices].
    rewrite bind_run, get_cached_embedding_run.
    destruct (is_not_none (read_value t w)) eqn:Hhit.
    + rewrite IH. by rewrite <- app_assoc.
    + rewrite IH. rewrite (is_not_none_false _ Hhit). by rewrite <- !app_assoc.
Qed.

Lemma merge_nil (rs : list pyobj) : merge rs [] = rs.
Proof.
  induction rs as [|r rs IH]; [reflexivity|]. cbn.
  destruct (is_not_none r) eqn:Hr; rewrite IH; [reflexivity|].
  by rewrite (is_not_none_false _ Hr).
Qed.

Lemma fill_loop_run (rs : list pyobj) :
  ∀ (ts : list string) (vectors : list (option (list F))) (n : nat)
    (filled : list pyobj) (seen : list string) (w : world),
    length filled = n → length seen = n → length ts = length rs →
    fill_loop (zip (miss_indices n rs) vectors) (seen ++ ts) (filled ++ rs) w =
    (Ok (filled ++ merge rs vectors), write_back ts rs vectors w).
Proof.
  induction rs as [|r rs IH]; intros ts vectors n filled seen w Hf Hs Hlen.
  - destruct ts; reflexivity.
  - destruct ts as [|t ts]; [discriminate|]. injection Hlen as Hlen.
    cbn [miss_indices merge write_back].
    destruct (is_not_none r) eqn:Hr.
    + rewrite (cons_middle r filled rs), (cons_middle t seen ts), !app_assoc.
      rewrite (IH ts vectors (S n) (filled ++ [r]) (seen ++ [t]) w);
        rewrite ?length_app; cbn; try lia.
      by rewrite <- app_assoc.
    + apply is_not_none_false in Hr as ->.
      destruct vectors as [|vec vectors].
      { cbn. by rewrite merge_nil. }
      cbn [zip zip_with fill_loop].
      assert (Hrest : ∀ (x : pyobj) (w' : world),
        fill_loop (zip (miss_indices (S n) rs) vectors) (seen ++ t :: ts)
          (filled ++ x :: rs) w' =
        (Ok (filled ++ x :: merge rs vectors), write_back ts rs vectors w')).
      { intros x w'.
        rewrite (cons_middle x filled rs), (cons_middle t seen ts), !app_assoc.
        rewrite (IH ts vectors (S n) (filled ++ [x]) (seen ++ [t]) w');
          rewrite ?length_app; cbn; try lia.
        by rewrite <- app_assoc. }
      unfold as_result, checked. destruct vec as [v|]; [|apply Hrest].
      destruct (length v =? EMBEDDING_DIM); [|apply Hrest].
      rewrite bind_run. unfold setitem.
      destruct (decide (n < length (filled ++ PyNone :: rs))) as [_|Hn].
      2:{ exfalso. apply Hn. rewrite length_app. cbn. lia. }
      cbn [mret M_ret]. rewrite bind_run. unfold getitem.
      replace ((seen ++ t :: ts) !! n) with (Some t)
        by (symmetry; apply list_lookup_middle; lia).
      cbn [mret M_ret]. rewrite bind_run, cache_embedding_run.
      replace (<[n:=PyList (tolist v)]> (filled ++ PyNone :: rs))
        with (filled ++ PyList (tolist v) :: rs).
      2:{ rewrite insert_app_r_alt by lia.
          by replace (n - length filled) with 0 by lia. }
      apply Hrest.
Qed.

Lemma after_reads_answers (ts : list string) (w : world) :
  answers (after_reads ts w) = answers w.
Proof.
  revert w. induction ts as [|t ts IH]; intros w; [reflexivity|].
  cbn. rewrite IH. unfold after_read. by destruct (cache_on w).
Qed.

Lemma reads_length (ts : list string) (w : world) :
  length (reads ts w) = length ts.
Proof. revert w. induction ts as [|t ts IH]; intros w; cbn; [|rewrite IH]; done. Qed.

Lemma embed_batch_run (data_texts : list string) (w : world) :
  embed_batch data_texts w = batch_outcome data_texts w.
Proof.
  unfold embed_batch, batch_outcome.
  destruct data_texts as [|t0 texts]; [reflexivity|].
  cbn [seq_truthy negb]. cbv zeta.
  set (cleaned := clean_text <$> t0 :: texts).
  rewrite bind_run. unfold enumerate.
  rewrite (lookup_loop_run cleaned 0 [] [] [] w). cbn [app].
  destruct (miss_texts cleaned (reads cleaned w)) as [|m misses] eqn:Hm;
    [reflexivity|].
  cbn [seq_truthy]. rewrite bind_run, model_encode_run.
  unfold next_answer at 1. rewrite after_reads_answers. fold (next_answer w).
  destruct (next_answer w) as [vectors|e]; [|reflexivity].
  apply (fill_loop_run (reads cleaned w) cleaned vectors 0 [] []); try reflexivity.
  by rewrite reads_length.
Qed.


(** ** The three ways a batch ends *)

Lemma embed_batch_all_hits (data_texts : list string) (w : world) :
  to_generate data_texts w = [] →
  embed_batch data_texts w =
  (Ok (reads (clean_text <$> data_texts) w),
   after_reads (clean_text <$> data_texts) w).
Proof.
  intros Hm. rewrite embed_batch_run. unfold batch_outcome.
  destruct data_texts as [|t0 texts]; [reflexivity|].
  cbv zeta. unfold to_generate in Hm. by rewrite Hm.
Qed.

Lemma embed_batch_answered (data_texts : list string) (w : world)
    (vectors : list (option (list F))) :
  to_generate data_texts w ≠ [] →
  next_answer w = Ok vectors →
  embed_batch data_texts w =
  (Ok (merge (reads (clean_text <$> data_texts) w) vectors),
   write_back (clean_text <$> data_texts) (reads (clean_text <$> data_texts) w)
     vectors
     (after_encode (to_generate data_texts w) 12 8192
        (after_reads (clean_text <$> data_texts) w))).
Proof.
  intros Hm Ha. rewrite embed_batch_run. unfold batch_outcome.
  destruct data_texts as [|t0 texts]; [done|].
  cbv zeta. unfold to_generate in *.
  destruct (miss_texts _ _); [done|]. by rewrite Ha.
Qed.

Lemma embed_batch_provider_failed (data_texts : list string) (w : world) (e : exn) :
  to_generate data_texts w ≠ [] →
  next_answer w = Raise e →
  embed_batch data_texts w =
  (Raise e,
   after_encode (to_generate data_texts w) 12 8192
     (after_reads (clean_text <$> data_texts) w)).
Proof.
  intros Hm Ha. rewrite embed_batch_run. unfold batch_outcome.
  destruct data_texts as [|t0 texts]; [done|].
  cbv zeta. unfold to_generate in *.
  destruct (miss_texts _ _); [done|]. by rewrite Ha.
Qed.

(** ** Reconciliation, position by position *)

Lemma miss_indices_length (rs : list pyobj) (n m : nat) :
  length (miss_indices n rs) = length (miss_indices m rs).
Proof.
  revert n m. induction rs as [|r rs IH]; intros n m; [reflexivity|].
  cbn. destruct (is_not_none r); cbn; by rewrite (IH (S n) (S m)).
Qed.

Lemma miss_texts_length (ts : list string) (rs : list pyobj) :
  length ts = length rs →
  length (miss_texts ts rs) = length (miss_indices 0 rs).
Proof.
  revert ts. induction rs as [|r rs IH]; intros [|t ts] Hlen; try done.
  injection Hlen as Hlen. cbn.
  destruct (is_not_none r); cbn; rewrite (miss_indices_length rs 1 0); auto.
Qed.

Lemma miss_rank_0 (rs : list pyobj) : miss_rank rs 0 = 0.
Proof. unfold miss_rank. by rewrite take_0. Qed.

Lemma miss_rank_S (r : pyobj) (rs : list pyobj) (i : nat) :
  miss_rank (r :: rs) (S i) =
  (if is_not_none r then 0 else 1) + miss_rank rs i.
Proof.
  unfold miss_rank. cbn.
  destruct (is_not_none r); cbn; by rewrite (miss_indices_length _ 1 0).
Qed.

Lemma merge_length (rs : list pyobj) (vectors : list (option (list F))) :
  length (merge rs vectors) = length rs.
Proof.
  revert vectors. induction rs as [|r rs IH]; intros vectors; [reflexivity|].
  cbn. destruct (is_not_none r); [cbn; by rewrite IH|].
  destruct vectors; cbn; by rewrite IH.
Qed.

Lemma merge_lookup (rs : list pyobj) :
  ∀ (vectors : list (option (list F))) (i : nat) (r : pyobj),
    rs !! i = Some r →
    merge rs vectors !! i =
    Some (if is_not_none r then r
          else match vectors !! miss_rank rs i with
               | Some vec => as_result vec
               | None => PyNone
               end).
Proof.
  induction rs as [|r0 rs IH]; intros vectors i r Hi; [done|].
  destruct i as [|i].
  - injection Hi as ->. rewrite miss_rank_0. cbn.
    destruct (is_not_none r); [reflexivity|]. by destruct vectors.
  - cbn in Hi. rewrite miss_rank_S. cbn [merge].
    destruct (is_not_none r0); cbn [Nat.add].
    + cbn. by apply IH.
    + destruct vectors as [|vec vectors]; cbn.
      * specialize (IH [] i r Hi). rewrite lookup_nil in IH. exact IH.
      * by apply IH.
Qed.

Lemma merge_all_hits (ts : list string) (rs : list pyobj)
    (vectors : list (option (list F))) :
  length ts = length rs → miss_texts ts rs = [] → merge rs vectors = rs.
Proof.
  revert ts. induction rs as [|r rs IH]; intros [|t ts] Hlen Hm; try done.
  injection Hlen as Hlen. cbn in *.
  destruct (is_not_none r); [|done]. by rewrite (IH ts).
Qed.

(** Whenever the provider answers (or need not be asked), the batch returns
    the reconciliation of the lookups with the provider's answer. *)
Lemma embed_batch_result (data_texts : list string) (w : world)
    (vectors : list (option (list F))) :
  (to_generate data_texts w ≠ [] → next_answer w = Ok vectors) →
  ∃ w', embed_batch data_texts w =
        (Ok (merge (reads (clean_text <$> data_texts) w) vectors), w').
Proof.
  intros Ha.
  destruct (to_generate data_texts w) as [|m ms] eqn:Hm.
  - rewrite (embed_batch_all_hits _ _ Hm). eexists.
    rewrite (merge_all_hits (clean_text <$> data_texts)); [done| |done].
    by rewrite reads_length.
  - rewrite (embed_batch_answered data_texts w vectors); [by eexists| |].
    + by rewrite Hm.
    + by apply Ha.
Qed.

Lemma as_result_present (vec : option (list F)) :
  as_result vec ≠ PyNone ↔ ∃ v, vec = Some v ∧ length v = EMBEDDING_DIM.
Proof.
  unfold as_result, checked. destruct vec as [v|].
  - destruct (length v =? EMBEDDING_DIM) eqn:Hv.
    + apply Nat.eqb_eq in Hv. split; [eauto|done].
    + apply Nat.eqb_neq in Hv. split; [done|]. intros (v' & [= <-] & ?). done.
  - split; [done|]. by intros (v' & ? & ?).
Qed.

Lemma as_result_valid (v : list F) :
  length v = EMBEDDING_DIM → as_result (Some v) = PyList v.
Proof.
  intros Hv. unfold as_result, checked, tolist.
  apply Nat.eqb_eq in Hv. by rewrite Hv.
Qed.

(** ** Presence, position by position *)

(** Whenever the provider answers the one call a batch may make,
    [embed_batch] returns a sequence as long as its input, and position [i]
    of it holds something other than [None] exactly when the lookup at [i]
    was a cache hit or the provider returned a vector of the right dimension
    for the miss recorded at [i]. *)
Lemma embed_batch_index_aligned (data_texts : list string) (w : world)
    (vectors : list (option (list F))) :
  (to_generate data_texts w ≠ [] → next_answer w = Ok vectors) →
  ∃ res w',
    embed_batch data_texts w = (Ok res, w') ∧
    length res = length data_texts ∧
    ∀ i, i < length data_texts →
      present_at res i ↔
      hit_at data_texts w i ∨ provider_valid_at data_texts w vectors i.
Proof.
  intros Ha. destruct (embed_batch_result data_texts w vectors Ha) as [w' Hrun].
  eexists _, w'. split; [exact Hrun|]. split.
  { by rewrite merge_length, reads_length, length_fmap. }
  intros i Hi. unfold hit_at, provider_valid_at, present_at. cbv zeta.
  set (rs := reads (clean_text <$> data_texts) w).
  assert (is_Some (rs !! i)) as [r Hr].
  { apply lookup_lt_is_Some. unfold rs. by rewrite reads_length, length_fmap. }
  rewrite (merge_lookup rs vectors i r Hr), Hr.
  destruct (is_not_none r) eqn:Hhit.
  - apply is_not_none_true in Hhit. split; [|eauto]. intros _. left. eauto.
  - apply is_not_none_false in Hhit as ->. split.
    + intros (o & [= <-] & Ho). right. split; [done|].
      destruct (vectors !! miss_rank rs i) as [vec|]; [|done].
      apply as_result_present in Ho as (v & -> & Hv). eauto.
    + intros [(o & [= <-] & Ho)|(_ & v & Hv & Hdim)]; [done|].
      rewrite Hv. eexists. split; [done|]. apply as_result_present. eauto.
Qed.


(** ** Traces *)

Lemma after_read_trace (t : string) (w : world) :
  trace (after_read t w) =
  trace w ++ (if cache_on w then [EvGet (get_cache_key t)] else []).
Proof. unfold after_read. destruct (cache_on w); cbn; by rewrite ?app_nil_r. Qed.

Lemma after_read_cache_on (t : string) (w : world) :
  cache_on (after_read t w) = cache_on w.
Proof. unfold after_read. by destruct (cache_on w) eqn:H. Qed.

Lemma after_reads_trace (ts : list string) (w : world) :
  trace (after_reads ts w) =
  trace w ++ (if cache_on w then EvGet ∘ get_cache_key <$> ts else []).
Proof.
  revert w. induction ts as [|t ts IH]; intros w.
  - cbn. destruct (cache_on w); by rewrite app_nil_r.
  - cbn [after_reads]. rewrite IH, after_read_cache_on, after_read_trace.
    destruct (cache_on w); by rewrite <- app_assoc.
Qed.

Lemma after_reads_cache_on (ts : list string) (w : world) :
  cache_on (after_reads ts w) = cache_on w.
Proof.
  revert w. induction ts as [|t ts IH]; intros w; [done|].
  cbn. by rewrite IH, after_read_cache_on.
Qed.

Lemma after_write_trace (t : string) (emb : list F) (w : world) :
  trace (after_write t emb w) =
  trace w ++ (if cache_on w then [setex_event (t, emb)] else []).
Proof.
  unfold after_write. destruct (cache_on w); cbn; [|by rewrite app_nil_r].
  by destruct (next_fault w).
Qed.

Lemma after_write_cache_on (t : string) (emb : list F) (w : world) :
  cache_on (after_write t emb w) = cache_on w.
Proof.
  unfold after_write. destruct (cache_on w) eqn:H; [|done].
  by destruct (next_fault w).
Qed.

Lemma write_back_trace (ts : list string) :
  ∀ (rs : list pyobj) (vectors : list (option (list F))) (w : world),
    trace (write_back ts rs vectors w) =
    trace w ++ (if cache_on w then setex_event <$> written ts rs vectors else []).
Proof.
  assert (Hnil : ∀ w : world,
    trace w = trace w ++ (if cache_on w then setex_event <$> [] else [])).
  { intros w. destruct (cache_on w); by rewrite app_nil_r. }
  induction ts as [|t ts IH]; intros rs vectors w; [apply Hnil|].
  destruct rs as [|r rs]; [apply Hnil|]. cbn [write_back written].
  destruct (is_not_none r); [apply IH|].
  destruct vectors as [|vec vectors]; [apply Hnil|].
  rewrite IH. destruct (checked vec) as [emb|]; [|done].
  rewrite after_write_cache_on, after_write_trace.
  destruct (cache_on w); by rewrite <- app_assoc.
Qed.

Lemma provider_calls_app (tr1 tr2 : list event) :
  provider_calls (tr1 ++ tr2) = provider_calls tr1 ++ provider_calls tr2.
Proof. apply bind_app. Qed.

Lemma provider_calls_gets (f : string → string) (ts : list string) :
  provider_calls (EvGet ∘ f <$> ts) = [].
Proof. induction ts as [|t ts IH]; [done|]. exact IH. Qed.

Lemma provider_calls_setex (ps : list (string * list F)) :
  provider_calls (setex_event <$> ps) = [].
Proof. induction ps as [|p ps IH]; [done|]. exact IH. Qed.

Lemma after_reads_provider_calls (ts : list string) (w : world) :
  provider_calls (trace (after_reads ts w)) = provider_calls (trace w).
Proof.
  rewrite after_reads_trace, provider_calls_app.
  destruct (cache_on w); [rewrite provider_calls_gets|]; by rewrite app_nil_r.
Qed.

Lemma write_back_provider_calls (ts : list string) (rs : list pyobj)
    (vectors : list (option (list F))) (w : world) :
  provider_calls (trace (write_back ts rs vectors w)) = provider_calls (trace w).
Proof.
  rewrite write_back_trace, provider_calls_app.
  destruct (cache_on w); [rewrite provider_calls_setex|]; by rewrite app_nil_r.
Qed.

Lemma after_encode_provider_calls (ts : list string) (bs ml : Z) (w : world) :
  provider_calls (trace (after_encode ts bs ml w)) = provider_calls (trace w) ++ [ts].
Proof. cbn. by rewrite provider_calls_app. Qed.

(** ** C2 *)

(** C2: one invocation of [embed_batch] adds to the provider's call history
    exactly one call, carrying the cache-miss texts in to-generate order, when
    at least one lookup missed, and no call at all when every position was
    served from the cache (or the input was empty). *)
Theorem embed_batch_single_provider_call (data_texts : list string) (w : world) :
  provider_calls (trace (embed_batch data_texts w).2) =
  provider_calls (trace w) ++
  match to_generate data_texts w with
  | [] => []
  | (_ :: _) as misses => [misses]
  end.
Proof.
  rewrite embed_batch_run. unfold batch_outcome, to_generate.
  destruct data_texts as [|t0 texts]; [by rewrite app_nil_r|]. cbv zeta.
  destruct (miss_texts _ _) as [|m ms].
  - cbn [snd]. by rewrite after_reads_provider_calls, app_nil_r.
  - destruct (next_answer w) as [vectors|e]; cbn [snd].
    + by rewrite write_back_provider_calls, after_encode_provider_calls,
        after_reads_provider_calls.
    + by rewrite after_encode_provider_calls, after_reads_provider_calls.
Qed.

(** ** Normalisation *)

Lemma lstrip_cases (s : string) :
  (lstrip s = "" ∧ blank s = true) ∨
  (∃ c r, lstrip s = String c r ∧ isspace c = false ∧ blank s = false).
Proof.
  induction s as [|c s IH]; [by left|]. cbn.
  destruct (isspace c) eqn:Hc; [exact IH|]. right. eauto.
Qed.

Lemma rstrip_keeps_head (c : ascii) (r : string) :
  isspace c = false → rstrip (String c r) ≠ "".
Proof. intros Hc. cbn. rewrite Hc. by destruct (rstrip r). Qed.

Lemma strip_blank (s : string) : strip s = "" ↔ blank s = true.
Proof.
  unfold strip. destruct (lstrip_cases s) as [[-> ->]|(c & r & -> & Hc & ->)].
  - done.
  - split; [|done]. intros H. by apply rstrip_keeps_head in H.
Qed.

Lemma clean_text_blank (t : string) : blank t = true → clean_text t = " ".
Proof. intros H. apply strip_blank in H. unfold clean_text. by rewrite H. Qed.

Lemma clean_text_same_or_blank (t t' : string) :
  same_or_blank t t' → clean_text t' = clean_text t.
Proof. intros [->|[H ->]]; [done|]. by rewrite (clean_text_blank t H). Qed.

(** Replacing any empty or whitespace-only texts of a batch by a single
    space changes nothing about the run of [embed_batch] - not the result
    sequence, not the lookups and provider call made, not the world left
    behind. *)
Lemma embed_batch_blank_as_space (texts texts' : list string) (w : world) :
  Forall2 same_or_blank texts texts' →
  embed_batch texts w = embed_batch texts' w.
Proof.
  intros H.
  assert (Hclean : clean_text <$> texts = clean_text <$> texts').
  { induction H as [|t t' ts ts' Ht _ IH]; [done|].
    cbn. by rewrite IH, (clean_text_same_or_blank t t' Ht). }
  unfold embed_batch. rewrite Hclean. by destruct H.
Qed.

(** ** C4 *)

(** C4: for a single text that is empty or whitespace-only, [embed] returns
    the null embedding at once and leaves the world as it was: no command is
    sent to the cache or to the provider, and nothing is raised. *)
Theorem embed_blank_short_circuit (data_text : string) (w : world) :
  blank data_text = true →
  embed data_text w = (Ok (Response PyNone None), w).
Proof.
  intros H. apply strip_blank in H. unfold embed.
  destruct data_text as [|c s]; [done|]. cbn [str_truthy]. by rewrite H.
Qed.


(** ** C6 *)

(** C6: the cache adapter is total.  [get_cached_embedding] never raises,
    and returns [None] whenever the adapter is disabled, the server cannot be
    reached, the key is absent, or the stored payload fails to deserialize.
    [cache_embedding] never raises either: when the adapter is disabled it
    leaves the world untouched, and when the write fails it leaves the store
    as it was. *)
Theorem cache_adapter_total (text : string) (emb : list F) (w : world) :
  (∃ o w', get_cached_embedding text w = (Ok o, w')) ∧
  (get_blocked text w → (get_cached_embedding text w).1 = Ok PyNone) ∧
  (∃ w', cache_embedding text emb w = (Ok tt, w') ∧
         (CACHE_ENABLED w = false → w' = w) ∧
         (next_fault w = true → entries w' = entries w)).
Proof.
  rewrite get_cached_embedding_run, cache_embedding_run. split; [eauto|]. split.
  - intros Hb. cbn [fst]. f_equal. unfold read_value.
    destruct (cache_on w) eqn:Hon; [|done].
    destruct (next_fault w) eqn:Hf; [done|].
    unfold stored_value, live_payload.
    destruct Hb as [Hb|[Hb|[Hb|(payload & expiry & e & Hb & He)]]].
    + unfold cache_on in Hon. by rewrite Hb in Hon.
    + congruence.
    + by rewrite Hb.
    + rewrite Hb. destruct (decide (clock w < expiry)); [|done].
      destruct (seq_truthy payload); [|done]. by rewrite He.
  - eexists. split; [done|]. unfold after_write, cache_on. split.
    + by intros ->.
    + intros ->. by destruct (_ && _).
Qed.


(** ** A disabled adapter *)

Lemma startup_probe_failed (redis_host : string) (redis_port : Z) (w : world) :
  next_fault w = true →
  CACHE_ENABLED (startup redis_host redis_port w).2 = false ∧
  cache (startup redis_host redis_port w).2 = None.
Proof.
  intros Hf. unfold startup, try_except, redis_ping.
  rewrite bind_run. cbn [modify]. rewrite bind_run, redis_roundtrip_run.
  unfold next_fault in *. cbn [set_cache faults]. by rewrite Hf.
Qed.

Lemma startup_probe_passed (redis_host : string) (redis_port : Z) (w : world) :
  next_fault w = false →
  cache_on (startup redis_host redis_port w).2 = true.
Proof.
  intros Hf. unfold startup, try_except, redis_ping.
  rewrite bind_run. cbn [modify]. rewrite bind_run, redis_roundtrip_run.
  unfold next_fault in *. cbn [set_cache faults]. by rewrite Hf.
Qed.

Lemma reads_disabled (ts : list string) (w : world) :
  cache_on w = false →
  reads ts w = replicate (length ts) PyNone ∧ after_reads ts w = w.
Proof.
  intros Hoff. induction ts as [|t ts [IH1 IH2]]; [done|].
  cbn. unfold read_value, after_read. rewrite Hoff. by rewrite IH1, IH2.
Qed.

Lemma miss_texts_all (ts : list string) :
  miss_texts ts (replicate (length ts) (@PyNone F)) = ts.
Proof. induction ts as [|t ts IH]; [done|]. cbn. by rewrite IH. Qed.

Lemma write_back_disabled (ts : list string) :
  ∀ (rs : list pyobj) (vectors : list (option (list F))) (w : world),
    cache_on w = false → write_back ts rs vectors w = w.
Proof.
  induction ts as [|t ts IH]; intros rs vectors w Hoff; [done|].
  destruct rs as [|r rs]; [done|]. cbn.
  destruct (is_not_none r); [by apply IH|].
  destruct vectors as [|vec vectors]; [done|].
  destruct (checked vec) as [emb|]; [|by apply IH].
  rewrite IH; unfold after_write; by rewrite Hoff.
Qed.

Lemma as_result_usable (vec : option (list F)) : as_result vec = usable (Some vec).
Proof.
  unfold as_result, checked, usable, tolist. destruct vec as [v|]; [|done].
  destruct (decide (length v = EMBEDDING_DIM)) as [Hv|Hv].
  - apply Nat.eqb_eq in Hv. by rewrite Hv.
  - apply Nat.eqb_neq in Hv. by rewrite Hv.
Qed.

Lemma merge_all_miss (n : nat) :
  ∀ vectors : list (option (list F)),
    merge (replicate n PyNone) vectors = (λ i, usable (vectors !! i)) <$> seq 0 n.
Proof.
  induction n as [|n IH]; intros vectors; [done|].
  cbn [replicate merge is_not_none seq fmap list_fmap].
  rewrite <- fmap_S_seq, <- list_fmap_compose.
  destruct vectors as [|vec vectors].
  - rewrite IH. by rewrite lookup_nil.
  - rewrite IH, as_result_usable. done.
Qed.

(** ** C8 *)

(** C8: when the connectivity probe fails at start-up the adapter is
    disabled, and in every later world of that process [embed_batch] runs
    exactly as the provider-only computation over the normalized texts does:
    the same result sequence (or the same provider failure) and the same
    world afterwards. *)
Theorem embed_batch_without_cache (redis_host : string) (redis_port : Z)
    (w0 w : world) (data_texts : list string) :
  next_fault w0 = true →
  CACHE_ENABLED w = CACHE_ENABLED (startup redis_host redis_port w0).2 →
  embed_batch data_texts w = spec_provider_only (clean_text <$> data_texts) w.
Proof.
  intros Hprobe Hsame.
  destruct (startup_probe_failed redis_host redis_port w0 Hprobe) as [Hen _].
  rewrite Hen in Hsame.
  assert (Hoff : cache_on w = false) by (unfold cache_on; by rewrite Hsame).
  rewrite embed_batch_run. unfold batch_outcome.
  destruct data_texts as [|t0 texts]; [done|]. cbv zeta.
  remember (clean_text <$> t0 :: texts) as cleaned eqn:Hc.
  destruct (reads_disabled cleaned w Hoff) as [-> ->].
  rewrite miss_texts_all. unfold spec_provider_only.
  destruct cleaned as [|c cs]; [done|].
  rewrite bind_run, model_encode_run.
  destruct (next_answer w) as [vectors|e]; [|done].
  rewrite write_back_disabled by done. by rewrite merge_all_miss.
Qed.


(** ** The provider's answer does not influence the lookups *)

Lemma reads_set_answers (ts : list string) :
  ∀ (a : list (result (list (option (list F))))) (w : world),
    reads ts (set_answers a w) = reads ts w ∧
    after_reads ts (set_answers a w) = set_answers a (after_reads ts w).
Proof.
  induction ts as [|t ts IH]; intros a w; [done|]. cbn [reads after_reads].
  assert (Hw : after_read t (set_answers a w) = set_answers a (after_read t w)).
  { unfold after_read. change (cache_on (set_answers a w)) with (cache_on w).
    by destruct (cache_on w). }
  rewrite Hw. destruct (IH a (after_read t w)) as [-> ->]. done.
Qed.

Lemma to_generate_set_answers (data_texts : list string)
    (a : list (result (list (option (list F))))) (w : world) :
  to_generate data_texts (set_answers a w) = to_generate data_texts w.
Proof. unfold to_generate. by rewrite (proj1 (reads_set_answers _ a w)). Qed.

Lemma after_encode_set_answers (ms : list string) (bs ml : Z)
    (r : result (list (option (list F)))) (w : world) :
  after_encode ms bs ml (set_answers (r :: tail (answers w)) w) =
  after_encode ms bs ml w.
Proof. reflexivity. Qed.

Lemma after_reads_set_answers_tail (ts : list string)
    (r : result (list (option (list F)))) (w : world) :
  after_reads ts (set_answers (r :: tail (answers w)) w) =
  set_answers (r :: tail (answers (after_reads ts w))) (after_reads ts w).
Proof. rewrite (proj2 (reads_set_answers ts _ w)). by rewrite after_reads_answers. Qed.

(** ** Surplus vectors *)

Lemma merge_take (rs : list pyobj) :
  ∀ (vectors : list (option (list F))) (m : nat),
    length (miss_indices 0 rs) ≤ m → merge rs (take m vectors) = merge rs vectors.
Proof.
  induction rs as [|r rs IH]; intros vectors m Hm; [done|]. cbn in *.
  destruct (is_not_none r).
  - rewrite IH; [done|]. by rewrite (miss_indices_length rs 0 1).
  - cbn in Hm. rewrite (miss_indices_length rs 1 0) in Hm.
    destruct m as [|m]; [lia|]. destruct vectors as [|vec vectors]; [done|].
    cbn. rewrite IH; [done|lia].
Qed.

Lemma write_back_take (ts : list string) :
  ∀ (rs : list pyobj) (vectors : list (option (list F))) (m : nat) (w : world),
    length (miss_indices 0 rs) ≤ m →
    write_back ts rs (take m vectors) w = write_back ts rs vectors w.
Proof.
  induction ts as [|t ts IH]; intros rs vectors m w Hm; [done|].
  destruct rs as [|r rs]; [done|]. cbn in *.
  destruct (is_not_none r).
  - rewrite IH; [done|]. by rewrite (miss_indices_length rs 0 1).
  - cbn in Hm. rewrite (miss_indices_length rs 1 0) in Hm.
    destruct m as [|m]; [lia|]. destruct vectors as [|vec vectors]; [done|].
    cbn. rewrite IH; [done|lia].
Qed.

(** ** C10 *)

(** C10: whatever the length of the sequence the provider returns,
    [embed_batch] raises nothing.  The k-th miss takes the k-th returned
    vector when there is one; a miss beyond the end of the returned sequence
    keeps [None]; and vectors beyond the number of misses are ignored: with
    the answer cut down to that number the batch returns the same result and
    leaves the same store and the same trace. *)
Theorem embed_batch_length_mismatch (data_texts : list string) (w : world)
    (vectors : list (option (list F))) :
  next_answer w = Ok vectors →
  let rs := reads (clean_text <$> data_texts) w in
  let w_cut :=
    set_answers
      (Ok (take (length (to_generate data_texts w)) vectors) :: tail (answers w))
      w in
  ∃ res w' w'',
    embed_batch data_texts w = (Ok res, w') ∧
    (∀ i, rs !! i = Some PyNone →
       res !! i = Some (match vectors !! miss_rank rs i with
                        | Some vec => as_result vec
                        | None => PyNone
                        end)) ∧
    (∀ i, rs !! i = Some PyNone → length vectors ≤ miss_rank rs i →
       res !! i = Some PyNone) ∧
    embed_batch data_texts w_cut = (Ok res, w'') ∧
    entries w'' = entries w' ∧ trace w'' = trace w'.
Proof.
  intros Ha rs w_cut.
  assert (Hpoint : ∀ i, rs !! i = Some PyNone →
    merge rs vectors !! i = Some (match vectors !! miss_rank rs i with
                                  | Some vec => as_result vec
                                  | None => PyNone
                                  end)).
  { intros i Hi. by rewrite (merge_lookup rs vectors i PyNone Hi). }
  assert (Hshort : ∀ i, rs !! i = Some PyNone → length vectors ≤ miss_rank rs i →
    merge rs vectors !! i = Some PyNone).
  { intros i Hi Hlen. rewrite (Hpoint i Hi).
    by rewrite (lookup_ge_None_2 vectors _ Hlen). }
  assert (Hcount : length (miss_indices 0 rs) ≤ length (to_generate data_texts w)).
  { unfold to_generate. rewrite miss_texts_length; [done|].
    by rewrite reads_length. }
  assert (Hgen : to_generate data_texts w_cut = to_generate data_texts w)
    by apply to_generate_set_answers.
  assert (Hrs : reads (clean_text <$> data_texts) w_cut = rs)
    by apply reads_set_answers.
  destruct (to_generate data_texts w) as [|m ms] eqn:Hm.
  - assert (Hres : merge rs vectors = rs).
    { apply (merge_all_hits (clean_text <$> data_texts)); [|done].
      unfold rs. by rewrite reads_length. }
    rewrite Hres in Hpoint, Hshort.
    exists rs, (after_reads (clean_text <$> data_texts) w),
      (after_reads (clean_text <$> data_texts) w_cut).
    split; [by apply embed_batch_all_hits|]. split; [done|]. split; [done|].
    split; [by rewrite (embed_batch_all_hits _ _ Hgen), Hrs|].
    unfold w_cut. by rewrite (proj2 (reads_set_answers _ _ w)).
  - eexists (merge rs vectors), _, _.
    split; [apply embed_batch_answered; [by rewrite Hm|done]|].
    split; [done|]. split; [done|].
    rewrite (embed_batch_answered data_texts w_cut
               (take (length (m :: ms)) vectors)); [|by rewrite Hgen|done].
    rewrite Hrs, Hgen, Hm, merge_take, write_back_take by done.
    unfold w_cut. rewrite after_reads_set_answers_tail, after_encode_set_answers.
    done.
Qed.


(** ** What gets written to the cache *)

Lemma checked_length (vec : option (list F)) (emb : list F) :
  checked vec = Some emb → length emb = EMBEDDING_DIM.
Proof.
  unfold checked, tolist. destruct vec as [v|]; [|done].
  destruct (length v =? EMBEDDING_DIM) eqn:Hv; [|done].
  intros [= <-]. by apply Nat.eqb_eq.
Qed.

Lemma written_valid (ts : list string) :
  ∀ (rs : list pyobj) (vectors : list (option (list F))),
    Forall (λ p, length p.2 = EMBEDDING_DIM) (written ts rs vectors).
Proof.
  induction ts as [|t ts IH]; intros rs vectors; [constructor|].
  destruct rs as [|r rs]; [constructor|]. cbn.
  destruct (is_not_none r); [apply IH|].
  destruct vectors as [|vec vectors]; [constructor|].
  destruct (checked vec) as [emb|] eqn:Hc; [|apply IH].
  constructor; [|apply IH]. by apply checked_length in Hc.
Qed.

Lemma cache_writes_app (tr1 tr2 : list event) :
  cache_writes (tr1 ++ tr2) = cache_writes tr1 ++ cache_writes tr2.
Proof. apply bind_app. Qed.

Lemma cache_writes_gets (f : string → string) (ts : list string) :
  cache_writes (EvGet ∘ f <$> ts) = [].
Proof. induction ts as [|t ts IH]; [done|]. exact IH. Qed.

Lemma cache_writes_setex (ps : list (string * list F)) :
  cache_writes (setex_event <$> ps) =
  (λ p, (get_cache_key p.1, pickle_dumps p.2)) <$> ps.
Proof.
  induction ps as [|p ps IH]; [done|].
  cbn [fmap list_fmap]. rewrite <- IH. done.
Qed.

Lemma after_reads_cache_writes (ts : list string) (w : world) :
  cache_writes (trace (after_reads ts w)) = cache_writes (trace w).
Proof.
  rewrite after_reads_trace, cache_writes_app.
  destruct (cache_on w); [rewrite cache_writes_gets|]; by rewrite app_nil_r.
Qed.

Lemma after_encode_cache_writes (ts : list string) (bs ml : Z) (w : world) :
  cache_writes (trace (after_encode ts bs ml w)) = cache_writes (trace w).
Proof. cbn. by rewrite cache_writes_app, app_nil_r. Qed.

Lemma write_back_cache_writes (ts : list string) (rs : list pyobj)
    (vectors : list (option (list F))) (w : world) :
  cache_writes (trace (write_back ts rs vectors w)) =
  cache_writes (trace w) ++
  (if cache_on w
   then (λ p, (get_cache_key p.1, pickle_dumps p.2)) <$> written ts rs vectors
   else []).
Proof.
  rewrite write_back_trace, cache_writes_app.
  destruct (cache_on w); [by rewrite cache_writes_setex|done].
Qed.

Lemma after_reads_entries (ts : list string) (w : world) :
  entries (after_reads ts w) = entries w ∧ clock (after_reads ts w) = clock w.
Proof.
  revert w. induction ts as [|t ts IH]; intros w; [done|].
  cbn. destruct (IH (after_read t w)) as [-> ->].
  unfold after_read. by destruct (cache_on w).
Qed.

Lemma after_write_entries (t : string) (emb : list F) (w : world)
    (key : string) (x : list byte * nat) :
  entries (after_write t emb w) !! key = Some x →
  entries w !! key = Some x ∨ x.1 = pickle_dumps emb.
Proof.
  unfold after_write. destruct (cache_on w); [|by left].
  destruct (next_fault w); [by left|]. cbn [entries set_entries].
  rewrite lookup_insert. case_decide; [|by left].
  intros [= <-]. by right.
Qed.

Lemma write_back_entries (ts : list string) :
  ∀ (rs : list pyobj) (vectors : list (option (list F))) (w : world)
    (key : string) (x : list byte * nat),
    entries (write_back ts rs vectors w) !! key = Some x →
    entries w !! key = Some x ∨
    ∃ v, length v = EMBEDDING_DIM ∧ x.1 = pickle_dumps v.
Proof.
  induction ts as [|t ts IH]; intros rs vectors w key x Hx; [by left|].
  destruct rs as [|r rs]; [by left|]. cbn in Hx.
  destruct (is_not_none r); [by apply (IH rs vectors)|].
  destruct vectors as [|vec vectors]; [by left|].
  apply IH in Hx as [Hx|Hx]; [|by right].
  destruct (checked vec) as [emb|] eqn:Hc; [|by left].
  apply after_write_entries in Hx as [Hx|Hx]; [by left|].
  right. exists emb. split; [by apply checked_length in Hc|done].
Qed.

(** ** Misses keep their order *)

Lemma miss_rank_lt (rs : list pyobj) :
  ∀ i j, i < j → rs !! i = Some PyNone → miss_rank rs i < miss_rank rs j.
Proof.
  induction rs as [|r rs IH]; intros i j Hij Hi; [done|].
  destruct j as [|j]; [lia|]. destruct i as [|i].
  - injection Hi as ->. rewrite miss_rank_0, miss_rank_S. cbn. lia.
  - rewrite !miss_rank_S. cbn in Hi. specialize (IH i j ltac:(lia) Hi). lia.
Qed.

Lemma miss_rank_inj (rs : list pyobj) (i j : nat) :
  rs !! i = Some PyNone → rs !! j = Some PyNone → i ≠ j →
  miss_rank rs i ≠ miss_rank rs j.
Proof.
  intros Hi Hj Hij. destruct (decide (i < j)) as [Hlt|Hge].
  - pose proof (miss_rank_lt rs i j Hlt Hi). lia.
  - assert (Hlt : j < i) by lia. pose proof (miss_rank_lt rs j i Hlt Hj). lia.
Qed.

Lemma miss_texts_nonempty (ts : list string) (rs : list pyobj) (i : nat) :
  length ts = length rs → rs !! i = Some PyNone → miss_texts ts rs ≠ [].
Proof.
  revert ts i. induction rs as [|r rs IH]; intros [|t ts] i Hlen Hi; try done.
  injection Hlen as Hlen. cbn. destruct i as [|i].
  - by injection Hi as ->.
  - destruct (is_not_none r); [by apply (IH ts i)|done].
Qed.

Lemma as_result_absent (vec : option (list F)) :
  (∀ v, vec = Some v → length v ≠ EMBEDDING_DIM) → as_result vec = PyNone.
Proof.
  intros Hbad. unfold as_result, checked. destruct vec as [v|]; [|done].
  destruct (length v =? EMBEDDING_DIM) eqn:Hv; [|done].
  apply Nat.eqb_eq in Hv. by destruct (Hbad v).
Qed.

(** ** C5 *)

(** C5: when the provider's answer has no vector, or a vector whose length
    is not [EMBEDDING_DIM], at the place of the miss recorded at position
    [i], [embed_batch] still returns normally with [None] at position [i];
    every cache write it makes, and every store entry it leaves that was not
    there before, carries a vector of length [EMBEDDING_DIM]; and the result
    at every other position is the same whatever the provider put at that
    place. *)
Theorem embed_batch_invalid_vector (data_texts : list string) (w : world)
    (vectors : list (option (list F))) (i : nat) :
  next_answer w = Ok vectors →
  let rs := reads (clean_text <$> data_texts) w in
  rs !! i = Some PyNone →
  (∀ v, vectors !! miss_rank rs i = Some (Some v) → length v ≠ EMBEDDING_DIM) →
  ∃ res w',
    embed_batch data_texts w = (Ok res, w') ∧
    res !! i = Some PyNone ∧
    (∀ key payload, (key, payload) ∈ cache_writes (trace w') →
       (key, payload) ∈ cache_writes (trace w) ∨
       ∃ v, length v = EMBEDDING_DIM ∧ payload = pickle_dumps v) ∧
    (∀ key payload expiry, entries w' !! key = Some (payload, expiry) →
       entries w !! key = Some (payload, expiry) ∨
       ∃ v, length v = EMBEDDING_DIM ∧ payload = pickle_dumps v) ∧
    (∀ vectors',
       (∀ k, k ≠ miss_rank rs i → vectors' !! k = vectors !! k) →
       ∃ res2 w2,
         embed_batch data_texts
           (set_answers (Ok vectors' :: tail (answers w)) w) = (Ok res2, w2) ∧
         ∀ j, j ≠ i → res2 !! j = res !! j).
Proof.
  intros Ha rs Hi Hbad.
  assert (Hlen : length (clean_text <$> data_texts) = length rs)
    by (unfold rs; by rewrite reads_length).
  assert (Hgen : to_generate data_texts w ≠ [])
    by (by apply (miss_texts_nonempty _ _ i)).
  eexists (merge rs vectors), _.
  split; [by apply embed_batch_answered|]. split; [|split; [|split]].
  - rewrite (merge_lookup rs vectors i PyNone Hi). cbn. f_equal.
    destruct (vectors !! miss_rank rs i) as [vec|] eqn:Hvec; [|done].
    apply as_result_absent. intros v ->. by apply Hbad.
  - intros key payload.
    rewrite write_back_cache_writes, after_encode_cache_writes,
      after_reads_cache_writes.
    rewrite elem_of_app. intros [Hold|Hnew]; [by left|]. right.
    destruct (cache_on _); [|by apply elem_of_nil in Hnew].
    apply list_elem_of_fmap in Hnew as ([t emb] & [= -> ->] & Hin).
    exists emb. split; [|done].
    by apply (proj1 (Forall_forall _ _) (written_valid _ _ _) _ Hin).
  - intros key payload expiry Hx.
    apply write_back_entries in Hx as [Hx|Hx]; [|by right].
    left. cbn [entries after_encode set_answers set_trace] in Hx.
    by rewrite (proj1 (after_reads_entries _ w)) in Hx.
  - intros vectors' Hsame.
    set (w_alt := set_answers (Ok vectors' :: tail (answers w)) w).
    assert (Hrs : reads (clean_text <$> data_texts) w_alt = rs)
      by apply reads_set_answers.
    eexists (merge rs vectors'), _. split.
    + rewrite <- Hrs. apply embed_batch_answered; [|done].
      unfold w_alt. by rewrite to_generate_set_answers.
    + intros j Hj. destruct (rs !! j) as [r|] eqn:Hr.
      * rewrite (merge_lookup rs vectors' j r Hr), (merge_lookup rs vectors j r Hr).
        destruct (is_not_none r) eqn:Hhit; [done|].
        apply is_not_none_false in Hhit as ->.
        rewrite Hsame; [done|]. by apply miss_rank_inj.
      * apply lookup_ge_None in Hr.
        rewrite !lookup_ge_None_2; [done|by rewrite merge_length..].
Qed.


(** ** The trace of a batch *)

Lemma written_all_hits (ts : list string) (rs : list pyobj)
    (vectors : list (option (list F))) :
  length ts = length rs → miss_texts ts rs = [] → written ts rs vectors = [].
Proof.
  revert ts. induction rs as [|r rs IH]; intros [|t ts] Hlen Hm; try done.
  injection Hlen as Hlen. cbn in *.
  destruct (is_not_none r); [by apply IH|done].
Qed.

(** Lookups first, then at most one provider call, then the writes. *)
Lemma embed_batch_trace (data_texts : list string) (w : world)
    (vectors : list (option (list F))) :
  (to_generate data_texts w ≠ [] → next_answer w = Ok vectors) →
  let cleaned := clean_text <$> data_texts in
  trace (embed_batch data_texts w).2 =
  trace w
  ++ (if cache_on w then EvGet ∘ get_cache_key <$> cleaned else [])
  ++ match to_generate data_texts w with
     | [] => []
     | (_ :: _) as misses => [EvEncode misses 12 8192]
     end
  ++ (if cache_on w
      then setex_event <$> written cleaned (reads cleaned w) vectors
      else []).
Proof.
  intros Ha cleaned.
  destruct (to_generate data_texts w) as [|m ms] eqn:Hm.
  - rewrite (embed_batch_all_hits _ _ Hm). cbn [snd app].
    rewrite after_reads_trace, written_all_hits;
      [|by rewrite reads_length|done].
    destruct (cache_on w); by rewrite ?app_nil_r.
  - rewrite (embed_batch_answered data_texts w vectors);
      [|by rewrite Hm|by apply Ha].
    cbn [snd]. rewrite write_back_trace, Hm.
    change (cache_on (after_encode (m :: ms) 12 8192
                        (after_reads (clean_text <$> data_texts) w)))
      with (cache_on (after_reads (clean_text <$> data_texts) w)).
    rewrite after_reads_cache_on.
    change (trace (after_encode (m :: ms) 12 8192
                     (after_reads (clean_text <$> data_texts) w)))
      with (trace (after_reads (clean_text <$> data_texts) w)
            ++ [EvEncode (m :: ms) 12 8192]).
    rewrite after_reads_trace. by rewrite <- !app_assoc.
Qed.

(** ** C3 *)

Lemma reads_lookup (ts : list string) :
  ∀ (w : world) (i : nat) (t : string),
    ts !! i = Some t →
    reads ts w !! i = Some (read_value t (after_reads (take i ts) w)).
Proof.
  induction ts as [|t0 ts IH]; intros w i t Hi; [done|].
  destruct i as [|i]; [by injection Hi as ->|]. cbn. by apply IH.
Qed.

Lemma miss_texts_lookup (ts : list string) (rs : list pyobj) :
  ∀ (i : nat) (t : string),
    length ts = length rs → ts !! i = Some t → rs !! i = Some PyNone →
    miss_texts ts rs !! miss_rank rs i = Some t.
Proof.
  revert ts. induction rs as [|r rs IH]; intros [|t0 ts] i t Hlen Ht Hr; try done.
  injection Hlen as Hlen. destruct i as [|i].
  - injection Ht as ->. injection Hr as ->. by rewrite miss_rank_0.
  - cbn in Ht, Hr. rewrite miss_rank_S. cbn [miss_texts].
    destruct (is_not_none r); cbn; by apply IH.
Qed.

(** C3: a text of a batch that is empty or whitespace-only keeps its place
    and is handled as the single space is.  Whenever the provider answers the
    one call a batch may make, the run is the very run of the batch with
    [" "] at that position, and the result is as long as the input.  The
    text is [" "] by the time of the lookups: the lookup made for the
    position is the lookup of [" "], sent under the key of [" "], and after
    a miss the provider is handed [" "] at the place of that miss.  The
    result at the position is what was found for [" "] after a hit, and
    after a miss it is the provider's vector for [" "] whenever that vector
    has the right dimension. *)
Theorem embed_batch_blank_position (data_texts : list string) (w : world)
    (vectors : list (option (list F))) (i : nat) (t : string) :
  data_texts !! i = Some t →
  blank t = true →
  (to_generate data_texts w ≠ [] → next_answer w = Ok vectors) →
  let cleaned := clean_text <$> data_texts in
  let rs := reads cleaned w in
  ∃ res w',
    embed_batch data_texts w = (Ok res, w') ∧
    embed_batch (<[i := " "]> data_texts) w = (Ok res, w') ∧
    length res = length data_texts ∧
    cleaned !! i = Some " " ∧
    rs !! i = Some (read_value " " (after_reads (take i cleaned) w)) ∧
    (cache_on w = true →
     trace w' !! (length (trace w) + i) = Some (EvGet (get_cache_key " "))) ∧
    (∀ o, rs !! i = Some o → o ≠ PyNone → res !! i = Some o) ∧
    (rs !! i = Some PyNone →
     (∃ misses,
        provider_calls (trace w') = provider_calls (trace w) ++ [misses] ∧
        misses !! miss_rank rs i = Some " ") ∧
     (∀ v, vectors !! miss_rank rs i = Some (Some v) →
           length v = EMBEDDING_DIM →
           res !! i = Some (PyList v))).
Proof.
  intros Hi Hb Ha cleaned rs.
  destruct (embed_batch_result data_texts w vectors Ha) as [w' Hrun].
  pose proof (embed_batch_trace data_texts w vectors Ha) as Htr.
  rewrite Hrun in Htr. cbn [snd] in Htr. cbv zeta in Htr.
  fold cleaned in Hrun, Htr. fold rs in Hrun, Htr.
  assert (Hclean : cleaned !! i = Some " ").
  { unfold cleaned. rewrite list_lookup_fmap, Hi. cbn.
    by rewrite (clean_text_blank t Hb). }
  assert (Hlen : length cleaned = length rs)
    by (unfold rs; by rewrite reads_length).
  exists (merge rs vectors), w'. split; [exact Hrun|]. split.
  { rewrite <- Hrun. symmetry. apply embed_batch_blank_as_space.
    assert (Hdiag : Forall2 same_or_blank data_texts data_texts).
    { apply Forall_Forall2_diag, Forall_true. intros x. by left. }
    assert (Hrel : same_or_blank t " ") by (by right).
    pose proof (Forall2_insert _ _ _ t " " i Hdiag Hrel) as Hins.
    by rewrite (list_insert_id data_texts i t Hi) in Hins. }
  split.
  { unfold rs, cleaned. by rewrite merge_length, reads_length, length_fmap. }
  split; [exact Hclean|].
  split; [exact (reads_lookup cleaned w i " " Hclean)|].
  split; [|split].
  - intros Hon. rewrite Htr, Hon.
    rewrite lookup_app_r by lia.
    replace (length (trace w) + i - length (trace w)) with i by lia.
    rewrite lookup_app_l.
    + by rewrite list_lookup_fmap, Hclean.
    + rewrite length_fmap. by apply (lookup_lt_Some cleaned i " ").
  - intros o Ho Hne. rewrite (merge_lookup rs vectors i o Ho).
    apply is_not_none_true in Hne. by rewrite Hne.
  - intros Hmiss. split.
    + exists (to_generate data_texts w). split.
      * assert (Hgen : to_generate data_texts w ≠ [])
          by (by apply (miss_texts_nonempty cleaned rs i)).
        rewrite Htr, !provider_calls_app.
        destruct (to_generate data_texts w) as [|m ms]; [done|].
        destruct (cache_on w).
        -- by rewrite provider_calls_gets, provider_calls_setex.
        -- done.
      * by apply miss_texts_lookup.
    + intros v Hv Hdim. rewrite (merge_lookup rs vectors i PyNone Hmiss).
      cbn [is_not_none]. by rewrite Hv, (as_result_valid v Hdim).
Qed.

(** ** A healthy cache *)

Lemma read_value_healthy (t : string) (w : world) :
  healthy w → read_value t w = stored_value w t.
Proof. intros [Hon Hf]. unfold read_value, next_fault. by rewrite Hon, Hf. Qed.

Lemma after_read_healthy (t : string) (w : world) :
  healthy w →
  healthy (after_read t w) ∧
  ∀ t', stored_value (after_read t w) t' = stored_value w t'.
Proof.
  intros [Hon Hf]. unfold after_read. rewrite Hon. split; [|done].
  split; [done|]. cbn. by rewrite Hf.
Qed.

Lemma reads_healthy (ts : list string) (w : world) :
  healthy w → reads ts w = stored_value w <$> ts.
Proof.
  revert w. induction ts as [|t ts IH]; intros w Hw; [done|]. cbn.
  destruct (after_read_healthy t w Hw) as [Hw' Hsame].
  rewrite (read_value_healthy t w Hw), (IH _ Hw'). f_equal.
  apply list_fmap_ext. intros _ t' _. apply Hsame.
Qed.

Lemma miss_texts_filter (w : world) (ts : list string) :
  miss_texts ts (stored_value w <$> ts) = List.filter (missing w) ts.
Proof.
  induction ts as [|t ts IH]; [done|]. cbn. unfold missing at 1.
  destruct (is_not_none (stored_value w t)); cbn; by rewrite IH.
Qed.

Lemma miss_indices_filter (w : world) (ts : list string) (n : nat) :
  length (miss_indices n (stored_value w <$> ts)) =
  length (List.filter (missing w) ts).
Proof.
  revert n. induction ts as [|t ts IH]; intros n; [done|]. cbn.
  unfold missing at 1.
  destruct (is_not_none (stored_value w t)); cbn; by rewrite IH.
Qed.

Lemma miss_rank_filter (w : world) (ts : list string) (i : nat) :
  miss_rank (stored_value w <$> ts) i =
  length (List.filter (missing w) (take i ts)).
Proof. unfold miss_rank. by rewrite <- fmap_take, miss_indices_filter. Qed.

Lemma written_filter (w : world) (ts : list string) :
  ∀ vs : list (list F),
    Forall (λ v, length v = EMBEDDING_DIM) vs →
    written ts (stored_value w <$> ts) (Some <$> vs) =
    zip (List.filter (missing w) ts) vs.
Proof.
  induction ts as [|t ts IH]; intros vs Hvs; [done|]. cbn.
  unfold missing at 1.
  destruct (is_not_none (stored_value w t)); cbn; [by apply IH|].
  destruct Hvs as [|v vs Hv Hvs]; [done|]. cbn.
  apply Nat.eqb_eq in Hv. rewrite Hv. by rewrite IH.
Qed.

Lemma filter_rank_lt (w : world) (ts : list string) (i : nat) (t : string) :
  ts !! i = Some t → missing w t = true →
  length (List.filter (missing w) (take i ts)) <
  length (List.filter (missing w) ts).
Proof.
  intros Hi Hm. rewrite <- (take_drop_middle ts i t Hi) at 2.
  rewrite List.filter_app, length_app. cbn. rewrite Hm. cbn. lia.
Qed.

Lemma cache_writes_encode (ms : list string) :
  cache_writes match ms with
               | [] => []
               | m :: ms' => [EvEncode (m :: ms') 12 8192]
               end = [].
Proof. by destruct ms. Qed.

Lemma keyed_zip (ts : list string) :
  ∀ vs : list (list F),
    (λ p, (get_cache_key p.1, pickle_dumps p.2)) <$> zip ts vs =
    zip (get_cache_key <$> ts) (pickle_dumps <$> vs).
Proof.
  induction ts as [|t ts IH]; intros [|v vs]; try done.
  cbn. f_equal. apply IH.
Qed.

(** ** C9 *)

(** C9: [embed_batch] does not deduplicate.  On a healthy cache the texts
    sent to the provider are the normalized texts that have nothing usable in
    the store, one entry per occurrence and in input order; when the provider
    returns a valid vector for each of them, every occurrence's vector is
    written to the cache under that occurrence's key, and the result stays
    aligned with the input: a position served from the store holds the stored
    value, and the k-th missing position holds the k-th returned vector. *)
Theorem embed_batch_no_dedup (data_texts : list string) (w : world)
    (vs : list (list F)) :
  healthy w →
  next_answer w = Ok (Some <$> vs) →
  Forall (λ v, length v = EMBEDDING_DIM) vs →
  let cleaned := clean_text <$> data_texts in
  let misses := List.filter (missing w) cleaned in
  length vs = length misses →
  ∃ res w',
    embed_batch data_texts w = (Ok res, w') ∧
    provider_calls (trace w') =
      provider_calls (trace w) ++ (if seq_truthy misses then [misses] else []) ∧
    cache_writes (trace w') =
      cache_writes (trace w) ++ zip (get_cache_key <$> misses) (pickle_dumps <$> vs) ∧
    length res = length data_texts ∧
    ∀ i t, cleaned !! i = Some t →
      res !! i =
      if missing w t
      then PyList <$> vs !! length (List.filter (missing w) (take i cleaned))
      else Some (stored_value w t).
Proof.
  intros Hw Ha Hvs cleaned misses Hlen.
  assert (Hrs : reads cleaned w = stored_value w <$> cleaned)
    by by apply reads_healthy.
  assert (Hgen : to_generate data_texts w = misses).
  { unfold to_generate. fold cleaned. by rewrite Hrs, miss_texts_filter. }
  destruct (embed_batch_result data_texts w (Some <$> vs)) as [w' Hrun];
    [done|].
  pose proof (embed_batch_trace data_texts w (Some <$> vs) (λ _, Ha)) as Htr.
  cbv zeta in Htr. fold cleaned in Htr, Hrun.
  rewrite Hrun, Hgen, Hrs, written_filter in Htr by done. cbn [snd] in Htr.
  destruct Hw as [Hon Hf]. rewrite Hon in Htr.
  eexists _, w'. split; [exact Hrun|]. split; [|split; [|split]].
  - rewrite Htr, !provider_calls_app, provider_calls_gets, provider_calls_setex.
    rewrite app_nil_r. by destruct misses.
  - rewrite Htr, !cache_writes_app, cache_writes_gets, cache_writes_setex.
    rewrite cache_writes_encode. cbn [app]. by rewrite keyed_zip.
  - rewrite merge_length, Hrs. unfold cleaned. by rewrite !length_fmap.
  - intros i t Hi. rewrite Hrs.
    rewrite (merge_lookup _ _ i (stored_value w t))
      by by rewrite list_lookup_fmap, Hi.
    unfold missing at 1.
    destruct (is_not_none (stored_value w t)) eqn:Hhit; [done|]. cbn [negb].
    rewrite miss_rank_filter, list_lookup_fmap.
    assert (Hk : length (List.filter (missing w) (take i cleaned)) < length vs).
    { rewrite Hlen. apply (filter_rank_lt w cleaned i t Hi).
      unfold missing. by rewrite Hhit. }
    apply lookup_lt_is_Some in Hk as [v Hv]. rewrite Hv. cbn. f_equal.
    unfold as_result, checked, tolist.
    assert (Hdim : length v = EMBEDDING_DIM).
    { apply (proj1 (Forall_lookup _ _) Hvs _ _ Hv). }
    apply Nat.eqb_eq in Hdim. by rewrite Hdim.
Qed.


(** ** A single request *)

Lemma after_read_answers (t : string) (w : world) :
  answers (after_read t w) = answers w.
Proof. unfold after_read. by destruct (cache_on w). Qed.

Lemma embed_run (data_text : string) (w : world) :
  embed data_text w = single_outcome data_text w.
Proof.
  unfold embed, single_outcome. cbv zeta.
  destruct (if str_truthy data_text then strip data_text else "")
    as [|c s]; [done|].
  cbn [str_truthy negb]. rewrite bind_run, get_cached_embedding_run.
  destruct (is_not_none _); [done|].
  rewrite bind_run, model_encode_run.
  unfold next_answer at 1. rewrite after_read_answers. fold (next_answer w).
  destruct (next_answer w) as [[|vec vecs]|e]; [done| |done].
  rewrite bind_run. cbn [getitem lookup list_lookup mret M_ret].
  unfold checked. destruct vec as [v|]; [|done].
  destruct (length v =? EMBEDDING_DIM); [|done]. cbn [negb].
  by rewrite bind_run, cache_embedding_run.
Qed.

Lemma stored_value_later (w w' : world) (text : string) (d : nat) :
  entries w' = entries w → clock w' = clock w + d →
  (∀ payload expiry,
     entries w !! get_cache_key text = Some (payload, expiry) →
     clock w < expiry → clock w + d < expiry) →
  stored_value w text ≠ PyNone →
  stored_value w' text = stored_value w text.
Proof.
  intros He Hc Hlive Hhit. unfold stored_value, live_payload in *.
  rewrite He, Hc.
  destruct (entries w !! get_cache_key text) as [[payload expiry]|]; [|done].
  destruct (decide (clock w < expiry)) as [Hlt|]; [|done].
  by rewrite (decide_True _ _ (Hlive payload expiry eq_refl Hlt)).
Qed.

Lemma after_read_fields (t : string) (w : world) :
  healthy w →
  cache_on (after_read t w) = true ∧ faults (after_read t w) = [] ∧
  entries (after_read t w) = entries w ∧ clock (after_read t w) = clock w.
Proof.
  intros [Hon Hf]. unfold after_read. rewrite Hon. cbn. by rewrite Hf.
Qed.

Lemma after_write_fields (t : string) (emb : list F) (w : world) :
  healthy w →
  cache_on (after_write t emb w) = true ∧ faults (after_write t emb w) = [] ∧
  entries (after_write t emb w) =
    <[get_cache_key t := (pickle_dumps emb, clock w + CACHE_TTL)]> (entries w) ∧
  clock (after_write t emb w) = clock w.
Proof.
  intros [Hon Hf]. unfold after_write, next_fault. rewrite Hon, Hf. cbn.
  by rewrite Hf.
Qed.

Lemma provider_calls_quiet (b : bool) (e : event) :
  (∀ ts bs ml, e ≠ EvEncode ts bs ml) →
  provider_calls (if b then [e] else []) = [].
Proof.
  intros He. destruct b; [|done]. destruct e; try done.
  by destruct (He texts batch_size max_length).
Qed.

(** ** C7 *)

(** C7, as amended: with a healthy cache and a sound serializer, if a first
    request for [t] returns a vector (so [t] is not blank, and the provider,
    if it was asked, returned a vector of the right dimension), then a second
    request for [t] made while the entry is still alive is a cache hit with
    that same vector, and the provider has been called at most once over the
    two requests. *)
Theorem embed_twice_hits_cache (t : string) (w : world) (d : nat) :
  healthy w →
  pickle_sound →
  within_ttl t w d →
  (∃ r1 w1, embed t w = (Ok r1, w1) ∧ embedding r1 ≠ PyNone) →
  resolved_once t w d.
Proof.
  intros Hw Hpickle [Hd Hlive] (r1 & w1 & Hrun & Hvec).
  unfold resolved_once. rewrite embed_run in Hrun.
  setoid_rewrite embed_run. unfold single_outcome in *.
  assert (Htext : (if str_truthy t then strip t else "") = strip t)
    by by destruct t.
  rewrite Htext in *. clear Htext.
  destruct (strip t) as [|c s] eqn:Hs.
  { by injection Hrun as <- <-. }
  set (text := String c s) in *. cbv zeta in *.
  rewrite (read_value_healthy text w Hw) in *.
  destruct (after_read_fields text w Hw) as (Hon1 & Hf1 & He1 & Hc1).
  destruct (is_not_none (stored_value w text)) eqn:Hhit.
  - (* served from the cache both times *)
    injection Hrun as <- <-. cbn [embedding] in *.
    assert (Hw1 : healthy (elapse d (after_read text w))) by done.
    assert (Hsame : stored_value (elapse d (after_read text w)) text =
                    stored_value w text).
    { apply (stored_value_later w _ text d); try done. cbn. by rewrite Hc1. }
    eexists _, _, _, _. split; [done|].
    rewrite (read_value_healthy text _ Hw1), Hsame, Hhit.
    split; [done|]. split; [done|]. split; [done|].
    rewrite after_read_trace. unfold elapse. cbn [trace set_clock].
    rewrite after_read_trace, !provider_calls_app.
    rewrite !provider_calls_quiet by done. rewrite !app_nil_r. lia.
  - (* generated, written, then served from the cache *)
    destruct (next_answer w) as [[|vec vecs]|e]; [done| |done].
    destruct (checked vec) as [emb|]; [|by injection Hrun as <- <-].
    injection Hrun as <- <-.
    set (w2 := after_encode [text] 1 8192 (after_read text w)).
    assert (Hw2 : healthy w2) by done.
    destruct (after_write_fields text emb w2 Hw2) as (Hon3 & Hf3 & He3 & Hc3).
    assert (Hw3 : healthy (elapse d (after_write text emb w2))) by done.
    assert (Hval : stored_value (elapse d (after_write text emb w2)) text =
                   PyList emb).
    { unfold stored_value, live_payload. cbn [entries clock elapse set_clock].
      rewrite He3, Hc3, lookup_insert_eq. rewrite decide_True by lia.
      destruct (Hpickle emb) as [Hne ->].
      by destruct (pickle_dumps emb). }
    eexists _, _, _, _. split; [done|].
    rewrite (read_value_healthy text _ Hw3), Hval. cbn [is_not_none].
    split; [done|]. split; [done|]. split; [done|].
    rewrite after_read_trace. unfold elapse. cbn [trace set_clock].
    rewrite after_write_trace. unfold w2.
    cbn [trace after_encode set_answers set_trace].
    rewrite after_read_trace, !provider_calls_app.
    rewrite !provider_calls_quiet by done.
    cbn. rewrite !app_nil_r, length_app. cbn. lia.
Qed.

(** ** A store written by this service only *)

Lemma stored_value_sound (w : world) (t : string) :
  store_sound w → stored_value w t = PyNone ∨ is_embedding (stored_value w t).
Proof.
  intros Hs. unfold stored_value, live_payload.
  destruct (entries w !! get_cache_key t) as [[payload expiry]|] eqn:Hk; [|by left].
  destruct (decide (clock w < expiry)); [|by left].
  destruct (seq_truthy payload); [|by left].
  destruct (pickle_loads payload) as [o|e] eqn:Hl; [|by left].
  by apply (Hs _ _ _ _ Hk Hl).
Qed.

Lemma reads_sound (ts : list string) (w : world) :
  store_sound w → Forall (λ o, o = PyNone ∨ is_embedding o) (reads ts w).
Proof.
  revert w. induction ts as [|t ts IH]; intros w Hs; [constructor|].
  cbn. constructor.
  - unfold read_value. destruct (cache_on w); [|by left].
    destruct (next_fault w); [by left|]. by apply stored_value_sound.
  - apply IH. unfold store_sound, after_read. by destruct (cache_on w).
Qed.

Lemma merge_sound (rs : list pyobj) :
  ∀ vectors : list (option (list F)),
    Forall (λ o, o = PyNone ∨ is_embedding o) rs →
    Forall (λ o, o = PyNone ∨ is_embedding o) (merge rs vectors).
Proof.
  induction rs as [|r rs IH]; intros vectors Hrs; [constructor|].
  apply Forall_cons in Hrs as [Hr Hrs]. cbn.
  destruct (is_not_none r); [constructor; [done|by apply IH]|].
  destruct vectors as [|vec vectors]; constructor; try by apply IH.
  - by left.
  - unfold as_result. destruct (checked vec) as [emb|] eqn:Hc; [|by left].
    right. exists emb. split; [done|]. by apply checked_length in Hc.
Qed.

(** X14: with a store that holds only embeddings, whatever [embed_batch]
    returns at a position is [None] or a list of [EMBEDDING_DIM] floats. *)
Lemma embed_batch_vectors (data_texts : list string) (w : world)
    (vectors : list (option (list F))) :
  store_sound w →
  (to_generate data_texts w ≠ [] → next_answer w = Ok vectors) →
  ∃ res w',
    embed_batch data_texts w = (Ok res, w') ∧
    Forall (λ o, o = PyNone ∨ is_embedding o) res.
Proof.
  intros Hs Ha. destruct (embed_batch_result data_texts w vectors Ha) as [w' Hrun].
  eexists _, w'. split; [exact Hrun|]. by apply merge_sound, reads_sound.
Qed.

(** X15: and with a sound serializer [embed_batch] leaves the store in
    that state. *)
Lemma embed_batch_keeps_store_sound (data_texts : list string) (w : world) :
  pickle_sound → store_sound w → store_sound (embed_batch data_texts w).2.
Proof.
  intros Hp Hs. rewrite embed_batch_run. unfold batch_outcome.
  destruct data_texts as [|t0 texts]; [done|]. cbv zeta.
  set (cleaned := clean_text <$> t0 :: texts).
  assert (Hreads : store_sound (after_reads cleaned w)).
  { unfold store_sound. by rewrite (proj1 (after_reads_entries cleaned w)). }
  destruct (miss_texts cleaned (reads cleaned w)) as [|m ms]; [done|].
  destruct (next_answer w) as [vectors|e]; [|done]. cbn [snd].
  intros key payload expiry o Hk Hl.
  apply write_back_entries in Hk as [Hk|(v & Hv & Hk)].
  - by apply (Hreads _ _ _ _ Hk Hl).
  - cbn in Hk. subst payload. destruct (Hp v) as [_ Hrt].
    rewrite Hrt in Hl. injection Hl as <-. right. by exists v.
Qed.

(** ** C1 *)

(** C1, as amended: with a store that holds only embeddings, and whenever
    the provider answers the one call a batch may make, [embed_batch] returns
    a sequence as long as its input (so an empty input gives an empty
    result), and position [i] of it holds a vector, that is a list of
    [EMBEDDING_DIM] floats, exactly when the lookup at [i] was a cache hit or
    the provider returned a vector of the right dimension for the miss
    recorded at [i].  The position then holds that very vector: the cached
    one after a hit, the provider's after a miss; and it holds [None] in
    every other case. *)
Theorem embed_batch_vectors_aligned (data_texts : list string) (w : world)
    (vectors : list (option (list F))) :
  store_sound w →
  (to_generate data_texts w ≠ [] → next_answer w = Ok vectors) →
  let rs := reads (clean_text <$> data_texts) w in
  ∃ res w',
    embed_batch data_texts w = (Ok res, w') ∧
    length res = length data_texts ∧
    ∀ i, i < length data_texts →
      (vector_at res i ↔
       hit_at data_texts w i ∨ provider_valid_at data_texts w vectors i) ∧
      (hit_at data_texts w i → res !! i = rs !! i) ∧
      (∀ v, rs !! i = Some PyNone →
            vectors !! miss_rank rs i = Some (Some v) →
            length v = EMBEDDING_DIM →
            res !! i = Some (PyList v)) ∧
      (¬ hit_at data_texts w i →
       ¬ provider_valid_at data_texts w vectors i →
       res !! i = Some PyNone).
Proof.
  intros Hs Ha rs.
  destruct (embed_batch_result data_texts w vectors Ha) as [w' Hrun].
  eexists _, w'. split; [exact Hrun|]. split.
  { by rewrite merge_length, reads_length, length_fmap. }
  intros i Hi. unfold hit_at, provider_valid_at, present_at, vector_at.
  cbv zeta. fold rs.
  assert (is_Some (rs !! i)) as [r Hr].
  { apply lookup_lt_is_Some. unfold rs. by rewrite reads_length, length_fmap. }
  assert (Hsound : r = PyNone ∨ is_embedding r).
  { exact (proj1 (Forall_lookup _ _)
             (reads_sound (clean_text <$> data_texts) w Hs) i r Hr). }
  rewrite (merge_lookup rs vectors i r Hr), Hr.
  destruct (is_not_none r) eqn:Hhit.
  - apply is_not_none_true in Hhit.
    destruct Hsound as [->|Hemb]; [done|].
    split; [|split; [|split]].
    + split; intros _; [left|]; eauto.
    + done.
    + intros v [= ->]. done.
    + intros Hno. destruct Hno. eauto.
  - apply is_not_none_false in Hhit as ->.
    split; [|split; [|split]].
    + split.
      * intros (o & [= <-] & v & Ho & Hv). right. split; [done|].
        destruct (vectors !! miss_rank rs i) as [vec|]; [|done].
        assert (Hvec : as_result vec ≠ PyNone) by (by rewrite Ho).
        apply as_result_present in Hvec as (v' & -> & Hv'). eauto.
      * intros [(o & [= <-] & Ho)|(_ & v & Hv & Hdim)]; [done|].
        rewrite Hv, (as_result_valid v Hdim).
        eexists. split; [done|]. by exists v.
    + intros (o & [= <-] & Ho). done.
    + intros v _ Hv Hdim. by rewrite Hv, (as_result_valid v Hdim).
    + intros _ Hno. f_equal.
      destruct (vectors !! miss_rank rs i) as [vec|] eqn:Hvec; [|done].
      apply as_result_absent. intros v -> Hdim. apply Hno.
      split; [done|]. eauto.
Qed.

(** * Further properties of the service *)

(** ** Trimming *)

Lemma lstrip_head (s : string) :
  lstrip s = "" ∨ ∃ c r, lstrip s = String c r ∧ isspace c = false.
Proof.
  destruct (lstrip_cases s) as [[H _]|(c & r & H & Hc & _)]; [by left|].
  right. eauto.
Qed.

Lemma rstrip_idemp (s : string) : rstrip (rstrip s) = rstrip s.
Proof.
  induction s as [|c s IH]; [done|]. cbn [rstrip].
  destruct (rstrip s) as [|c' r] eqn:Hr.
  - destruct (isspace c) eqn:Hc; [done|]. cbn. by rewrite Hc.
  - cbn [rstrip]. cbn [rstrip] in IH. by rewrite IH.
Qed.

Lemma rstrip_head (c : ascii) (r : string) :
  isspace c = false → ∃ r', rstrip (String c r) = String c r'.
Proof. intros Hc. cbn. rewrite Hc. destruct (rstrip r); eauto. Qed.

Lemma strip_idemp (s : string) : strip (strip s) = strip s.
Proof.
  unfold strip. destruct (lstrip_head s) as [->|(c & r & -> & Hc)]; [done|].
  destruct (rstrip_head c r Hc) as [r' Hr]. rewrite Hr at 1.
  cbn [lstrip]. rewrite Hc, <- Hr. apply rstrip_idemp.
Qed.

Lemma clean_text_idemp (t : string) : clean_text (clean_text t) = clean_text t.
Proof.
  unfold clean_text. destruct (strip t) as [|c s] eqn:Hs; [done|].
  cbn [str_truthy]. rewrite <- Hs, strip_idemp. by rewrite Hs.
Qed.

(** X1: a single request ignores surrounding whitespace: [embed] on a text
    and on its trimmed form run identically, so both share one cache
    entry. *)
Theorem embed_trims (data_text : string) (w : world) :
  embed (strip data_text) w = embed data_text w.
Proof.
  assert (Htext : ∀ t, (if str_truthy t then strip t else "") = strip t)
    by by intros [].
  unfold embed. by rewrite !Htext, strip_idemp.
Qed.

(** X2: normalisation is idempotent: a batch and the batch of its normalized
    texts run identically. *)
Theorem embed_batch_normalized (data_texts : list string) (w : world) :
  embed_batch (clean_text <$> data_texts) w = embed_batch data_texts w.
Proof.
  unfold embed_batch. rewrite <- list_fmap_compose.
  assert (Hc : clean_text ∘ clean_text <$> data_texts = clean_text <$> data_texts).
  { apply list_fmap_ext. intros _ t _. apply clean_text_idemp. }
  rewrite Hc. by destruct data_texts.
Qed.

(** ** The single endpoint, path by path *)

Lemma embed_nonblank_run (data_text : string) (w : world) :
  blank data_text = false →
  embed data_text w =
  let text := strip data_text in
  let w1 := after_read text w in
  if is_not_none (read_value text w)
  then (Ok (Response (read_value text w) (Some true)), w1)
  else
    let w2 := after_encode [text] 1 8192 w1 in
    match next_answer w with
    | Raise e => (Raise e, w2)
    | Ok [] => (Raise IndexError, w2)
    | Ok (vec :: _) =>
        match checked vec with
        | Some emb =>
            (Ok (Response (PyList emb) (Some false)), after_write text emb w2)
        | None => (Ok (Response PyNone None), w2)
        end
    end.
Proof.
  intros Hb. rewrite embed_run. unfold single_outcome.
  assert (Htext : (if str_truthy data_text then strip data_text else "")
                  = strip data_text) by by destruct data_text.
  rewrite Htext. destruct (strip data_text) as [|c s] eqn:Hs; [|done].
  apply strip_blank in Hs. congruence.
Qed.

Lemma clean_text_nonblank (t : string) : blank t = false → clean_text t = strip t.
Proof.
  intros Hb. unfold clean_text. destruct (strip t) as [|c s] eqn:Hs; [|done].
  apply strip_blank in Hs. congruence.
Qed.

Lemma after_read_entries (t : string) (w : world) :
  entries (after_read t w) = entries w ∧ clock (after_read t w) = clock w.
Proof. unfold after_read. by destruct (cache_on w). Qed.

Lemma after_read_cache_writes (t : string) (w : world) :
  cache_writes (trace (after_read t w)) = cache_writes (trace w).
Proof.
  rewrite after_read_trace, cache_writes_app.
  destruct (cache_on w); by rewrite app_nil_r.
Qed.

Lemma after_read_provider_calls (t : string) (w : world) :
  provider_calls (trace (after_read t w)) = provider_calls (trace w).
Proof.
  rewrite after_read_trace, provider_calls_app.
  destruct (cache_on w); by rewrite app_nil_r.
Qed.

(** X3: on a cache hit [embed] returns the cached object tagged
    [cached: True], asks the provider nothing, writes nothing, and leaves
    every store entry, expiry time included, as it was: a hit does not
    refresh the entry. *)
Theorem embed_cache_hit (data_text : string) (w : world) :
  blank data_text = false →
  read_value (strip data_text) w ≠ PyNone →
  ∃ w',
    embed data_text w =
      (Ok (Response (read_value (strip data_text) w) (Some true)), w') ∧
    entries w' = entries w ∧
    answers w' = answers w ∧
    provider_calls (trace w') = provider_calls (trace w) ∧
    cache_writes (trace w') = cache_writes (trace w).
Proof.
  intros Hb Hhit. rewrite (embed_nonblank_run _ _ Hb). cbv zeta.
  apply is_not_none_true in Hhit. rewrite Hhit.
  eexists. split; [done|].
  split; [apply after_read_entries|]. split; [apply after_read_answers|].
  split; [apply after_read_provider_calls|apply after_read_cache_writes].
Qed.

(** X4: when the lookup misses and the provider's one vector is absent or
    not of length [EMBEDDING_DIM], [embed] returns the null embedding
    without a [cached] tag, and writes nothing to the cache. *)
Theorem embed_invalid_vector (data_text : string) (w : world)
    (vec : option (list F)) (rest : list (option (list F))) :
  blank data_text = false →
  read_value (strip data_text) w = PyNone →
  next_answer w = Ok (vec :: rest) →
  (∀ v, vec = Some v → length v ≠ EMBEDDING_DIM) →
  ∃ w',
    embed data_text w = (Ok (Response PyNone None), w') ∧
    entries w' = entries w ∧
    cache_writes (trace w') = cache_writes (trace w).
Proof.
  intros Hb Hmiss Ha Hbad. rewrite (embed_nonblank_run _ _ Hb). cbv zeta.
  rewrite Hmiss, Ha. cbn [is_not_none].
  assert (Hc : checked vec = None).
  { pose proof (as_result_absent vec Hbad) as Hr. unfold as_result in Hr.
    by destruct (checked vec). }
  rewrite Hc. eexists. split; [done|]. split.
  - exact (proj1 (after_read_entries (strip data_text) w)).
  - rewrite after_encode_cache_writes. apply after_read_cache_writes.
Qed.

(** X5: when the lookup misses and the provider returns no vector at all,
    [embed] raises [IndexError] on [dense_vecs[0]], whereas [embed_batch] on
    the same single text returns [None] at its position. *)
Theorem embed_empty_answer (data_text : string) (w : world) :
  blank data_text = false →
  read_value (strip data_text) w = PyNone →
  next_answer w = Ok [] →
  (embed data_text w).1 = Raise IndexError ∧
  (embed_batch [data_text] w).1 = Ok [PyNone].
Proof.
  intros Hb Hmiss Ha. split.
  - rewrite (embed_nonblank_run _ _ Hb). cbv zeta. by rewrite Hmiss, Ha.
  - rewrite embed_batch_run. unfold batch_outcome. cbv zeta.
    cbn [fmap list_fmap reads miss_texts].
    rewrite (clean_text_nonblank _ Hb), Hmiss. cbn [is_not_none]. by rewrite Ha.
Qed.

(** X6: when the provider call of a batch fails, [embed_batch] raises that
    error - positions that were cache hits are not returned - and nothing is
    written to the cache. *)
Theorem embed_batch_provider_failure (data_texts : list string) (w : world)
    (e : exn) :
  to_generate data_texts w ≠ [] →
  next_answer w = Raise e →
  ∃ w',
    embed_batch data_texts w = (Raise e, w') ∧
    entries w' = entries w ∧
    cache_writes (trace w') = cache_writes (trace w) ∧
    provider_calls (trace w') =
      provider_calls (trace w) ++ [to_generate data_texts w].
Proof.
  intros Hm Ha. rewrite embed_batch_run. unfold batch_outcome.
  destruct data_texts as [|t0 texts]; [done|]. cbv zeta.
  unfold to_generate in *. destruct (miss_texts _ _) as [|m ms]; [done|].
  rewrite Ha. eexists. split; [done|]. split; [|split].
  - exact (proj1 (after_reads_entries (clean_text <$> t0 :: texts) w)).
  - by rewrite after_encode_cache_writes, after_reads_cache_writes.
  - by rewrite after_encode_provider_calls, after_reads_provider_calls.
Qed.

Lemma after_write_agree (t : string) (emb : list F) (w1 w2 : world) :
  cache_on w1 = cache_on w2 → faults w1 = faults w2 →
  entries w1 = entries w2 → clock w1 = clock w2 →
  cache_writes (trace w1) = cache_writes (trace w2) →
  entries (after_write t emb w1) = entries (after_write t emb w2) ∧
  cache_writes (trace (after_write t emb w1)) =
  cache_writes (trace (after_write t emb w2)).
Proof.
  intros Hon Hf He Hc Htr. rewrite !after_write_trace, !cache_writes_app, Htr, Hon.
  split; [|done]. unfold after_write, next_fault. rewrite Hon, Hf.
  destruct (cache_on w2); [|done]. destruct (hd false (faults w2)); [done|].
  cbn. by rewrite He, Hc.
Qed.

(** X7: the two endpoints agree on a single text: whenever [embed] returns
    normally for a text that is not blank, [embed_batch] on that one text
    returns the same embedding and leaves the same store and the same cache
    writes behind. *)
Theorem embed_batch_singleton (data_text : string) (w w1 : world) (r : response) :
  blank data_text = false →
  embed data_text w = (Ok r, w1) →
  ∃ w2,
    embed_batch [data_text] w = (Ok [embedding r], w2) ∧
    entries w2 = entries w1 ∧
    cache_writes (trace w2) = cache_writes (trace w1).
Proof.
  intros Hb. rewrite (embed_nonblank_run _ _ Hb), embed_batch_run.
  unfold batch_outcome. cbv zeta. cbn [fmap list_fmap reads miss_texts after_reads].
  rewrite (clean_text_nonblank _ Hb).
  set (text := strip data_text).
  destruct (is_not_none (read_value text w)) eqn:Hhit.
  - intros [= <- <-]. by eexists.
  - apply is_not_none_false in Hhit. rewrite Hhit.
    destruct (next_answer w) as [[|vec vecs]|e]; [done| |done].
    cbn [merge write_back is_not_none]. unfold as_result.
    destruct (checked vec) as [emb|].
    + intros [= <- <-]. eexists. split; [done|].
      apply after_write_agree; try done. by rewrite !after_encode_cache_writes.
    + intros [= <- <-]. eexists. split; [done|].
      split; [done|]. by rewrite !after_encode_cache_writes.
Qed.

(** ** The store only gains entries *)

Lemma after_write_lookup (t : string) (emb : list F) (w : world) (key : string) :
  entries (after_write t emb w) !! key = entries w !! key ∨
  entries (after_write t emb w) !! key =
    Some (pickle_dumps emb, clock w + CACHE_TTL).
Proof.
  unfold after_write. destruct (cache_on w); [|by left].
  destruct (next_fault w); [by left|]. cbn [entries set_entries].
  rewrite lookup_insert. case_decide; [by right|by left].
Qed.

Lemma after_write_clock (t : string) (emb : list F) (w : world) :
  clock (after_write t emb w) = clock w.
Proof.
  unfold after_write. destruct (cache_on w); [|done]. by destruct (next_fault w).
Qed.

Lemma write_back_clock (ts : list string) :
  ∀ (rs : list pyobj) (vectors : list (option (list F))) (w : world),
    clock (write_back ts rs vectors w) = clock w.
Proof.
  induction ts as [|t ts IH]; intros rs vectors w; [done|].
  destruct rs as [|r rs]; [done|]. cbn.
  destruct (is_not_none r); [apply IH|].
  destruct vectors as [|vec vectors]; [done|]. rewrite IH.
  destruct (checked vec); [apply after_write_clock|done].
Qed.

Lemma write_back_lookup (ts : list string) :
  ∀ (rs : list pyobj) (vectors : list (option (list F))) (w : world)
    (key : string),
    entries (write_back ts rs vectors w) !! key = entries w !! key ∨
    ∃ x, entries (write_back ts rs vectors w) !! key = Some x ∧
         fresh_entry (clock w) x.
Proof.
  induction ts as [|t ts IH]; intros rs vectors w key; [by left|].
  destruct rs as [|r rs]; [by left|]. cbn.
  destruct (is_not_none r); [apply IH|].
  destruct vectors as [|vec vectors]; [by left|].
  destruct (checked vec) as [emb|] eqn:Hc; [|apply IH].
  destruct (IH rs vectors (after_write t emb w) key) as [Hsame|(x & Hx & Hnew)].
  - rewrite Hsame. destruct (after_write_lookup t emb w key) as [-> | ->];
      [by left|].
    right. eexists. split; [done|]. exists emb.
    split; [by apply checked_length in Hc|done].
  - right. exists x. split; [done|]. by rewrite after_write_clock in Hnew.
Qed.

Lemma after_encode_entries (ts : list string) (bs ml : Z) (w : world) :
  entries (after_encode ts bs ml w) = entries w.
Proof. reflexivity. Qed.

Lemma after_encode_clock (ts : list string) (bs ml : Z) (w : world) :
  clock (after_encode ts bs ml w) = clock w.
Proof. reflexivity. Qed.

(** X8: [embed_batch] and [embed] never remove a store entry.  Whatever the
    provider and the server do, each key afterwards holds what it held
    before, or a vector of length [EMBEDDING_DIM] that expires exactly
    [CACHE_TTL] seconds after the time of the request. *)
Theorem store_only_gains (data_texts : list string) (data_text : string)
    (w : world) (key : string) :
  (entries (embed_batch data_texts w).2 !! key = entries w !! key ∨
   ∃ x, entries (embed_batch data_texts w).2 !! key = Some x ∧
        fresh_entry (clock w) x) ∧
  (entries (embed data_text w).2 !! key = entries w !! key ∨
   ∃ x, entries (embed data_text w).2 !! key = Some x ∧
        fresh_entry (clock w) x).
Proof.
  split.
  - rewrite embed_batch_run. unfold batch_outcome.
    destruct data_texts as [|t0 texts]; [by left|]. cbv zeta.
    set (cleaned := clean_text <$> t0 :: texts).
    destruct (after_reads_entries cleaned w) as [He Hc].
    destruct (miss_texts cleaned (reads cleaned w)) as [|m ms].
    { left. cbn [snd]. by rewrite He. }
    destruct (next_answer w) as [vectors|e]; cbn [snd].
    2:{ left. by rewrite after_encode_entries, He. }
    destruct (write_back_lookup cleaned (reads cleaned w) vectors
                (after_encode (m :: ms) 12 8192 (after_reads cleaned w)) key)
      as [->|(x & Hx & Hnew)].
    + left. by rewrite after_encode_entries, He.
    + right. exists x. split; [done|].
      by rewrite after_encode_clock, Hc in Hnew.
  - rewrite embed_run. unfold single_outcome.
    destruct (if str_truthy data_text then strip data_text else "")
      as [|c s]; [by left|]. cbv zeta.
    set (text := String c s).
    destruct (after_read_entries text w) as [He Hc].
    destruct (is_not_none (read_value text w)).
    { left. cbn [snd]. by rewrite He. }
    destruct (next_answer w) as [[|vec vecs]|e]; cbn [snd].
    1,3: left; by rewrite after_encode_entries, He.
    destruct (checked vec) as [emb|] eqn:Hck; cbn [snd].
    2:{ left. by rewrite after_encode_entries, He. }
    destruct (after_write_lookup text emb
                (after_encode [text] 1 8192 (after_read text w)) key)
      as [-> | ->].
    + left. by rewrite after_encode_entries, He.
    + right. eexists. split; [done|]. exists emb.
      split; [by apply checked_length in Hck|].
      by rewrite after_encode_clock, Hc.
Qed.

(** ** Put, then Get *)

(** X9: on a healthy cache with a sound serializer, [cache_embedding] sends
    one [SETEX] for the key of the text, with a time to live of [CACHE_TTL]
    seconds and the serialized vector, and returns; and what it stored is
    what [get_cached_embedding] returns for that text at any time less than
    [CACHE_TTL] seconds later, whatever the store held before (the last
    write wins). *)
Theorem cache_round_trip (text : string) (emb : list F) (w : world) (d : nat) :
  healthy w →
  pickle_sound →
  d < CACHE_TTL →
  ∃ w1,
    cache_embedding text emb w = (Ok tt, w1) ∧
    trace w1 =
      trace w ++ [EvSetex (get_cache_key text) CACHE_TTL (pickle_dumps emb)] ∧
    (get_cached_embedding text (elapse d w1)).1 = Ok (PyList emb).
Proof.
  intros Hw Hp Hd. rewrite cache_embedding_run.
  exists (after_write text emb w). split; [done|].
  destruct (after_write_fields text emb w Hw) as (Hon & Hf & He & Hc).
  split.
  { rewrite after_write_trace. destruct Hw as [-> _]. done. }
  assert (Hw' : healthy (elapse d (after_write text emb w))) by done.
  rewrite get_cached_embedding_run. cbn [fst].
  rewrite (read_value_healthy _ _ Hw').
  unfold stored_value, live_payload. cbn [entries clock elapse set_clock].
  rewrite He, Hc, lookup_insert_eq.
  destruct (Hp emb) as [Hne Hrt].
  rewrite decide_True by lia. rewrite Hrt. by destruct (pickle_dumps emb).
Qed.

(** ** Start-up *)

(** The probe of lines 38-46, for a host and a port already at hand, never
    raises and sends exactly one [PING]; the adapter ends up enabled,
    holding the client, exactly when the probe got through, and disabled
    with no client otherwise.  The store is not touched. *)
Lemma startup_outcome (redis_host : string) (redis_port : Z) (w : world) :
  ∃ w',
    startup redis_host redis_port w = (Ok tt, w') ∧
    CACHE_ENABLED w' = negb (next_fault w) ∧
    cache w' = (if next_fault w then None
                else Some {| host := redis_host; port := redis_port; db := 0 |}) ∧
    entries w' = entries w ∧
    trace w' = trace w ++ [EvPing].
Proof.
  unfold startup, try_except, redis_ping.
  rewrite bind_run. cbn [modify]. rewrite bind_run, redis_roundtrip_run.
  unfold next_fault. cbn [set_cache faults].
  destruct (hd false (faults w)); eexists; (split; [reflexivity|done]).
Qed.

(** X10: the cache setup, from the environment on.  It fails, with the
    [ValueError] of line 36 and before any command is sent, exactly when
    [REDIS_PORT] is set to a string that [int] rejects.  In every other case
    it does not raise: it sends one [PING] to the host named by [REDIS_HOST],
    or to ["redis"] when that is not set, at the port that [REDIS_PORT]
    spells, or at 6379 when that is not set; the adapter ends up enabled,
    holding the client, exactly when the probe got through, and disabled
    with no client otherwise.  The store is not touched. *)
Theorem module_setup_outcome (REDIS_HOST REDIS_PORT : option string) (w : world) :
  (module_setup REDIS_HOST REDIS_PORT w = None ↔
   ∃ s, REDIS_PORT = Some s ∧ python_int s = None) ∧
  (∀ redis_port,
     (REDIS_PORT = None ∧ redis_port = 6379%Z) ∨
     (∃ s, REDIS_PORT = Some s ∧ python_int s = Some redis_port) →
     ∃ w',
       module_setup REDIS_HOST REDIS_PORT w = Some (Ok tt, w') ∧
       CACHE_ENABLED w' = negb (next_fault w) ∧
       cache w' =
         (if next_fault w then None
          else Some {| host := match REDIS_HOST with
                               | Some h => h
                               | None => "redis"
                               end;
                       port := redis_port; db := 0 |}) ∧
       entries w' = entries w ∧
       trace w' = trace w ++ [EvPing]).
Proof.
  unfold module_setup, getenv_int. cbv zeta. split.
  - destruct REDIS_PORT as [s|].
    + destruct (python_int s) as [p|] eqn:Hs.
      * split; [done|]. intros (s' & [= <-] & Hs'). congruence.
      * split; [eauto|done].
    + split; [done|]. by intros (s & ? & _).
  - intros redis_port Hport.
    assert (Hp : match REDIS_PORT with
                 | Some s => python_int s
                 | None => Some 6379%Z
                 end = Some redis_port).
    { destruct Hport as [[-> ->]|(s & -> & Hs)]; done. }
    rewrite Hp.
    destruct (startup_outcome (default "redis" REDIS_HOST) redis_port w)
      as (w' & Hrun & Hen & Hcache & Hentries & Htrace).
    exists w'. rewrite Hrun. split; [done|]. split; [done|].
    split; [|done]. rewrite Hcache. by destruct REDIS_HOST.
Qed.

(** ** What the endpoints return, with a store written by this service *)

Lemma read_value_sound (t : string) (w : world) :
  store_sound w → read_value t w = PyNone ∨ is_embedding (read_value t w).
Proof.
  intros Hs. unfold read_value. destruct (cache_on w); [|by left].
  destruct (next_fault w); [by left|]. by apply stored_value_sound.
Qed.

Lemma after_write_sound (t : string) (emb : list F) (w : world) :
  pickle_sound → length emb = EMBEDDING_DIM →
  store_sound w → store_sound (after_write t emb w).
Proof.
  intros Hp Hemb Hs key payload expiry o Hk Hl.
  apply after_write_entries in Hk as [Hk|Hk]; [by apply (Hs _ _ _ _ Hk Hl)|].
  cbn in Hk. subst payload. destruct (Hp emb) as [_ Hrt].
  rewrite Hrt in Hl. injection Hl as <-. right. by exists emb.
Qed.

(** X11: with a store that holds only embeddings, what [embed] returns is
    the null embedding or a list whose length is the dimension that the
    health check reports; and with a sound serializer [embed] leaves the
    store in that state. *)
Theorem embed_vectors (data_text : string) (w w' : world) (r : response) :
  store_sound w →
  embed data_text w = (Ok r, w') →
  (embedding r = PyNone ∨
   ∃ v h, embedding r = PyList v ∧ health w' = (Ok h, w') ∧ length v = dim h) ∧
  (pickle_sound → store_sound w').
Proof.
  intros Hs. rewrite embed_run. unfold single_outcome.
  assert (Hdim : ∀ o, is_embedding o →
    ∃ v h, o = PyList v ∧ health w' = (Ok h, w') ∧ length v = dim h).
  { intros o (v & -> & Hv). by eexists v, _. }
  destruct (if str_truthy data_text then strip data_text else "") as [|c s].
  { intros [= <- <-]. split; [by left|done]. }
  cbv zeta. set (text := String c s).
  assert (Hs1 : store_sound (after_read text w)).
  { unfold store_sound. by rewrite (proj1 (after_read_entries text w)). }
  destruct (is_not_none (read_value text w)) eqn:Hhit.
  { intros [= <- <-]. split; [|done]. cbn [embedding].
    destruct (read_value_sound text w Hs) as [Hn|He]; [by left|].
    right. by apply Hdim. }
  destruct (next_answer w) as [[|vec vecs]|e]; [done| |done].
  destruct (checked vec) as [emb|] eqn:Hc.
  - intros [= <- <-]. apply checked_length in Hc. split.
    + right. apply Hdim. by exists emb.
    + intros Hp. by apply after_write_sound.
  - intros [= <- <-]. split; [by left|done].
Qed.

(** ** A batch warms the cache *)

Lemma after_write_other (t : string) (emb : list F) (w : world) (key : string) :
  key ≠ get_cache_key t →
  entries (after_write t emb w) !! key = entries w !! key.
Proof.
  intros Hne. unfold after_write. destruct (cache_on w); [|done].
  destruct (next_fault w); [done|]. cbn [entries set_entries].
  by rewrite lookup_insert_ne.
Qed.

Lemma after_write_healthy (t : string) (emb : list F) (w : world) :
  healthy w → healthy (after_write t emb w).
Proof. intros Hw. by destruct (after_write_fields t emb w Hw) as (? & ? & _). Qed.

Lemma write_back_healthy (ts : list string) :
  ∀ (rs : list pyobj) (vectors : list (option (list F))) (w : world),
    healthy w → healthy (write_back ts rs vectors w).
Proof.
  induction ts as [|t ts IH]; intros rs vectors w Hw; [done|].
  destruct rs as [|r rs]; [done|]. cbn.
  destruct (is_not_none r); [by apply IH|].
  destruct vectors as [|vec vectors]; [done|]. apply IH.
  destruct (checked vec); [by apply after_write_healthy|done].
Qed.

Lemma write_back_untouched (ts : list string) :
  ∀ (rs : list pyobj) (vectors : list (option (list F))) (w : world)
    (key : string),
    key ∉ get_cache_key <$> miss_texts ts rs →
    entries (write_back ts rs vectors w) !! key = entries w !! key.
Proof.
  induction ts as [|t ts IH]; intros rs vectors w key Hk; [done|].
  destruct rs as [|r rs]; [done|]. cbn in *.
  destruct (is_not_none r); [by apply IH|].
  destruct vectors as [|vec vectors]; [done|].
  cbn in Hk. apply not_elem_of_cons in Hk as [Hne Hk].
  rewrite IH by done. destruct (checked vec); [by apply after_write_other|done].
Qed.

(** A miss that received a valid vector has a fresh entry afterwards. *)
Lemma write_back_covers (ts : list string) :
  ∀ (rs : list pyobj) (vectors : list (option (list F))) (w : world)
    (i : nat) (t : string) (v : list F),
    healthy w →
    ts !! i = Some t → rs !! i = Some PyNone →
    vectors !! miss_rank rs i = Some (Some v) → length v = EMBEDDING_DIM →
    ∃ x, entries (write_back ts rs vectors w) !! get_cache_key t = Some x ∧
         fresh_entry (clock w) x.
Proof.
  induction ts as [|t0 ts IH]; intros rs vectors w i t v Hw Ht Hr Hv Hdim; [done|].
  destruct rs as [|r0 rs]; [done|]. destruct i as [|i].
  - injection Ht as ->. injection Hr as ->. rewrite miss_rank_0 in Hv.
    destruct vectors as [|vec vectors]; [done|]. injection Hv as ->.
    assert (Hck : checked (Some v) = Some v).
    { unfold checked, tolist. apply Nat.eqb_eq in Hdim. by rewrite Hdim. }
    cbn [write_back is_not_none]. rewrite Hck.
    destruct (after_write_fields t v w Hw) as (_ & _ & He & Hc).
    destruct (write_back_lookup ts rs vectors (after_write t v w)
                (get_cache_key t)) as [Hsame|(x & Hx & Hnew)].
    + rewrite Hsame, He, lookup_insert_eq. eexists. split; [done|]. by exists v.
    + exists x. split; [done|]. by rewrite Hc in Hnew.
  - cbn in Ht, Hr. rewrite miss_rank_S in Hv. cbn [write_back].
    destruct (is_not_none r0); [by apply (IH rs vectors w i t v)|].
    destruct vectors as [|vec vectors]; [done|]. cbn in Hv.
    destruct (checked vec) as [emb|]; [|by apply (IH rs vectors w i t v)].
    destruct (IH rs vectors (after_write t0 emb w) i t v) as (x & Hx & Hnew);
      try done; [by apply after_write_healthy|].
    exists x. split; [done|]. by rewrite after_write_clock in Hnew.
Qed.

(** With distinct keys among the misses, it is that very vector. *)
Lemma write_back_covers_exact (ts : list string) :
  ∀ (rs : list pyobj) (vectors : list (option (list F))) (w : world)
    (i : nat) (t : string) (v : list F),
    healthy w →
    NoDup (get_cache_key <$> miss_texts ts rs) →
    ts !! i = Some t → rs !! i = Some PyNone →
    vectors !! miss_rank rs i = Some (Some v) → length v = EMBEDDING_DIM →
    entries (write_back ts rs vectors w) !! get_cache_key t =
    Some (pickle_dumps v, clock w + CACHE_TTL).
Proof.
  induction ts as [|t0 ts IH];
    intros rs vectors w i t v Hw Hnd Ht Hr Hv Hdim; [done|].
  destruct rs as [|r0 rs]; [done|]. destruct i as [|i].
  - injection Ht as ->. injection Hr as ->. rewrite miss_rank_0 in Hv.
    destruct vectors as [|vec vectors]; [done|]. injection Hv as ->.
    cbn in Hnd. apply NoDup_cons in Hnd as [Hnotin _].
    assert (Hck : checked (Some v) = Some v).
    { unfold checked, tolist. apply Nat.eqb_eq in Hdim. by rewrite Hdim. }
    cbn [write_back is_not_none]. rewrite Hck.
    rewrite write_back_untouched by done.
    destruct (after_write_fields t v w Hw) as (_ & _ & He & _).
    by rewrite He, lookup_insert_eq.
  - cbn in Ht, Hr, Hnd. rewrite miss_rank_S in Hv. cbn [write_back].
    destruct (is_not_none r0); [by apply (IH rs vectors w i t v)|].
    destruct vectors as [|vec vectors]; [done|]. cbn in Hv, Hnd.
    apply NoDup_cons in Hnd as [_ Hnd].
    destruct (checked vec) as [emb|]; [|by apply (IH rs vectors w i t v)].
    rewrite (IH rs vectors (after_write t0 emb w) i t v); try done.
    + by rewrite after_write_clock.
    + by apply after_write_healthy.
Qed.

Lemma after_reads_healthy (ts : list string) (w : world) :
  healthy w → healthy (after_reads ts w).
Proof.
  revert w. induction ts as [|t ts IH]; intros w Hw; [done|].
  cbn. apply IH. by apply after_read_healthy.
Qed.

Lemma write_back_all_hits (ts : list string) :
  ∀ (rs : list pyobj) (vectors : list (option (list F))) (w : world),
    length ts = length rs → miss_texts ts rs = [] →
    write_back ts rs vectors w = w.
Proof.
  induction ts as [|t ts IH]; intros [|r rs] vectors w Hlen Hm; try done.
  injection Hlen as Hlen. cbn in *.
  destruct (is_not_none r); [by apply IH|done].
Qed.

(** On a healthy cache a batch that gets its answer ends in the world that
    the write-back leaves, started from a world with the store and the clock
    of the beginning. *)
Lemma embed_batch_healthy_run (data_texts : list string) (w : world)
    (vectors : list (option (list F))) :
  healthy w →
  (to_generate data_texts w ≠ [] → next_answer w = Ok vectors) →
  let cleaned := clean_text <$> data_texts in
  let rs := stored_value w <$> cleaned in
  ∃ w2,
    healthy w2 ∧ entries w2 = entries w ∧ clock w2 = clock w ∧
    embed_batch data_texts w =
    (Ok (merge rs vectors), write_back cleaned rs vectors w2).
Proof.
  intros Hw Ha cleaned rs.
  assert (Hrs : reads cleaned w = rs) by by apply reads_healthy.
  pose proof (after_reads_healthy cleaned w Hw) as Hw1.
  destruct (after_reads_entries cleaned w) as [He Hc].
  destruct (to_generate data_texts w) as [|m ms] eqn:Hm.
  - exists (after_reads cleaned w). split; [done|]. split; [done|]. split; [done|].
    rewrite (embed_batch_all_hits _ _ Hm). fold cleaned. rewrite Hrs.
    unfold to_generate in Hm. fold cleaned in Hm. rewrite Hrs in Hm.
    rewrite (merge_all_hits cleaned), (write_back_all_hits cleaned); try done;
      unfold rs; by rewrite length_fmap.
  - exists (after_encode (m :: ms) 12 8192 (after_reads cleaned w)).
    split; [done|]. split; [done|]. split; [done|].
    rewrite (embed_batch_answered data_texts w vectors);
      [|by rewrite Hm|by apply Ha].
    fold cleaned. by rewrite Hrs, Hm.
Qed.

Lemma stored_value_key (w : world) (t t' : string) :
  get_cache_key t = get_cache_key t' → stored_value w t = stored_value w t'.
Proof. intros Hk. unfold stored_value. by rewrite Hk. Qed.

Lemma stored_value_fresh (w : world) (t : string) (v : list F) (expiry : nat) :
  pickle_sound →
  entries w !! get_cache_key t = Some (pickle_dumps v, expiry) →
  clock w < expiry →
  stored_value w t = PyList v.
Proof.
  intros Hp Hk Hlive. unfold stored_value, live_payload. rewrite Hk.
  rewrite decide_True by done. destruct (Hp v) as [Hne ->].
  by destruct (pickle_dumps v).
Qed.

Lemma stored_value_kept (w w' : world) (t : string) (d : nat) :
  entries w' !! get_cache_key t = entries w !! get_cache_key t →
  clock w' = clock w + d →
  stays_alive w d →
  stored_value w t ≠ PyNone →
  stored_value w' t = stored_value w t.
Proof.
  intros He Hc Hlive Hhit. unfold stored_value, live_payload in *.
  rewrite He, Hc.
  destruct (entries w !! get_cache_key t) as [[payload expiry]|] eqn:Hk; [|done].
  destruct (decide (clock w < expiry)) as [Hlt|]; [|done].
  by rewrite (decide_True _ _ (Hlive _ payload expiry Hk Hlt)).
Qed.

Lemma miss_texts_missing (w : world) (ts : list string) (t : string) :
  t ∈ miss_texts ts (stored_value w <$> ts) → stored_value w t = PyNone.
Proof.
  rewrite miss_texts_filter, list_elem_of_In, List.filter_In.
  intros [_ Hm]. unfold missing in Hm. apply negb_true_iff in Hm.
  by apply is_not_none_false.
Qed.

(** After the write-back, a position that came out with a vector is served
    from the store. *)
Lemma warm_position (ts : list string) (vectors : list (option (list F)))
    (w : world) (d i : nat) (t : string) (o : pyobj) :
  healthy w → pickle_sound → stays_alive w d → d < CACHE_TTL →
  ts !! i = Some t →
  merge (stored_value w <$> ts) vectors !! i = Some o → o ≠ PyNone →
  let w' := elapse d (write_back ts (stored_value w <$> ts) vectors w) in
  stored_value w' t ≠ PyNone ∧
  (NoDup (get_cache_key <$> miss_texts ts (stored_value w <$> ts)) →
   stored_value w' t = o).
Proof.
  intros Hw Hp Hlive Hd Ht Ho Hne w'.
  set (rs := stored_value w <$> ts) in *.
  assert (Hr : rs !! i = Some (stored_value w t))
    by (unfold rs; by rewrite list_lookup_fmap, Ht).
  assert (Hclock : clock w' = clock w + d)
    by (unfold w'; cbn; by rewrite write_back_clock).
  assert (Hfresh : ∀ x v, entries w' !! get_cache_key t = Some x →
    x = (pickle_dumps v, clock w + CACHE_TTL) → stored_value w' t = PyList v).
  { intros x v Hx ->. apply (stored_value_fresh w' t v _ Hp Hx). lia. }
  rewrite (merge_lookup rs vectors i _ Hr) in Ho. injection Ho as Ho.
  destruct (is_not_none (stored_value w t)) eqn:Hhit.
  - subst o.
    assert (Huntouched : entries w' !! get_cache_key t = entries w !! get_cache_key t).
    { apply write_back_untouched. intros Hin.
      apply list_elem_of_fmap in Hin as (t' & Hk & Hin).
      apply miss_texts_missing in Hin.
      rewrite (stored_value_key w t t' Hk) in Hne. done. }
    rewrite (stored_value_kept w w' t d); done.
  - apply is_not_none_false in Hhit.
    destruct (vectors !! miss_rank rs i) as [vec|] eqn:Hvec; [|done].
    subst o. apply as_result_present in Hne as Hv. destruct Hv as (v & -> & Hdim).
    assert (Hres : as_result (Some v) = PyList v).
    { unfold as_result, checked, tolist. apply Nat.eqb_eq in Hdim.
      by rewrite Hdim. }
    rewrite Hhit in Hr. split.
    + destruct (write_back_covers ts rs vectors w i t v) as (x & Hx & v' & _ & ->);
        try done.
      by rewrite (Hfresh _ v' Hx eq_refl).
    + intros Hnd. rewrite Hres.
      apply (Hfresh (pickle_dumps v, clock w + CACHE_TTL) v); [|done].
      by apply write_back_covers_exact with (i := i).
Qed.

Lemma reads_all_hits (w : world) (ts : list string) :
  healthy w →
  (∀ t, t ∈ ts → stored_value w t ≠ PyNone) →
  miss_texts ts (reads ts w) = [].
Proof.
  intros Hw Hall. rewrite (reads_healthy ts w Hw), miss_texts_filter.
  induction ts as [|t ts IH]; [done|]. cbn. unfold missing at 1.
  assert (Ht : is_not_none (stored_value w t) = true).
  { apply is_not_none_true, Hall. by left. }
  rewrite Ht. cbn. apply IH. intros t' Hin. apply Hall. by right.
Qed.

(** X12: a batch warms the cache.  On a healthy cache with a sound
    serializer, when [embed_batch] has returned a vector at every position,
    running the same batch again while the entries are still alive sends
    nothing to the provider and again returns a vector at every position. *)
Theorem embed_batch_warms_cache (data_texts : list string) (w : world)
    (vectors : list (option (list F))) (d : nat) :
  healthy w → pickle_sound → stays_alive w d → d < CACHE_TTL →
  (to_generate data_texts w ≠ [] → next_answer w = Ok vectors) →
  ∃ res w',
    embed_batch data_texts w = (Ok res, w') ∧
    (Forall (λ o, o ≠ PyNone) res →
     ∃ res2 w2,
       embed_batch data_texts (elapse d w') = (Ok res2, w2) ∧
       provider_calls (trace w2) = provider_calls (trace w') ∧
       length res2 = length data_texts ∧
       Forall (λ o, o ≠ PyNone) res2).
Proof.
  intros Hw Hp Hlive Hd Ha.
  destruct (embed_batch_healthy_run data_texts w vectors Hw Ha)
    as (w0 & Hw0 & He0 & Hc0 & Hrun).
  cbv zeta in Hrun. set (cleaned := clean_text <$> data_texts) in *.
  assert (Hsv : stored_value w <$> cleaned = stored_value w0 <$> cleaned).
  { apply list_fmap_ext. intros _ t _. unfold stored_value, live_payload.
    by rewrite He0, Hc0. }
  rewrite Hsv in Hrun.
  assert (Hlive0 : stays_alive w0 d).
  { unfold stays_alive. by rewrite He0, Hc0. }
  eexists _, _. split; [exact Hrun|]. intros Hall.
  set (w' := write_back cleaned (stored_value w0 <$> cleaned) vectors w0).
  assert (Hw' : healthy (elapse d w')) by by apply write_back_healthy.
  assert (Hhits : ∀ t, t ∈ cleaned → stored_value (elapse d w') t ≠ PyNone).
  { intros t Hin. apply list_elem_of_lookup in Hin as [i Hi].
    assert (is_Some (merge (stored_value w0 <$> cleaned) vectors !! i))
      as [o Ho].
    { apply lookup_lt_is_Some. rewrite merge_length, length_fmap.
      by apply lookup_lt_Some in Hi. }
    assert (Hne : o ≠ PyNone).
    { by apply (proj1 (Forall_lookup _ _) Hall i o). }
    by destruct (warm_position cleaned vectors w0 d i t o). }
  assert (Hgen : to_generate data_texts (elapse d w') = []).
  { unfold to_generate. fold cleaned. by apply reads_all_hits. }
  eexists _, _. split; [by apply embed_batch_all_hits|].
  split; [exact (after_reads_provider_calls _ (elapse d w'))|]. fold cleaned.
  split; [unfold cleaned; by rewrite reads_length, length_fmap|].
  rewrite (reads_healthy cleaned _ Hw'). apply Forall_fmap, Forall_forall.
  intros t Hin. by apply Hhits.
Qed.

(** X13: and when the missing texts of the first run have pairwise
    distinct keys, the second run returns exactly the result of the
    first. *)
Theorem embed_batch_twice_same (data_texts : list string) (w : world)
    (vectors : list (option (list F))) (d : nat) :
  healthy w → pickle_sound → stays_alive w d → d < CACHE_TTL →
  (to_generate data_texts w ≠ [] → next_answer w = Ok vectors) →
  NoDup (get_cache_key <$> to_generate data_texts w) →
  ∃ res w',
    embed_batch data_texts w = (Ok res, w') ∧
    (Forall (λ o, o ≠ PyNone) res →
     ∃ w2, embed_batch data_texts (elapse d w') = (Ok res, w2)).
Proof.
  intros Hw Hp Hlive Hd Ha Hnd.
  destruct (embed_batch_healthy_run data_texts w vectors Hw Ha)
    as (w0 & Hw0 & He0 & Hc0 & Hrun).
  cbv zeta in Hrun. set (cleaned := clean_text <$> data_texts) in *.
  assert (Hsv : stored_value w <$> cleaned = stored_value w0 <$> cleaned).
  { apply list_fmap_ext. intros _ t _. unfold stored_value, live_payload.
    by rewrite He0, Hc0. }
  unfold to_generate in Hnd. fold cleaned in Hnd.
  rewrite (reads_healthy cleaned w Hw), Hsv in Hnd.
  rewrite Hsv in Hrun.
  assert (Hlive0 : stays_alive w0 d).
  { unfold stays_alive. by rewrite He0, Hc0. }
  eexists _, _. split; [exact Hrun|]. intros Hall.
  set (rs := stored_value w0 <$> cleaned) in *.
  set (w' := write_back cleaned rs vectors w0).
  assert (Hw' : healthy (elapse d w')) by by apply write_back_healthy.
  assert (Hpos : ∀ i t o, cleaned !! i = Some t →
    merge rs vectors !! i = Some o →
    stored_value (elapse d w') t ≠ PyNone ∧ stored_value (elapse d w') t = o).
  { intros i t o Hi Ho.
    assert (Hne : o ≠ PyNone) by by apply (proj1 (Forall_lookup _ _) Hall i o).
    destruct (warm_position cleaned vectors w0 d i t o) as [H1 H2]; try done.
    split; [done|]. by apply H2. }
  assert (Hgen : to_generate data_texts (elapse d w') = []).
  { unfold to_generate. fold cleaned. apply reads_all_hits; [done|].
    intros t Hin. apply list_elem_of_lookup in Hin as [i Hi].
    assert (is_Some (merge rs vectors !! i)) as [o Ho].
    { apply lookup_lt_is_Some. unfold rs. rewrite merge_length, length_fmap.
      by apply lookup_lt_Some in Hi. }
    by destruct (Hpos i t o). }
  eexists. rewrite (embed_batch_all_hits _ _ Hgen). fold cleaned.
  rewrite (reads_healthy cleaned _ Hw'). f_equal. f_equal.
  apply list_eq. intros i. rewrite list_lookup_fmap.
  destruct (cleaned !! i) as [t|] eqn:Hi; cbn.
  - assert (is_Some (merge rs vectors !! i)) as [o Ho].
    { apply lookup_lt_is_Some. unfold rs. rewrite merge_length, length_fmap.
      by apply lookup_lt_Some in Hi. }
    rewrite Ho. f_equal. by destruct (Hpos i t o).
  - symmetry. apply lookup_ge_None. unfold rs.
    rewrite merge_length, length_fmap. by apply lookup_ge_None in Hi.
Qed.

(** X16: a position that was a cache hit comes back with exactly the cached
    object, whatever the provider returned for the other positions. *)
Theorem embed_batch_hits_returned (data_texts : list string) (w w' : world)
    (res : list pyobj) (i : nat) (o : pyobj) :
  reads (clean_text <$> data_texts) w !! i = Some o →
  o ≠ PyNone →
  embed_batch data_texts w = (Ok res, w') →
  res !! i = Some o.
Proof.
  intros Hi Hne. rewrite embed_batch_run. unfold batch_outcome.
  destruct data_texts as [|t0 texts]; [done|]. cbv zeta.
  set (cleaned := clean_text <$> t0 :: texts) in *.
  destruct (miss_texts cleaned (reads cleaned w)) as [|m ms].
  { by intros [= <- _]. }
  destruct (next_answer w) as [vectors|e]; [|done].
  intros [= <- _]. pose proof (merge_lookup _ vectors i o Hi) as Hm.
  apply is_not_none_true in Hne. rewrite Hne in Hm. exact Hm.
Qed.

(** ** An unreachable server *)

Lemma reads_outage (ts : list string) :
  ∀ (w : world) (k : nat),
    cache_on w = true → faults w = replicate k true → length ts ≤ k →
    reads ts w = replicate (length ts) PyNone ∧
    cache_on (after_reads ts w) = true ∧
    faults (after_reads ts w) = replicate (k - length ts) true.
Proof.
  induction ts as [|t ts IH]; intros w k Hon Hf Hk.
  - cbn. by rewrite Nat.sub_0_r.
  - destruct k as [|k]; [cbn in Hk; lia|]. cbn [reads after_reads length replicate].
    assert (Hnow : read_value t w = PyNone).
    { unfold read_value, next_fault. by rewrite Hon, Hf. }
    destruct (IH (after_read t w) k) as (Hr & Hon' & Hf').
    + by rewrite after_read_cache_on.
    + unfold after_read. rewrite Hon. cbn. by rewrite Hf.
    + cbn in Hk. lia.
    + by rewrite Hnow, Hr.
Qed.

Lemma write_back_outage (ts : list string) :
  ∀ (rs : list pyobj) (vectors : list (option (list F))) (w : world) (k : nat),
    faults w = replicate k true → length ts ≤ k →
    entries (write_back ts rs vectors w) = entries w.
Proof.
  induction ts as [|t ts IH]; intros rs vectors w k Hf Hk; [done|].
  destruct rs as [|r rs]; [done|]. cbn [write_back].
  cbn in Hk. destruct k as [|k]; [lia|].
  assert (Hk' : length ts ≤ S k) by lia.
  destruct (is_not_none r); [by apply (IH rs vectors w (S k))|].
  destruct vectors as [|vec vectors]; [done|].
  destruct (checked vec) as [emb|]; [|by apply (IH rs vectors w (S k))].
  assert (He : entries (after_write t emb w) = entries w).
  { unfold after_write, next_fault. rewrite Hf. by destruct (cache_on w). }
  destruct (cache_on w) eqn:Hon.
  - rewrite (IH rs vectors (after_write t emb w) k); [done| |lia].
    unfold after_write, next_fault. rewrite Hon, Hf. cbn. by rewrite Hf.
  - rewrite (IH rs vectors (after_write t emb w) (S k)); [done| |lia].
    unfold after_write. by rewrite Hon.
Qed.

(** X24: a server that cannot be reached for the whole of a request costs
    nothing but the cache: [embed_batch] returns what the provider-only
    computation returns, and the store is left as it was. *)
Theorem embed_batch_outage (data_texts : list string) (w : world) (k : nat) :
  faults w = replicate k true →
  2 * length data_texts ≤ k →
  (embed_batch data_texts w).1 =
    (spec_provider_only (clean_text <$> data_texts) w).1 ∧
  entries (embed_batch data_texts w).2 = entries w.
Proof.
  intros Hf Hk. rewrite embed_batch_run. unfold batch_outcome.
  destruct data_texts as [|t0 texts]; [done|]. cbv zeta.
  remember (clean_text <$> t0 :: texts) as cleaned eqn:Hc.
  assert (Hlen : length cleaned = length (t0 :: texts))
    by (subst cleaned; by rewrite length_fmap).
  assert (Hreads : reads cleaned w = replicate (length cleaned) PyNone ∧
                   entries (after_reads cleaned w) = entries w ∧
                   ∃ k', faults (after_reads cleaned w) = replicate k' true ∧
                         length cleaned ≤ k').
  { destruct (cache_on w) eqn:Hon.
    - destruct (reads_outage cleaned w k Hon Hf) as (Hr & _ & Hf'); [lia|].
      split; [done|]. split; [apply after_reads_entries|].
      exists (k - length cleaned). split; [done|]. lia.
    - destruct (reads_disabled cleaned w Hon) as [Hr Hw]. rewrite Hw.
      split; [done|]. split; [done|]. exists k. split; [done|]. lia. }
  destruct Hreads as (-> & He & k' & Hf' & Hk').
  rewrite miss_texts_all. unfold spec_provider_only.
  destruct cleaned as [|c cs]; [done|].
  rewrite bind_run, model_encode_run.
  destruct (next_answer w) as [vectors|e]; cbn [fst snd].
  - split; [by rewrite merge_all_miss|].
    by rewrite (write_back_outage _ _ _ _ k').
  - by split.
Qed.

(** X25: a blank text is treated differently by the two endpoints: [embed]
    returns the null embedding and asks nobody, while [embed_batch] sends a
    single space to the provider and returns the vector it gets. *)
Theorem embed_batch_blank_differs (data_text : string) (w : world)
    (v : list F) (rest : list (option (list F))) :
  blank data_text = true →
  read_value " " w = PyNone →
  next_answer w = Ok (Some v :: rest) →
  length v = EMBEDDING_DIM →
  embed data_text w = (Ok (Response PyNone None), w) ∧
  (embed_batch [data_text] w).1 = Ok [PyList v] ∧
  provider_calls (trace (embed_batch [data_text] w).2) =
    provider_calls (trace w) ++ [[" "]].
Proof.
  intros Hb Hmiss Ha Hv. split.
  { apply strip_blank in Hb. unfold embed.
    destruct data_text as [|c s]; [done|]. cbn [str_truthy]. by rewrite Hb. }
  rewrite embed_batch_run. unfold batch_outcome. cbv zeta.
  cbn [fmap list_fmap reads miss_texts after_reads].
  rewrite (clean_text_blank _ Hb), Hmiss, Ha. cbn [is_not_none merge fst snd].
  assert (Hres : as_result (Some v) = PyList v).
  { unfold as_result, checked, tolist. apply Nat.eqb_eq in Hv. by rewrite Hv. }
  rewrite Hres. split; [done|].
  rewrite write_back_provider_calls, after_encode_provider_calls.
  by rewrite after_read_provider_calls.
Qed.

End Service.

(** * Examples

    The theorems above at concrete inputs, with the stand-ins of [Demo] for
    the pure collaborators. *)

#[local] Abbreviation demo_embed :=
  (embed byte Demo.digest Demo.dumps Demo.loads).
#[local] Abbreviation demo_embed_batch :=
  (embed_batch byte Demo.digest Demo.dumps Demo.loads).

Lemma demo_pickle_sound : pickle_sound byte Demo.dumps Demo.loads.
Proof. intros v. split; [discriminate|reflexivity]. Defined.

Lemma demo_vec_length (b : byte) : length (Demo.vec b) = EMBEDDING_DIM.
Proof. apply repeat_length. Defined.

Lemma demo_warm_store_sound (a : list (result (list (option (list byte))))) :
  store_sound byte Demo.loads (Demo.warm a).
Proof.
  intros key payload expiry o Hk Hl. cbn in Hk.
  apply lookup_singleton_Some in Hk as [_ [= <- _]].
  injection Hl as <-. right. exists (Demo.vec x01). split; [done|].
  apply demo_vec_length.
Defined.

#[local] Abbreviation demo_reads := (reads byte Demo.digest Demo.loads).
#[local] Abbreviation demo_to_generate := (to_generate byte Demo.digest Demo.loads).

(** The scenario of the spec, run: three texts go to the provider, three
    entries are written, and the result is aligned with the input. *)
Example demo_batch_run :
  ∃ w',
    demo_embed_batch Demo.batch
      (Demo.fresh [Ok [Some (Demo.vec x01); Some (Demo.vec x02); Some (Demo.vec x03)]])
    = (Ok [PyList (Demo.vec x01); PyList (Demo.vec x02); PyList (Demo.vec x03)], w') ∧
    provider_calls (trace w') = [["hello"; " "; "hello"]] ∧
    cache_writes (trace w') =
      [("emb:hello", Demo.dumps (Demo.vec x01)); ("emb: ", Demo.dumps (Demo.vec x02));
       ("emb:hello", Demo.dumps (Demo.vec x03))] ∧
    entries w' !! "emb:hello" = Some (Demo.dumps (Demo.vec x03), 3600).
Proof. eexists. split; [vm_compute; reflexivity|]. by vm_compute. Qed.

(** C1 as stated fails on a store that holds, under the key of ["hello"], a
    list of one float: the lookup at position 0 is a cache hit, and what
    comes back at position 0 is that list, which is no vector. *)
Lemma embed_batch_stale_hit_counterexample :
  ∃ res w',
    demo_embed_batch ["hello"] (Demo.stale []) = (Ok res, w') ∧
    length res = 1 ∧
    hit_at byte Demo.digest Demo.loads ["hello"] (Demo.stale []) 0 ∧
    res !! 0 = Some (PyList [x01]) ∧
    ¬ vector_at byte res 0.
Proof.
  eexists _, _. split; [vm_compute; reflexivity|]. split; [reflexivity|]. split.
  - exists (PyList [x01]). split; [reflexivity|discriminate].
  - split; [reflexivity|].
    intros (o & Ho & v & -> & Hv). injection Ho as <-.
    unfold EMBEDDING_DIM in Hv. cbn in Hv. lia.
Qed.

(** C1 as amended, at a batch with a hit, a miss with a valid provider
    vector and a miss with an invalid one. *)
Lemma embed_batch_vectors_aligned_witness :
  ∃ res w',
    demo_embed_batch ["hello"; ""; "x"]
      (Demo.warm [Ok [Some (Demo.vec x02); Some [x03]]]) = (Ok res, w') ∧
    length res = 3 ∧
    res !! 0 = Some (PyList (Demo.vec x01)) ∧
    res !! 1 = Some (PyList (Demo.vec x02)) ∧
    res !! 2 = Some PyNone.
Proof.
  pose proof (embed_batch_vectors_aligned byte Demo.digest Demo.dumps Demo.loads
                ["hello"; ""; "x"]
                (Demo.warm [Ok [Some (Demo.vec x02); Some [x03]]])
                [Some (Demo.vec x02); Some [x03]]
                (demo_warm_store_sound _) (λ _, eq_refl)) as H.
  cbv zeta in H. destruct H as (res & w' & Hrun & Hlen & Hpos).
  exists res, w'. split; [exact Hrun|]. split; [exact Hlen|].
  split; [|split].
  - destruct (Hpos 0) as (_ & Hhit & _); [cbn; lia|].
    rewrite Hhit; [reflexivity|].
    exists (PyList (Demo.vec x01)). split; [reflexivity|discriminate].
  - destruct (Hpos 1) as (_ & _ & Hvalid & _); [cbn; lia|].
    apply Hvalid; [reflexivity|reflexivity|apply demo_vec_length].
  - destruct (Hpos 2) as (_ & _ & _ & Hnone); [cbn; lia|].
    apply Hnone.
    + intros (o & Ho & Hne). vm_compute in Ho. injection Ho as <-. done.
    + intros (_ & v & Hv & Hdim). vm_compute in Hv. injection Hv as <-.
      unfold EMBEDDING_DIM in Hdim. cbn in Hdim. lia.
Defined.

(** C3 at the scenario of the spec: the empty text in the middle of the
    batch is looked up under the key of [" "], sent to the provider as
    [" "], and gets the provider's second vector. *)
Lemma embed_batch_blank_position_witness :
  ∃ res w',
    demo_embed_batch Demo.batch
      (Demo.fresh [Ok [Some (Demo.vec x01); Some (Demo.vec x02);
                       Some (Demo.vec x03)]]) = (Ok res, w') ∧
    demo_embed_batch ["hello"; " "; "hello"]
      (Demo.fresh [Ok [Some (Demo.vec x01); Some (Demo.vec x02);
                       Some (Demo.vec x03)]]) = (Ok res, w') ∧
    length res = 3 ∧
    trace w' !! 1 = Some (EvGet "emb: ") ∧
    (∃ misses, provider_calls (trace w') = [misses] ∧ misses !! 1 = Some " ") ∧
    res !! 1 = Some (PyList (Demo.vec x02)).
Proof.
  pose proof (embed_batch_blank_position byte Demo.digest Demo.dumps Demo.loads
                Demo.batch
                (Demo.fresh [Ok [Some (Demo.vec x01); Some (Demo.vec x02);
                                 Some (Demo.vec x03)]])
                [Some (Demo.vec x01); Some (Demo.vec x02); Some (Demo.vec x03)]
                1 "" eq_refl eq_refl (λ _, eq_refl)) as H.
  cbv zeta in H.
  destruct H as (res & w' & Hrun & Hspace & Hlen & _ & _ & Hget & _ & Hmiss).
  destruct (Hmiss eq_refl) as [Hcall Hvec].
  exists res, w'. split; [exact Hrun|]. split; [exact Hspace|].
  split; [exact Hlen|]. split; [exact (Hget eq_refl)|].
  split; [exact Hcall|].
  apply Hvec; [reflexivity|apply demo_vec_length].
Defined.

(** C4 at a whitespace-only text. *)
Lemma embed_blank_short_circuit_witness :
  demo_embed "  " (Demo.warm []) = (Ok (Response byte PyNone None), Demo.warm []).
Proof.
  apply (embed_blank_short_circuit byte Demo.digest Demo.dumps Demo.loads).
  reflexivity.
Defined.

(** C5 at the scenario of the spec: a batch of three, all missing, where the
    provider returns a vector of length [EMBEDDING_DIM - 1] for the second
    text. *)
Lemma embed_batch_invalid_vector_witness :
  ∃ res w',
    demo_embed_batch Demo.abc
      (Demo.fresh [Ok [Some (Demo.vec x01); Some (Demo.short_vec x02);
                       Some (Demo.vec x03)]]) = (Ok res, w') ∧
    res !! 1 = Some PyNone ∧
    ∀ key payload expiry, entries w' !! key = Some (payload, expiry) →
      ∃ v, length v = EMBEDDING_DIM ∧ payload = Demo.dumps v.
Proof.
  destruct (embed_batch_invalid_vector byte Demo.digest Demo.dumps Demo.loads
              Demo.abc
              (Demo.fresh [Ok [Some (Demo.vec x01); Some (Demo.short_vec x02);
                               Some (Demo.vec x03)]])
              [Some (Demo.vec x01); Some (Demo.short_vec x02); Some (Demo.vec x03)]
              1)
    as (res & w' & Hrun & Hnone & _ & Hstore & _).
  - reflexivity.
  - reflexivity.
  - intros v Hv. vm_compute in Hv. injection Hv as <-.
    apply Nat.eqb_neq. vm_compute. reflexivity.
  - exists res, w'. split; [exact Hrun|]. split; [exact Hnone|].
    intros key payload expiry Hx.
    destruct (Hstore key payload expiry Hx) as [Hold|Hnew]; [|exact Hnew].
    vm_compute in Hold. discriminate Hold.
Defined.

(** C6 at a store holding a payload that does not deserialize, and at a
    server that drops the write. *)
Lemma cache_adapter_total_witness :
  (get_cached_embedding byte Demo.digest Demo.loads "x" Demo.corrupt).1 = Ok PyNone ∧
  ∃ w', cache_embedding byte Demo.digest Demo.dumps "x" (Demo.vec x01) Demo.flaky
        = (Ok tt, w') ∧
        entries w' = entries Demo.flaky.
Proof.
  split.
  - apply (cache_adapter_total byte Demo.digest Demo.dumps Demo.loads
             "x" (Demo.vec x01) Demo.corrupt).
    right. right. right. exists [x00], 3600, UnpicklingError.
    split; reflexivity.
  - destruct (cache_adapter_total byte Demo.digest Demo.dumps Demo.loads
                "x" (Demo.vec x01) Demo.flaky)
      as (_ & _ & w' & Hrun & _ & Hfault).
    exists w'. split; [exact Hrun|]. apply Hfault. reflexivity.
Defined.

(** C7 as stated fails on an empty text: both requests return the null
    embedding, so the second is no cache hit, although the cache is healthy,
    the provider stands ready with a valid vector, and the second request
    comes one second after the first. *)
Lemma embed_twice_blank_counterexample :
  healthy byte (Demo.fresh [Ok [Some (Demo.vec x01)]]) ∧
  pickle_sound byte Demo.dumps Demo.loads ∧
  within_ttl byte Demo.digest "" (Demo.fresh [Ok [Some (Demo.vec x01)]]) 1 ∧
  ¬ resolved_once byte Demo.digest Demo.dumps Demo.loads ""
      (Demo.fresh [Ok [Some (Demo.vec x01)]]) 1.
Proof.
  split; [done|]. split; [exact demo_pickle_sound|]. split.
  - split; [unfold CACHE_TTL; lia|]. intros payload expiry Hx.
    vm_compute in Hx. discriminate Hx.
  - intros (r1 & w1 & r2 & w2 & H1 & H2 & Hc & _).
    vm_compute in H1. injection H1 as <- <-.
    vm_compute in H2. injection H2 as <- <-.
    discriminate Hc.
Qed.

(** The other way for C7 as stated to fail: a provider that returns a vector
    of the wrong length is asked again by the second request. *)
Example embed_twice_invalid_output :
  ∃ r1 w1 r2 w2,
    demo_embed "x" (Demo.fresh [Ok [Some [x01]]; Ok [Some [x01]]]) = (Ok r1, w1) ∧
    demo_embed "x" (elapse byte 1 w1) = (Ok r2, w2) ∧
    provider_calls (trace w2) = [["x"]; ["x"]].
Proof. eexists _, _, _, _. repeat split; vm_compute; reflexivity. Qed.

(** C7 as amended, at a text that needs trimming and an empty store. *)
Lemma embed_twice_hits_cache_witness :
  resolved_once byte Demo.digest Demo.dumps Demo.loads " hello "
    (Demo.fresh [Ok [Some (Demo.vec x01)]]) 60.
Proof.
  apply (embed_twice_hits_cache byte Demo.digest Demo.dumps Demo.loads).
  - done.
  - exact demo_pickle_sound.
  - split; [unfold CACHE_TTL; lia|]. intros payload expiry Hx.
    vm_compute in Hx. discriminate Hx.
  - eexists _, _. split; [vm_compute; reflexivity|]. discriminate.
Defined.

(** C8 at a process whose probe failed. *)
Lemma embed_batch_without_cache_witness :
  let w := set_answers [Ok [Some (Demo.vec x01); None; Some (Demo.vec x03)]]
             (startup byte "redis" 6379 Demo.cold).2 in
  demo_embed_batch Demo.batch w =
  spec_provider_only byte (clean_text <$> Demo.batch) w.
Proof.
  intros w.
  apply (embed_batch_without_cache byte Demo.digest Demo.dumps Demo.loads
           "redis" 6379 Demo.cold w Demo.batch); reflexivity.
Defined.

(** C9 at the scenario of the spec: ["hello"], the empty text and ["hello"]
    again, with an empty cache. *)
Lemma embed_batch_no_dedup_witness :
  ∃ res w',
    demo_embed_batch Demo.batch
      (Demo.fresh [Ok (Some <$> [Demo.vec x01; Demo.vec x02; Demo.vec x03])])
    = (Ok res, w') ∧
    provider_calls (trace w') = [["hello"; " "; "hello"]] ∧
    cache_writes (trace w') =
      [("emb:hello", Demo.dumps (Demo.vec x01)); ("emb: ", Demo.dumps (Demo.vec x02));
       ("emb:hello", Demo.dumps (Demo.vec x03))] ∧
    length res = 3.
Proof.
  destruct (embed_batch_no_dedup byte Demo.digest Demo.dumps Demo.loads
              Demo.batch
              (Demo.fresh [Ok (Some <$> [Demo.vec x01; Demo.vec x02; Demo.vec x03])])
              [Demo.vec x01; Demo.vec x02; Demo.vec x03])
    as (res & w' & Hrun & Hcalls & Hwrites & Hlen & _).
  - done.
  - reflexivity.
  - repeat constructor; apply demo_vec_length.
  - reflexivity.
  - exists res, w'. split; [exact Hrun|].
    split; [exact Hcalls|]. split; [exact Hwrites|exact Hlen].
Defined.

(** C10 at a provider that returns one vector for three misses. *)
Lemma embed_batch_length_mismatch_witness :
  ∃ res w',
    demo_embed_batch Demo.abc (Demo.fresh [Ok [Some (Demo.vec x01)]]) = (Ok res, w') ∧
    res !! 1 = Some PyNone ∧ res !! 2 = Some PyNone.
Proof.
  destruct (embed_batch_length_mismatch byte Demo.digest Demo.dumps Demo.loads
              Demo.abc (Demo.fresh [Ok [Some (Demo.vec x01)]])
              [Some (Demo.vec x01)] eq_refl)
    as (res & w' & _ & Hrun & _ & Hshort & _).
  exists res, w'. split; [exact Hrun|].
  split; apply Hshort; try reflexivity; vm_compute; lia.
Defined.

(** C10 at a provider that returns three vectors for one miss. *)
Example embed_batch_surplus_ignored :
  (demo_embed_batch ["a"]
     (Demo.fresh [Ok [Some (Demo.vec x01); Some (Demo.vec x02); Some (Demo.vec x03)]])).1
  = Ok [PyList (Demo.vec x01)].
Proof. vm_compute. reflexivity. Qed.

(** ** Further properties at concrete inputs *)

(** X3 at a text that needs trimming and is in the store. *)
Lemma embed_cache_hit_witness :
  ∃ w',
    demo_embed " hello " (Demo.warm []) =
      (Ok (Response byte (PyList (Demo.vec x01)) (Some true)), w') ∧
    entries w' = entries (Demo.warm []) ∧
    provider_calls (trace w') = [].
Proof.
  destruct (embed_cache_hit byte Demo.digest Demo.dumps Demo.loads
              " hello " (Demo.warm []))
    as (w' & Hrun & He & _ & Hcalls & _).
  - reflexivity.
  - vm_compute. discriminate.
  - exists w'. split; [exact Hrun|]. split; [exact He|exact Hcalls].
Defined.

(** X4 at a provider that returns a vector one element short. *)
Lemma embed_invalid_vector_witness :
  ∃ w',
    demo_embed "x" (Demo.fresh [Ok [Some (Demo.short_vec x01)]]) =
      (Ok (Response byte PyNone None), w') ∧
    entries w' = ∅.
Proof.
  destruct (embed_invalid_vector byte Demo.digest Demo.dumps Demo.loads
              "x" (Demo.fresh [Ok [Some (Demo.short_vec x01)]])
              (Some (Demo.short_vec x01)) [])
    as (w' & Hrun & He & _).
  - reflexivity.
  - reflexivity.
  - reflexivity.
  - intros v [= <-]. apply Nat.eqb_neq. vm_compute. reflexivity.
  - exists w'. split; [exact Hrun|exact He].
Defined.

(** X5 at a provider that returns no vector. *)
Lemma embed_empty_answer_witness :
  (demo_embed "x" (Demo.fresh [Ok []])).1 = Raise IndexError ∧
  (demo_embed_batch ["x"] (Demo.fresh [Ok []])).1 = Ok [PyNone].
Proof.
  apply (embed_empty_answer byte Demo.digest Demo.dumps Demo.loads
           "x" (Demo.fresh [Ok []])); reflexivity.
Defined.

(** X6 at a batch with one hit and two misses, and a provider that times
    out. *)
Lemma embed_batch_provider_failure_witness :
  ∃ w',
    demo_embed_batch ["hello"; "a"; "b"]
      (Demo.warm [Raise (ProviderError "timeout")]) =
      (Raise (ProviderError "timeout"), w') ∧
    entries w' = entries (Demo.warm [Raise (ProviderError "timeout")]) ∧
    provider_calls (trace w') = [["a"; "b"]].
Proof.
  destruct (embed_batch_provider_failure byte Demo.digest Demo.dumps Demo.loads
              ["hello"; "a"; "b"] (Demo.warm [Raise (ProviderError "timeout")])
              (ProviderError "timeout"))
    as (w' & Hrun & He & _ & Hcalls).
  - vm_compute. discriminate.
  - reflexivity.
  - exists w'. split; [exact Hrun|]. split; [exact He|exact Hcalls].
Defined.

(** X7 at a text that the provider has to embed. *)
Lemma embed_batch_singleton_witness :
  ∃ w2,
    demo_embed_batch [" hello "] (Demo.fresh [Ok [Some (Demo.vec x01)]]) =
      (Ok [PyList (Demo.vec x01)], w2) ∧
    entries w2 !! "emb:hello" = Some (Demo.dumps (Demo.vec x01), 3600).
Proof.
  destruct (embed_batch_singleton byte Demo.digest Demo.dumps Demo.loads
              " hello " (Demo.fresh [Ok [Some (Demo.vec x01)]])
              (demo_embed " hello " (Demo.fresh [Ok [Some (Demo.vec x01)]])).2
              (Response byte (PyList (Demo.vec x01)) (Some false)))
    as (w2 & Hrun & He & _).
  - reflexivity.
  - vm_compute. reflexivity.
  - exists w2. split; [exact Hrun|]. rewrite He. vm_compute. reflexivity.
Defined.

(** X9 at a write over the entry that the store holds for ["hello"], read
    back one second before the hour is over. *)
Lemma cache_round_trip_witness :
  ∃ w1,
    cache_embedding byte Demo.digest Demo.dumps "hello" (Demo.vec x07)
      (Demo.warm []) = (Ok tt, w1) ∧
    trace w1 = [EvSetex "emb:hello" 3600 (Demo.dumps (Demo.vec x07))] ∧
    (get_cached_embedding byte Demo.digest Demo.loads "hello"
       (elapse byte 3599 w1)).1 = Ok (PyList (Demo.vec x07)).
Proof.
  apply (cache_round_trip byte Demo.digest Demo.dumps Demo.loads
           "hello" (Demo.vec x07) (Demo.warm []) 3599);
    [done|exact demo_pickle_sound|unfold CACHE_TTL; lia].
Defined.

(** X10 at a port given as ["6380"], with the host left to its default and
    a server that cannot be reached; and at a port that is no number. *)
Lemma module_setup_outcome_witness :
  (∃ w',
     module_setup byte Demo.int_of None (Some "6380") Demo.cold = Some (Ok tt, w') ∧
     CACHE_ENABLED w' = false ∧
     cache w' = None ∧
     trace w' = [EvPing]) ∧
  module_setup byte Demo.int_of (Some "localhost") (Some "six") (Demo.fresh []) = None.
Proof.
  destruct (module_setup_outcome byte Demo.int_of None (Some "6380") Demo.cold)
    as [_ Hruns].
  destruct (module_setup_outcome byte Demo.int_of (Some "localhost") (Some "six")
              (Demo.fresh [])) as [Hfails _].
  split.
  - destruct (Hruns 6380%Z) as (w' & Hrun & Hen & Hcache & _ & Htrace).
    + right. exists "6380". split; reflexivity.
    + exists w'. split; [exact Hrun|]. split; [exact Hen|].
      split; [exact Hcache|exact Htrace].
  - apply Hfails. exists "six". split; reflexivity.
Defined.

(** The defaults of the cache setup: nothing set, and a server that
    answers. *)
Example module_setup_defaults :
  module_setup byte Demo.int_of None None (World false None ∅ 0 [] [] []) =
  Some (Ok tt, World true (Some Demo.client) ∅ 0 [] [] [EvPing]).
Proof. reflexivity. Qed.

(** X11 at a cache hit. *)
Lemma embed_vectors_witness :
  (embedding byte (Response byte (PyList (Demo.vec x01)) (Some true)) = PyNone ∨
   ∃ v h,
     embedding byte (Response byte (PyList (Demo.vec x01)) (Some true)) = PyList v ∧
     health byte (demo_embed "hello" (Demo.warm [])).2 =
       (Ok h, (demo_embed "hello" (Demo.warm [])).2) ∧
     length v = dim h) ∧
  (pickle_sound byte Demo.dumps Demo.loads →
   store_sound byte Demo.loads (demo_embed "hello" (Demo.warm [])).2).
Proof.
  apply (embed_vectors byte Demo.digest Demo.dumps Demo.loads
           "hello" (Demo.warm [])).
  - apply demo_warm_store_sound.
  - vm_compute. reflexivity.
Defined.

Lemma demo_fresh_stays_alive (a : list (result (list (option (list byte)))))
    (d : nat) :
  stays_alive byte (Demo.fresh a) d.
Proof. intros key payload expiry Hk. cbn in Hk. by rewrite lookup_empty in Hk. Defined.

(** X12 at the batch with a repeated text, run again a minute later. *)
Lemma embed_batch_warms_cache_witness :
  ∃ w' res2 w2,
    demo_embed_batch Demo.batch
      (Demo.fresh [Ok [Some (Demo.vec x01); Some (Demo.vec x02); Some (Demo.vec x03)]])
    = (Ok [PyList (Demo.vec x01); PyList (Demo.vec x02); PyList (Demo.vec x03)], w') ∧
    demo_embed_batch Demo.batch (elapse byte 60 w') = (Ok res2, w2) ∧
    provider_calls (trace w2) = provider_calls (trace w') ∧
    length res2 = 3.
Proof.
  destruct (embed_batch_warms_cache byte Demo.digest Demo.dumps Demo.loads
              Demo.batch
              (Demo.fresh [Ok [Some (Demo.vec x01); Some (Demo.vec x02);
                               Some (Demo.vec x03)]])
              [Some (Demo.vec x01); Some (Demo.vec x02); Some (Demo.vec x03)] 60)
    as (res & w' & Hrun & Hnext).
  - done.
  - exact demo_pickle_sound.
  - apply demo_fresh_stays_alive.
  - unfold CACHE_TTL. lia.
  - intros _. reflexivity.
  - assert (Hres : res = [PyList (Demo.vec x01); PyList (Demo.vec x02);
                          PyList (Demo.vec x03)]).
    { assert (Hfst : (demo_embed_batch Demo.batch
        (Demo.fresh [Ok [Some (Demo.vec x01); Some (Demo.vec x02);
                         Some (Demo.vec x03)]])).1 = Ok res) by by rewrite Hrun.
      vm_compute in Hfst. injection Hfst as <-. vm_compute. reflexivity. }
    subst res. destruct Hnext as (res2 & w2 & Hrun2 & Hcalls & Hlen & _).
    { repeat constructor; discriminate. }
    exists w', res2, w2. split; [exact Hrun|]. split; [exact Hrun2|].
    split; [exact Hcalls|exact Hlen].
Defined.

(** X13 at three distinct texts. *)
Lemma embed_batch_twice_same_witness :
  ∃ w' w2,
    demo_embed_batch Demo.abc
      (Demo.fresh [Ok [Some (Demo.vec x01); Some (Demo.vec x02); Some (Demo.vec x03)]])
    = (Ok [PyList (Demo.vec x01); PyList (Demo.vec x02); PyList (Demo.vec x03)], w') ∧
    demo_embed_batch Demo.abc (elapse byte 60 w')
    = (Ok [PyList (Demo.vec x01); PyList (Demo.vec x02); PyList (Demo.vec x03)], w2).
Proof.
  destruct (embed_batch_twice_same byte Demo.digest Demo.dumps Demo.loads
              Demo.abc
              (Demo.fresh [Ok [Some (Demo.vec x01); Some (Demo.vec x02);
                               Some (Demo.vec x03)]])
              [Some (Demo.vec x01); Some (Demo.vec x02); Some (Demo.vec x03)] 60)
    as (res & w' & Hrun & Hnext).
  - done.
  - exact demo_pickle_sound.
  - apply demo_fresh_stays_alive.
  - unfold CACHE_TTL. lia.
  - intros _. reflexivity.
  - apply (bool_decide_unpack _). vm_compute. exact I.
  - assert (Hres : res = [PyList (Demo.vec x01); PyList (Demo.vec x02);
                          PyList (Demo.vec x03)]).
    { assert (Hfst : (demo_embed_batch Demo.abc
        (Demo.fresh [Ok [Some (Demo.vec x01); Some (Demo.vec x02);
                         Some (Demo.vec x03)]])).1 = Ok res) by by rewrite Hrun.
      vm_compute in Hfst. injection Hfst as <-. vm_compute. reflexivity. }
    subst res. destruct Hnext as (w2 & Hrun2).
    { repeat constructor; discriminate. }
    exists w', w2. split; [exact Hrun|exact Hrun2].
Defined.

(** X14 at a batch with one hit and one invalid provider vector. *)
Lemma embed_batch_vectors_witness :
  ∃ res w',
    demo_embed_batch Demo.batch
      (Demo.warm [Ok [Some (Demo.vec x02); Some [x03]]]) = (Ok res, w') ∧
    Forall (λ o, o = PyNone ∨ is_embedding byte o) res.
Proof.
  apply (embed_batch_vectors byte Demo.digest Demo.dumps Demo.loads
           Demo.batch (Demo.warm [Ok [Some (Demo.vec x02); Some [x03]]])
           [Some (Demo.vec x02); Some [x03]]).
  - apply demo_warm_store_sound.
  - intros _. reflexivity.
Defined.

(** X15 at the same batch. *)
Lemma embed_batch_keeps_store_sound_witness :
  store_sound byte Demo.loads
    (demo_embed_batch Demo.batch
       (Demo.warm [Ok [Some (Demo.vec x02); Some [x03]]])).2.
Proof.
  apply (embed_batch_keeps_store_sound byte Demo.digest Demo.dumps Demo.loads).
  - exact demo_pickle_sound.
  - apply demo_warm_store_sound.
Defined.

(** X16 at a batch whose first text is in the store, with a provider that
    returns something for the second. *)
Lemma embed_batch_hits_returned_witness :
  ∃ res w',
    demo_embed_batch ["hello"; "x"] (Demo.warm [Ok [Some (Demo.vec x02)]])
    = (Ok res, w') ∧
    res !! 0 = Some (PyList (Demo.vec x01)).
Proof.
  destruct (demo_embed_batch ["hello"; "x"] (Demo.warm [Ok [Some (Demo.vec x02)]]))
    as [[res|e] w'] eqn:Hrun.
  - exists res, w'. split; [reflexivity|].
    apply (embed_batch_hits_returned byte Demo.digest Demo.dumps Demo.loads
             ["hello"; "x"] (Demo.warm [Ok [Some (Demo.vec x02)]]) w' res 0
             (PyList (Demo.vec x01))).
    + vm_compute. reflexivity.
    + discriminate.
    + exact Hrun.
  - vm_compute in Hrun. discriminate Hrun.
Defined.

(** X24 at a batch of two and a server that drops four commands. *)
Lemma embed_batch_outage_witness :
  (demo_embed_batch ["hello"; "x"]
     (set_faults [true; true; true; true]
        (Demo.warm [Ok [Some (Demo.vec x02); Some (Demo.vec x03)]]))).1 =
  (spec_provider_only byte ["hello"; "x"]
     (set_faults [true; true; true; true]
        (Demo.warm [Ok [Some (Demo.vec x02); Some (Demo.vec x03)]]))).1 ∧
  entries (demo_embed_batch ["hello"; "x"]
     (set_faults [true; true; true; true]
        (Demo.warm [Ok [Some (Demo.vec x02); Some (Demo.vec x03)]]))).2 =
  entries (Demo.warm [Ok [Some (Demo.vec x02); Some (Demo.vec x03)]]).
Proof.
  apply (embed_batch_outage byte Demo.digest Demo.dumps Demo.loads
           ["hello"; "x"]
           (set_faults [true; true; true; true]
              (Demo.warm [Ok [Some (Demo.vec x02); Some (Demo.vec x03)]])) 4).
  - reflexivity.
  - cbn. lia.
Defined.

(** X25 at a whitespace-only text. *)
Lemma embed_batch_blank_differs_witness :
  demo_embed "  " (Demo.fresh [Ok [Some (Demo.vec x01)]]) =
    (Ok (Response byte PyNone None), Demo.fresh [Ok [Some (Demo.vec x01)]]) ∧
  (demo_embed_batch ["  "] (Demo.fresh [Ok [Some (Demo.vec x01)]])).1 =
    Ok [PyList (Demo.vec x01)] ∧
  provider_calls
    (trace (demo_embed_batch ["  "] (Demo.fresh [Ok [Some (Demo.vec x01)]])).2) =
    [[" "]].
Proof.
  apply (embed_batch_blank_differs byte Demo.digest Demo.dumps Demo.loads
           "  " (Demo.fresh [Ok [Some (Demo.vec x01)]]) (Demo.vec x01) []);
    reflexivity.
Defined.

(** * Slide-text extraction: properties *)

Module PptExtractorFacts.
Import PptExtractor.

Lemma collect_runs_app (shapes : list shape) :
  ∀ acc, collect_runs shapes acc = acc ++ collect_runs shapes [].
Proof.
  induction shapes as [|sh shapes IH]; intros acc; [by rewrite app_nil_r|].
  cbn. destruct sh as [text|]; [|apply IH].
  destruct (str_truthy text); [|apply IH].
  rewrite (IH (acc ++ [strip text])), (IH [strip text]). by rewrite app_assoc.
Qed.

Lemma collect_slides_app (its : list (nat * slide)) :
  ∀ acc, collect_slides its acc = acc ++ collect_slides its [].
Proof.
  induction its as [|[i s] its IH]; intros acc; [by rewrite app_nil_r|].
  cbn. destruct (str_truthy (slide_content s)); [|apply IH].
  rewrite (IH (acc ++ _)), (IH [_]). by rewrite app_assoc.
Qed.

Lemma str_truthy_ne (s : string) : str_truthy s = true ↔ s ≠ "".
Proof. by destruct s. Qed.

Lemma collect_slides_elem (slides : list slide) (n : nat) (block : string) :
  block ∈ collect_slides (zip (seq n (length slides)) slides) [] ↔
  ∃ i s, slides !! i = Some s ∧ slide_content s ≠ "" ∧
         block = slide_block (n + i) (slide_content s).
Proof.
  revert n. induction slides as [|s0 slides IH]; intros n.
  - cbn. split; [by intros ?%elem_of_nil|]. by intros (i & s & ? & _).
  - cbn [length seq zip zip_with collect_slides].
    assert (Hrest : block ∈ collect_slides (zip (seq (S n) (length slides)) slides) [] ↔
      ∃ i s, (s0 :: slides) !! S i = Some s ∧ slide_content s ≠ "" ∧
             block = slide_block (n + S i) (slide_content s)).
    { rewrite IH. by setoid_rewrite Nat.add_succ_r. }
    destruct (str_truthy (slide_content s0)) eqn:Hc.
    + rewrite collect_slides_app. cbn [app]. rewrite elem_of_cons, Hrest.
      apply str_truthy_ne in Hc. split.
      * intros [->|(i & s & ?)]; [|by exists (S i), s].
        exists 0, s0. by rewrite Nat.add_0_r.
      * intros ([|i] & s & Hi & Hne & ->); [|right; by exists i, s].
        injection Hi as <-. left. by rewrite Nat.add_0_r.
    + rewrite Hrest. split.
      * intros (i & s & ?). by exists (S i), s.
      * intros ([|i] & s & Hi & Hne & ->); [|by exists i, s].
        injection Hi as <-. apply str_truthy_ne in Hne. congruence.
Qed.

Lemma slide_block_head (i : nat) (c : string) :
  ∃ r, slide_block i c = String "S" r.
Proof. by eexists. Qed.

Lemma join_head (sep : string) (x : string) (rest : list string) (c : ascii)
    (r : string) :
  x = String c r → ∃ r', join sep (x :: rest) = String c r'.
Proof. intros ->. cbn. destruct rest; by eexists. Qed.

(** X17: the caller can tell failure from success either way.  Whatever the
    arguments and the machine, the script writes something, exits with 0 or
    1, and exits with 0 exactly when what it wrote does not start with
    ["ERROR: "]. *)
Theorem main_exit_status (e : env) (argv : list string) :
  ((main e argv).2 = 0 ∨ (main e argv).2 = 1)%Z ∧
  ((main e argv).2 = 0%Z ↔ String.prefix "ERROR: " (main e argv).1 = false) ∧
  (main e argv).1 ≠ "".
Proof.
  assert (Hfail : ∀ rest, let r := ("ERROR: " +:+ rest, 1%Z) in
    (r.2 = 0 ∨ r.2 = 1)%Z ∧
    (r.2 = 0%Z ↔ String.prefix "ERROR: " r.1 = false) ∧ r.1 ≠ "").
  { intros rest r. unfold r. cbn [fst snd].
    assert (Hpre : String.prefix "ERROR: " ("ERROR: " +:+ rest) = true)
      by by destruct rest.
    rewrite Hpre. split; [by right|]. split; [by split|discriminate]. }
  pose proof (Hfail ("No input file" +:+ nl)) as Hargs.
  pose proof (Hfail ("python-pptx not installed. Run: pip install python-pptx"
                     +:+ nl)) as Himport.
  pose proof (Hfail ("File not found" +:+ nl)) as Hmissing.
  unfold main.
  destruct argv as [|a0 [|pptx_path rest]]; [exact Hargs..|].
  unfold extract_pptx_text.
  destruct (pptx_importable e); [|exact Himport]. cbn [negb].
  destruct (path_exists e pptx_path); [|exact Hmissing]. cbn [negb].
  destruct (Presentation e pptx_path) as [slides|[msg|msg]];
    [|exact Himport|exact (Hfail (msg +:+ nl))].
  cbv zeta.
  destruct (collect_slides (zip (seq 0 (length slides)) slides) [])
    as [|b bs] eqn:Hblocks.
  { cbn [seq_truthy fst snd]. split; [by left|]. split; [by split|discriminate]. }
  cbn [seq_truthy fst snd].
  assert (Hb : b ∈ collect_slides (zip (seq 0 (length slides)) slides) [])
    by (rewrite Hblocks; by left).
  apply collect_slides_elem in Hb as (i & s & _ & _ & Hb).
  destruct (slide_block_head (0 + i) (slide_content s)) as [r Hr].
  rewrite Hr in Hb.
  destruct (join_head (nl +:+ nl) b bs _ r Hb) as [r' ->].
  split; [by left|]. split; [by split|discriminate].
Qed.

Lemma blank_app (a b : string) : blank (a +:+ b) = blank a && blank b.
Proof.
  induction a as [|c a IH]; [done|].
  change (blank (String c a +:+ b)) with (isspace c && blank (a +:+ b)).
  rewrite IH. cbn [blank]. by rewrite andb_assoc.
Qed.

Lemma collect_runs_textless (shapes : list shape) :
  Forall textless shapes → Forall (λ r, r = "") (collect_runs shapes []).
Proof.
  induction 1 as [|sh shapes Hsh _ IH]; [constructor|]. cbn.
  destruct sh as [text|]; [|done]. destruct (str_truthy text); [|done].
  rewrite collect_runs_app. apply Forall_app. split; [|done].
  constructor; [|constructor]. by apply strip_blank.
Qed.

Lemma join_blank (runs : list string) :
  Forall (λ r, r = "") runs → blank (join " " runs) = true.
Proof.
  induction 1 as [|r runs -> _ IH]; [done|].
  cbn [join]. destruct runs as [|r' runs]; [done|].
  by rewrite !blank_app, IH.
Qed.

Lemma slide_content_textless (s : slide) :
  Forall textless s → slide_content s = "".
Proof.
  intros Hs. unfold slide_content. apply strip_blank, join_blank.
  by apply collect_runs_textless.
Qed.

(** X18: a deck that opens but has no text - no slides, or on every slide
    only shapes without text or with blank text - is a success: the script
    writes ["[No text found in presentation]"] and returns [True]. *)
Theorem extract_pptx_text_no_text (e : env) (pptx_path : string)
    (slides : list slide) :
  pptx_importable e = true →
  path_exists e pptx_path = true →
  Presentation e pptx_path = Loaded slides →
  Forall (Forall textless) slides →
  extract_pptx_text e pptx_path = ("[No text found in presentation]", true).
Proof.
  intros Hi He Hp Hblank. unfold extract_pptx_text. rewrite Hi, He, Hp.
  cbn [negb]. cbv zeta.
  assert (Hnone : collect_slides (zip (seq 0 (length slides)) slides) [] = []).
  { destruct (collect_slides _ _) as [|b bs] eqn:Hblocks; [done|].
    assert (Hb : b ∈ collect_slides (zip (seq 0 (length slides)) slides) [])
      by (rewrite Hblocks; by left).
    apply collect_slides_elem in Hb as (i & s & Hi' & Hne & _).
    destruct Hne. apply slide_content_textless.
    by apply (proj1 (Forall_lookup _ _) Hblank i s). }
  by rewrite Hnone.
Qed.

Lemma collect_slides_numbered (slides : list slide) :
  ∀ n,
    collect_slides (zip (seq n (length slides)) slides) [] =
    omap (λ '(i, s),
            if decide (slide_content s = "") then None
            else Some ("Slide " +:+ pretty (i + 1) +:+ ": " +:+ slide_content s))
         (imap (λ i s, (n + i, s)) slides).
Proof.
  induction slides as [|s0 slides IH]; intros n; [done|].
  rewrite imap_cons.
  assert (Hshift : imap ((λ i s, (n + i, s)) ∘ S) slides =
                   imap (λ i s, (S n + i, s)) slides).
  { apply imap_ext. intros i s _. cbn. f_equal. lia. }
  rewrite Hshift. specialize (IH (S n)). unfold omap in *.
  cbn [length seq zip zip_with collect_slides list_omap].
  rewrite <- IH, Nat.add_0_r.
  destruct (slide_content s0) as [|c r] eqn:Hc.
  - by rewrite decide_True.
  - rewrite decide_False by done. cbn [str_truthy].
    by rewrite collect_slides_app.
Qed.

Lemma isascii_app (a b : string) : isascii (a +:+ b) = isascii a && isascii b.
Proof.
  induction a as [|c a IH]; [done|].
  change (isascii (String c a +:+ b))
    with ((nat_of_ascii c <? 128) && isascii (a +:+ b)).
  rewrite IH. cbn [isascii]. by rewrite andb_assoc.
Qed.

Lemma isascii_lstrip (s : string) : isascii s = true → isascii (lstrip s) = true.
Proof.
  induction s as [|c s IH]; [done|]. intros Hs. cbn [lstrip].
  destruct (isspace c); [|done]. apply IH.
  cbn [isascii] in Hs. by apply andb_true_iff in Hs as [_ Hs].
Qed.

Lemma isascii_rstrip (s : string) : isascii s = true → isascii (rstrip s) = true.
Proof.
  induction s as [|c s IH]; [done|]. intros Hs.
  cbn [isascii] in Hs. apply andb_true_iff in Hs as [Hc Hs].
  specialize (IH Hs). cbn [rstrip]. destruct (rstrip s) as [|c' r].
  - destruct (isspace c); [done|]. cbn [isascii]. by rewrite Hc.
  - cbn [isascii] in *. by rewrite Hc, IH.
Qed.

Lemma isascii_strip (s : string) : isascii s = true → isascii (strip s) = true.
Proof. intros Hs. by apply isascii_rstrip, isascii_lstrip. Qed.

Lemma isascii_join (sep : string) (l : list string) :
  isascii sep = true → Forall (λ x, isascii x = true) l →
  isascii (join sep l) = true.
Proof.
  intros Hsep. induction 1 as [|x l Hx _ IH]; [done|].
  cbn [join]. destruct l as [|y l]; [done|].
  by rewrite !isascii_app, Hx, Hsep, IH.
Qed.

Lemma isascii_collect_runs (shapes : list shape) :
  Forall ascii_shape shapes →
  Forall (λ x, isascii x = true) (collect_runs shapes []).
Proof.
  induction 1 as [|sh shapes Hsh _ IH]; [constructor|]. cbn [collect_runs].
  destruct sh as [text|]; [|done]. destruct (str_truthy text); [|done].
  rewrite collect_runs_app. apply Forall_app. split; [|done].
  constructor; [|constructor]. by apply isascii_strip.
Qed.

Lemma isascii_slide_content (s : slide) :
  Forall ascii_shape s → isascii (slide_content s) = true.
Proof.
  intros Hs. unfold slide_content.
  by apply isascii_strip, isascii_join, isascii_collect_runs.
Qed.

Lemma isascii_pretty_N_go (x : N) :
  ∀ s, isascii s = true → isascii (pretty_N_go x s) = true.
Proof.
  induction (N.lt_wf_0 x) as [x _ IH]. intros s Hs.
  destruct (decide (x = 0%N)) as [->|Hx]; [by rewrite pretty_N_go_0|].
  rewrite pretty_N_go_step by lia. apply IH.
  - apply N.div_lt; lia.
  - cbn [isascii]. rewrite Hs, andb_true_r.
    unfold pretty_N_char. by repeat case_match.
Qed.

Lemma isascii_pretty (n : nat) : isascii (pretty n) = true.
Proof.
  unfold pretty, pretty_nat, pretty, pretty_N.
  destruct (decide (N.of_nat n = 0%N)); [done|].
  by apply isascii_pretty_N_go.
Qed.

(** X19: blocks are numbered by the slide's place in the deck.  For a deck
    that opens and whose texts are ASCII, the script returns [True], and
    what it writes is ASCII, so that standard output takes it whatever its
    encoding: the no-text message when no slide has text, and otherwise the
    blocks joined by blank lines, one block for each slide with text, in the
    order of the deck and once each: ["Slide "], the slide's one-based
    position in the deck, [": "] and the slide's trimmed text.  Slides
    without text leave a gap in the numbering. *)
Theorem extract_pptx_text_numbering (e : env) (pptx_path : string)
    (slides : list slide) :
  pptx_importable e = true →
  path_exists e pptx_path = true →
  Presentation e pptx_path = Loaded slides →
  Forall (Forall ascii_shape) slides →
  let blocks :=
    omap (λ '(i, s),
            if decide (slide_content s = "") then None
            else Some ("Slide " +:+ pretty (i + 1) +:+ ": " +:+ slide_content s))
         (imap (λ i s, (i, s)) slides) in
  ∃ output,
    extract_pptx_text e pptx_path = (output, true) ∧
    output = (if decide (blocks = []) then "[No text found in presentation]"
              else join (nl +:+ nl) blocks) ∧
    isascii output = true.
Proof.
  intros Hi He Hp Hascii blocks.
  unfold extract_pptx_text. rewrite Hi, He, Hp. cbn [negb]. cbv zeta.
  rewrite (collect_slides_numbered slides 0).
  change (imap (λ i s, (0 + i, s)) slides) with (imap (λ i s, (i, s)) slides).
  fold blocks.
  assert (Hblocks : Forall (λ x, isascii x = true) blocks).
  { apply Forall_forall. intros b Hb. unfold blocks in Hb.
    apply list_elem_of_omap in Hb as ([i s] & Hin & Hb).
    apply elem_of_lookup_imap in Hin as (i' & s' & [= -> ->] & Hs).
    destruct (decide (slide_content s' = "")); [done|].
    injection Hb as <-.
    rewrite !isascii_app, isascii_pretty, isascii_slide_content; [done|].
    by apply (proj1 (Forall_lookup _ _) Hascii i' s'). }
  eexists. split; [reflexivity|].
  destruct blocks as [|b bs]; cbn [seq_truthy].
  - by rewrite decide_True.
  - rewrite decide_False by done. split; [done|].
    by apply isascii_join.
Qed.

(** X17 at a call without an argument. *)
Example main_no_argument (e : env) :
  main e ["pptextractor.py"] = ("ERROR: No input file" +:+ nl, 1%Z).
Proof. reflexivity. Qed.

(** X18 at a deck whose only slide holds a picture and a blank text box. *)
Lemma extract_pptx_text_no_text_witness :
  extract_pptx_text (machine [[None; Some "   "]]) "deck.pptx" =
  ("[No text found in presentation]", true).
Proof.
  apply (extract_pptx_text_no_text (machine [[None; Some "   "]]) "deck.pptx"
           [[None; Some "   "]]); try reflexivity.
  repeat constructor.
Defined.

(** X19 at a deck of three slides, the second without text. *)
Lemma extract_pptx_text_numbering_witness :
  ∃ output,
    extract_pptx_text (machine deck) "deck.pptx" = (output, true) ∧
    output = "Slide 1: Title body" +:+ nl +:+ nl +:+ "Slide 3: end" ∧
    isascii output = true.
Proof.
  apply (extract_pptx_text_numbering (machine deck) "deck.pptx" deck);
    try reflexivity.
  repeat constructor.
Defined.

Example extract_pptx_text_deck :
  extract_pptx_text (machine deck) "deck.pptx" =
  ("Slide 1: Title body" +:+ nl +:+ nl +:+ "Slide 3: end", true).
Proof. vm_compute. reflexivity. Qed.

End PptExtractorFacts.

(** * Image-text extraction: properties *)

Module QwenOcrFacts.
Import QwenOcr.

Lemma mime_type_known (ext : string) : mime_type_of ext ∈ known_mime_types.
Proof.
  unfold mime_type_of, known_mime_types.
  repeat (destruct (String.eqb ext _); [set_solver|]). set_solver.
Qed.

Lemma eqb_false_ne (a b : string) : String.eqb a b = false → a ≠ b.
Proof. intros H ->. by rewrite String.eqb_refl in H. Qed.

(** X20: the returned dictionary is consistent on every path.  It names the
    image by its base name; [detected] is true exactly when [text] is not
    empty; a dictionary with an [error] is never [detected]; and a detected
    text is trimmed, is not the no-text marker, comes with its length as
    [char_count], and carries no [error]. *)
Theorem ocr_result_consistent (e : env) (image_path : string)
    (api_key : option string) :
  let r := (extract_text_from_image e image_path api_key).1 in
  image r = basename e image_path ∧
  (detected r = true ↔ text r ≠ "") ∧
  (is_Some (error r) → detected r = false) ∧
  (detected r = true →
   strip (text r) = text r ∧
   text r ≠ "[NO TEXT DETECTED]" ∧
   char_count r = Some (String.length (text r)) ∧
   error r = None).
Proof.
  assert (Hfailed : ∀ msg, let r := failed e image_path msg in
    image r = basename e image_path ∧
    (detected r = true ↔ text r ≠ "") ∧
    (is_Some (error r) → detected r = false) ∧
    (detected r = true →
     strip (text r) = text r ∧ text r ≠ "[NO TEXT DETECTED]" ∧
     char_count r = Some (String.length (text r)) ∧ error r = None)).
  { intros msg. cbn. split; [done|]. split; [by split|]. by split. }
  unfold extract_text_from_image, try_body.
  destruct (path_exists e image_path); cbn [negb]; [|apply Hfailed].
  destruct (str_truthy (chosen_key e api_key)); cbn [negb]; [|apply Hfailed].
  destruct (encode_image_to_base64 e image_path) as [b64|[msg|msg|ty msg]];
    [|apply Hfailed..].
  cbv zeta.
  destruct (create e _) as [[|[content|] choices] tokens|[msg|msg|ty msg]];
    [apply Hfailed| |apply Hfailed..].
  destruct (String.eqb (strip content) "[NO TEXT DETECTED]") eqn:Hmark.
  { cbn. split; [done|]. split; [by split|]. by split. }
  destruct (str_truthy (strip content)) eqn:Htext; cbn [orb negb].
  - cbn. split; [done|]. apply eqb_false_ne in Hmark.
    assert (Hne : strip content ≠ "") by by destruct (strip content).
    split; [by split|]. split; [by intros [? ?]|]. intros _.
    split; [apply strip_idemp|done].
  - cbn. split; [done|]. split; [by split|]. by split.
Qed.

(** X21: the API is asked at most once per image, and never for an image
    that does not exist or without a key.  A request that is sent carries
    the chosen key, the endpoint and model that go with the environment's
    key (whatever key was passed as argument), and the encoded image as a
    data URL of one of four image types. *)
Theorem ocr_requests (e : env) (image_path : string) (api_key : option string) :
  let r := (extract_text_from_image e image_path api_key).1 in
  let calls := (extract_text_from_image e image_path api_key).2 in
  (calls = [] ∨
   ∃ req mime image_base64,
     calls = [req] ∧
     req_api_key req = chosen_key e api_key ∧
     req_api_key req ≠ "" ∧
     req_base_url req = QWEN_BASE_URL (QWEN_API_KEY e) ∧
     req_model req = QWEN_MODEL (QWEN_API_KEY e) ∧
     mime ∈ known_mime_types ∧
     encode_image_to_base64 e image_path = Encoded image_base64 ∧
     req_image_url req = "data:" +:+ mime +:+ ";base64," +:+ image_base64) ∧
  (path_exists e image_path = false →
   calls = [] ∧ error r = Some ("Image not found: " +:+ image_path)) ∧
  (path_exists e image_path = true → chosen_key e api_key = "" →
   calls = [] ∧ error r = Some key_missing_message).
Proof.
  cbv zeta. unfold extract_text_from_image, try_body.
  destruct (path_exists e image_path); cbn [negb].
  2:{ split; [by left|]. by split. }
  destruct (chosen_key e api_key) as [|c k] eqn:Hkey; cbn [str_truthy negb].
  { split; [by left|]. by split. }
  destruct (encode_image_to_base64 e image_path) as [b64|[msg|msg|ty msg]].
  2-4: (split; [by left|]; by split).
  cbv zeta.
  assert (Hsent : ∀ (r : ocr_result) (req : request),
    req = {| req_api_key := String c k;
             req_base_url := QWEN_BASE_URL (QWEN_API_KEY e);
             req_model := QWEN_MODEL (QWEN_API_KEY e);
             req_image_url :=
               "data:" +:+ mime_type_of (lower (splitext_ext e image_path))
               +:+ ";base64," +:+ b64;
             req_text := prompt |} →
    ((r, [req]).2 = [] ∨
     ∃ req' mime image_base64,
       (r, [req]).2 = [req'] ∧ req_api_key req' = String c k ∧
       req_api_key req' ≠ "" ∧
       req_base_url req' = QWEN_BASE_URL (QWEN_API_KEY e) ∧
       req_model req' = QWEN_MODEL (QWEN_API_KEY e) ∧
       mime ∈ known_mime_types ∧ Encoded b64 = Encoded image_base64 ∧
       req_image_url req' = "data:" +:+ mime +:+ ";base64," +:+ image_base64) ∧
    (true = false →
     (r, [req]).2 = [] ∧
     error (r, [req]).1 = Some ("Image not found: " +:+ image_path)) ∧
    (true = true → String c k = "" →
     (r, [req]).2 = [] ∧ error (r, [req]).1 = Some key_missing_message)).
  { intros r req ->. split; [|by split]. right.
    eexists _, _, b64. split; [done|]. cbn.
    split; [done|]. split; [done|]. split; [done|]. split; [done|].
    split; [apply mime_type_known|done]. }
  destruct (create e _) as [[|[content|] choices] tokens|[msg|msg|ty msg]];
    try by apply Hsent.
  destruct (_ || _); by apply Hsent.
Qed.

Lemma friendly_cases (msg : string) :
  friendly msg = "Invalid API key. Please check your QWEN_API_KEY." ∨
  friendly msg = "API rate limit exceeded. Please wait and try again." ∨
  friendly msg = "API quota exceeded. Please check your account." ∨
  friendly msg = "API request timed out. Please try again." ∨
  (friendly msg = msg ∧
   contains "authentication" (lower msg) || contains "api key" (lower msg) = false ∧
   contains "rate limit" (lower msg) = false ∧
   contains "quota" (lower msg) = false ∧
   contains "timeout" (lower msg) = false).
Proof.
  unfold friendly. cbv zeta.
  destruct (contains "authentication" (lower msg) || contains "api key" (lower msg));
    [by left|].
  destruct (contains "rate limit" (lower msg)); [by right; left|].
  destruct (contains "quota" (lower msg)); [by right; right; left|].
  destruct (contains "timeout" (lower msg)); [by right; right; right; left|].
  by right; right; right; right.
Qed.

(** X22: the message rewriting is stable: rewriting a message that has been
    rewritten leaves it as it is. *)
Theorem friendly_idempotent (msg : string) :
  friendly (friendly msg) = friendly msg.
Proof.
  destruct (friendly_cases msg) as [->|[->|[->|[->|(-> & H1 & H2 & H3 & H4)]]]];
    try by vm_compute.
  unfold friendly. cbv zeta. by rewrite H1, H2, H3, H4.
Qed.

Lemma ocr_requests_at_most_one (e : env) (image_path : string)
    (api_key : option string) :
  (extract_text_from_image e image_path api_key).2 = [] ∨
  ∃ req, (extract_text_from_image e image_path api_key).2 = [req].
Proof.
  unfold extract_text_from_image, try_body.
  destruct (path_exists e image_path); cbn [negb]; [|by left].
  destruct (str_truthy (chosen_key e api_key)); cbn [negb]; [|by left].
  destruct (encode_image_to_base64 e image_path) as [b64|[msg|msg|ty msg]];
    [|by left..].
  cbv zeta. right.
  destruct (create e _) as [[|[content|] choices] tokens|[msg|msg|ty msg]];
    try by eexists.
  destruct (_ || _); by eexists.
Qed.

Lemma process_run (e : env) (paths : list string) :
  ∀ results calls,
    process e paths results calls =
    (results ++ ((λ p, (extract_text_from_image e p None).1) <$> paths),
     calls ++ mjoin ((λ p, (extract_text_from_image e p None).2) <$> paths)).
Proof.
  induction paths as [|p paths IH]; intros results calls.
  - cbn. by rewrite !app_nil_r.
  - cbn [process]. destruct (extract_text_from_image e p None) as [r sent] eqn:Hp.
    rewrite IH. cbn. rewrite Hp. cbn. by rewrite <- !app_assoc.
Qed.

Lemma requests_bound (e : env) (paths : list string) :
  length (mjoin ((λ p, (extract_text_from_image e p None).2) <$> paths))
  ≤ length paths.
Proof.
  induction paths as [|p paths IH]; [done|].
  change (length ((extract_text_from_image e p None).2 ++
            mjoin ((λ p, (extract_text_from_image e p None).2) <$> paths))
          ≤ S (length paths)).
  rewrite length_app.
  destruct (ocr_requests_at_most_one e p None) as [-> | [req ->]]; cbn [length]; lia.
Qed.

(** X23: [main] stops before any work, with exit status 1 and no request
    sent, exactly when no path is given or the environment has no key.
    Otherwise it works through every path in the order of the arguments,
    with one result per path and at most one request per path: a path that
    fails gets its error dictionary and does not stop the run.  It then
    prints these results and exits normally when standard output can encode
    them; when it cannot, nothing is printed and the exit status is 1,
    although the requests have been sent. *)
Theorem main_one_result_per_path (e : env)
    (stdout_accepts : list ocr_result → bool) (argv : list string) :
  let results := (λ p, (extract_text_from_image e p None).1) <$> tail argv in
  let sent := mjoin ((λ p, (extract_text_from_image e p None).2) <$> tail argv) in
  match main e stdout_accepts argv with
  | (Aborted _ _ _, status, calls) =>
      status = 1%Z ∧ calls = [] ∧ (length argv < 2 ∨ QWEN_API_KEY e = "")
  | (Results printed_results, status, calls) =>
      status = 0%Z ∧ 2 ≤ length argv ∧ QWEN_API_KEY e ≠ "" ∧
      stdout_accepts results = true ∧
      printed_results = results ∧
      calls = sent ∧ length calls ≤ length results
  | (Unprinted, status, calls) =>
      status = 1%Z ∧ 2 ≤ length argv ∧ QWEN_API_KEY e ≠ "" ∧
      stdout_accepts results = false ∧
      calls = sent ∧ length calls ≤ length results
  end.
Proof.
  intros results sent. unfold main. destruct (length argv <? 2) eqn:Hlen.
  { apply Nat.ltb_lt in Hlen. auto. }
  apply Nat.ltb_ge in Hlen.
  destruct (QWEN_API_KEY e) as [|c k] eqn:Hkey; cbn [str_truthy negb]; [auto|].
  rewrite process_run. cbn [app]. fold results. fold sent.
  assert (Hbound : length sent ≤ length results).
  { unfold results, sent. rewrite length_fmap. apply requests_bound. }
  destruct (stdout_accepts results) eqn:Hout; repeat (split; [done|]); done.
Qed.

(** X20 at an image whose text comes back with surrounding whitespace. *)
Lemma ocr_result_consistent_witness :
  let r := (extract_text_from_image
              (machine "sk-or-k" (Completed [Some " Hello "] 42)) "scan.PNG" None).1 in
  strip (text r) = text r ∧
  text r ≠ "[NO TEXT DETECTED]" ∧
  char_count r = Some (String.length (text r)) ∧
  error r = None.
Proof.
  intros r.
  destruct (ocr_result_consistent
              (machine "sk-or-k" (Completed [Some " Hello "] 42)) "scan.PNG" None)
    as (_ & _ & _ & Hdetected).
  apply Hdetected. reflexivity.
Defined.

(** X21 at an image that does not exist. *)
Lemma ocr_requests_witness :
  (extract_text_from_image
     (machine "sk-or-k" (Completed [Some "Hello"] 42)) "nope.png" None).2 = [] ∧
  error (extract_text_from_image
           (machine "sk-or-k" (Completed [Some "Hello"] 42)) "nope.png" None).1
  = Some "Image not found: nope.png".
Proof.
  destruct (ocr_requests (machine "sk-or-k" (Completed [Some "Hello"] 42))
              "nope.png" None) as (_ & Hmissing & _).
  apply Hmissing. reflexivity.
Defined.

(** The request for an upper-case extension, with a key passed as argument
    to a process whose environment has none: the key is the argument's, the
    endpoint is the one of an environment without an OpenRouter key. *)
Example ocr_request_sent :
  (extract_text_from_image (machine "" (Completed [Some "Hello"] 42))
     "scan.PNG" (Some "sk-or-k")).2 =
  [{| req_api_key := "sk-or-k";
      req_base_url := "https://dashscope.aliyuncs.com/compatible-mode/v1";
      req_model := "qwen-vl-max-latest";
      req_image_url := "data:image/png;base64,aGk=";
      req_text := prompt |}].
Proof. vm_compute. reflexivity. Qed.

(** A run over three paths: a readable image, an unreadable one and a
    missing one. *)
Example main_three_paths :
  main (machine "sk-or-k" (Completed [Some "[NO TEXT DETECTED]"] 7)) (λ _, true)
    ["qwen_ocr.py"; "scan.PNG"; "locked.jpg"; "nope.png"] =
  (Results
     [{| image := "scan.PNG"; text := ""; detected := false;
         tokens_used := Some 7; model := Some "qwen/qwen-2-vl-72b-instruct";
         char_count := None; error := None |};
      failed (machine "sk-or-k" (Completed [Some "[NO TEXT DETECTED]"] 7))
        "locked.jpg" "[Errno 13] Permission denied";
      failed (machine "sk-or-k" (Completed [Some "[NO TEXT DETECTED]"] 7))
        "nope.png" "Image not found: nope.png"],
   0%Z,
   [{| req_api_key := "sk-or-k";
       req_base_url := "https://openrouter.ai/api/v1";
       req_model := "qwen/qwen-2-vl-72b-instruct";
       req_image_url := "data:image/png;base64,aGk=";
       req_text := prompt |}]).
Proof. vm_compute. reflexivity. Qed.

(** A run whose result standard output cannot encode: the request has been
    sent, nothing is printed, and the exit status is 1. *)
Example main_unprintable :
  main (machine "sk-or-k" (Completed [Some (String "233"%char "")] 42)) (λ _, false)
    ["qwen_ocr.py"; "scan.PNG"] =
  (Unprinted, 1%Z,
   [{| req_api_key := "sk-or-k";
       req_base_url := "https://openrouter.ai/api/v1";
       req_model := "qwen/qwen-2-vl-72b-instruct";
       req_image_url := "data:image/png;base64,aGk=";
       req_text := prompt |}]).
Proof. vm_compute. reflexivity. Qed.

(** A rate-limit error is rewritten whatever its capitalisation. *)
Example friendly_rate_limit :
  friendly "Error code: 429 - Rate Limit reached" =
  "API rate limit exceeded. Please wait and try again.".
Proof. vm_compute. reflexivity. Qed.

End QwenOcrFacts.
